(** * Smaira: market snapshot aggregation and alert detection

    A shallow embedding of [src/core/markets.ts] (snapshot aggregation,
    single-token price lookup) and [src/core/alerts.ts] (the stateful alert
    detector and the alert formatter), with the properties of the
    specification stated and proved against it.

    Number model.  A JavaScript [number] is an IEEE-754 double.  A number
    that the program receives (a field of the feed, a threshold, a stored
    volume) is a finite double, carried as the rational it denotes ([Q]);
    comparisons between such numbers, [Math.abs] of one and the sign of the
    difference of two are exact on doubles and are the operations of [Q].
    A number that the program computes by [+], [-], [*] or [/] is a
    [Double.number]: the operations round to the nearest double, ties to
    even, and return the infinities, [NaN] and the negative zero where
    IEEE 754 does.

    Time model.  [new Date()] is read from a parameter [now]; a [Date] is a
    count of milliseconds.

    The awaited result of [fetchMarketData()] is the parameter [tokens] of
    the functions that call it.

    Beyond these two files the development embeds what surrounds them: the
    reading of the watchlist from the environment (utils/config.ts),
    [getTopByVolume] (index.ts), the job scheduler (cron/scheduler.ts), the
    DCA analysis (dca/engine.ts) and the watchlist of the dashboard
    (frontend/app.js).  Calls to outside services are inputs of the
    functions that make them. *)

From Stdlib Require Import QArith Qabs Qround Qpower ZArith List Ascii String Sorted Permutation Lia.
From Stdlib Require Import DecimalString Lqa Floats.
From stdpp Require Import gmap strings list fin_maps.

Open Scope Q_scope.
Open Scope string_scope.
Open Scope list_scope.

(** ** JavaScript numbers *)

Module Num.

(** [x < y] on numbers. *)
Definition ltb (x y : Q) : bool := negb (Qle_bool y x).

(** [x > y] on numbers. *)
Definition gtb (x y : Q) : bool := ltb y x.

(** [x >= y] on numbers. *)
Definition geb (x y : Q) : bool := Qle_bool y x.

(** Truthiness of a number: every number except zero ([NaN] is outside the
    model). *)
Definition truthy (x : Q) : bool := negb (Qeq_bool x 0).

(** [10^f] as a rational. *)
Definition pow10 (f : nat) : Q := inject_Z (10 ^ Z.of_nat f).

(** Decimal digits of a natural number. *)
Definition digits (n : Z) : string :=
  NilZero.string_of_uint (N.to_uint (Z.to_N n)).

(** A run of [k] zero digits. *)
Fixpoint zeros (k : nat) : string :=
  match k with
  | O => ""
  | S k' => "0" +:+ zeros k'
  end.

(** [s.padStart(w, "0")]. *)
Definition padZeros (w : nat) (s : string) : string :=
  zeros (w - String.length s) +:+ s.

(** [Number.prototype.toFixed(f)] (ECMA-262, 21.1.3.3) for magnitudes below
    [1e21]: the sign is split off, [n] is the integer for which [n / 10^f]
    is closest to [x] (the larger one on a tie), and the digits of [n],
    padded to [f + 1] places, get a decimal point before the last [f]. *)
Definition toFixed (x : Q) (f : nat) : string :=
  let neg := ltb x 0 in
  let a := if neg then Qopp x else x in
  let n := Qfloor (a * pow10 f + (1 # 2)) in
  let m := padZeros (S f) (digits n) in
  let k := (String.length m - f)%nat in
  let body :=
    match f with
    | O => m
    | _ => String.substring 0 k m +:+ "." +:+ String.substring k f m
    end in
  if neg then "-" +:+ body else body.

End Num.

(** ** Computed numbers: binary64 arithmetic *)

Module Double.

(** The value of an arithmetic expression: a finite double as the rational
    it denotes ([Finite 0] is [+0]), [-0], an infinity or [NaN]. *)
Inductive number :=
| Finite (q : Q)
| NegZero
| Infinity (negative : bool)
| NaN.

(** [floor (log2 a)] for [a > 0]: the difference of the bit lengths of
    numerator and denominator, or one less. *)
Definition ilog2 (a : Q) : Z :=
  let k := (Z.log2 (Qnum a) - Z.log2 (Zpos (Qden a)))%Z in
  if Qle_bool (2 ^ k) a then k else (k - 1)%Z.

(** The double nearest to the real [q] (IEEE 754 roundTiesToEven, 53
    significant bits, exponents from -1074 for the last bit of a subnormal
    to 971 for the last bit of the largest double).  [2 ^ e] is the unit in
    the last place at the magnitude of [q], [m] the multiple of it just
    below; the result is [m] or [m + 1] units, the even one on a tie.  From
    [2 ^ 1024] on the result is an infinity, and a result of zero units
    keeps the sign of [q]. *)
Definition round (q : Q) : number :=
  let q := Qred q in
  if Qeq_bool q 0 then Finite 0
  else
    let negative := Num.ltb q 0 in
    let a := Qabs q in
    let e := Z.max (ilog2 a - 52) (-1074) in
    let x := a / 2 ^ e in
    let m := Qfloor x in
    let up :=
      match Qcompare (x - inject_Z m) (1 # 2) with
      | Lt => false
      | Eq => Z.odd m
      | Gt => true
      end in
    let r := Qred (inject_Z (if up then m + 1 else m) * 2 ^ e) in
    if Qle_bool (2 ^ 1024) r then Infinity negative
    else if Qeq_bool r 0 then (if negative then NegZero else Finite 0)
    else Finite (if negative then - r else r).

(** The sign bit. *)
Definition isNegative (x : number) : bool :=
  match x with
  | Finite q => Num.ltb q 0
  | NegZero => true
  | Infinity negative => negative
  | NaN => false
  end.

(** The real that a finite number denotes. *)
Definition real (x : number) : Q :=
  match x with
  | Finite q => q
  | _ => 0
  end.

(** [+0] or [-0]. *)
Definition isZero (x : number) : bool :=
  match x with
  | Finite q => Qeq_bool q 0
  | NegZero => true
  | _ => false
  end.

Definition zero (negative : bool) : number :=
  if negative then NegZero else Finite 0.

(** [-x]. *)
Definition neg (x : number) : number :=
  match x with
  | Finite q => if Qeq_bool q 0 then NegZero else Finite (- q)
  | NegZero => Finite 0
  | Infinity negative => Infinity (negb negative)
  | NaN => NaN
  end.

(** [x + y]: the rounded sum; a sum of exactly zero is [+0] unless both
    terms are [-0]. *)
Definition add (x y : number) : number :=
  match x, y with
  | NaN, _ | _, NaN => NaN
  | Infinity s, Infinity s' => if Bool.eqb s s' then Infinity s else NaN
  | Infinity s, _ | _, Infinity s => Infinity s
  | NegZero, NegZero => NegZero
  | _, _ => round (real x + real y)
  end.

(** [x - y]. *)
Definition sub (x y : number) : number := add x (neg y).

(** [x * y]. *)
Definition mul (x y : number) : number :=
  let negative := xorb (isNegative x) (isNegative y) in
  match x, y with
  | NaN, _ | _, NaN => NaN
  | Infinity _, _ | _, Infinity _ =>
      if isZero x || isZero y then NaN else Infinity negative
  | _, _ =>
      if isZero x || isZero y then zero negative else round (real x * real y)
  end.

(** [x / y]: a division by zero gives an infinity, [0 / 0] gives [NaN]. *)
Definition div (x y : number) : number :=
  let negative := xorb (isNegative x) (isNegative y) in
  match x, y with
  | NaN, _ | _, NaN => NaN
  | Infinity _, Infinity _ => NaN
  | Infinity _, _ => Infinity negative
  | _, Infinity _ => zero negative
  | _, _ =>
      if isZero y then (if isZero x then NaN else Infinity negative)
      else if isZero x then zero negative
      else round (real x / real y)
  end.

(** [Math.abs(x)]. *)
Definition abs (x : number) : number :=
  match x with
  | Finite q => Finite (Qabs q)
  | NegZero => Finite 0
  | Infinity _ => Infinity false
  | NaN => NaN
  end.

(** [x < y]: false when an operand is [NaN]. *)
Definition lt (x y : number) : bool :=
  match x, y with
  | NaN, _ | _, NaN => false
  | Infinity true, Infinity true => false
  | Infinity true, _ => true
  | _, Infinity true => false
  | Infinity false, _ => false
  | _, Infinity false => true
  | _, _ => Num.ltb (real x) (real y)
  end.

(** [x > y]. *)
Definition gt (x y : number) : bool := lt y x.

(** [x >= y]: false when an operand is [NaN]. *)
Definition ge (x y : number) : bool :=
  match x, y with
  | NaN, _ | _, NaN => false
  | _, _ => negb (lt x y)
  end.

(** [x.toFixed(f)]. *)
Definition toFixed (x : number) (f : nat) : string :=
  match x with
  | Finite q => Num.toFixed q f
  | NegZero => Num.toFixed 0 f
  | Infinity false => "Infinity"
  | Infinity true => "-Infinity"
  | NaN => "NaN"
  end.

(** The number a decimal literal of the source denotes. *)
Definition literal (q : Q) : Q := real (round q).

End Double.

(** ** JavaScript strings *)

Module Str.

(** [c.toUpperCase()] on an ASCII letter; other bytes are unchanged. *)
Definition upperAscii (c : ascii) : ascii :=
  let n := nat_of_ascii c in
  if (Nat.leb 97 n && Nat.leb n 122)%bool then ascii_of_nat (n - 32) else c.

(** [s.toUpperCase()] for ASCII text. *)
Fixpoint toUpperCase (s : string) : string :=
  match s with
  | EmptyString => EmptyString
  | String c r => String (upperAscii c) (toUpperCase r)
  end.

(** [xs.includes(s)] on an array of strings. *)
Definition includes (xs : list string) (s : string) : bool :=
  existsb (String.eqb s) xs.

(** [lines.join(sep)]. *)
Fixpoint join (sep : string) (lines : list string) : string :=
  match lines with
  | [] => ""
  | [l] => l
  | l :: rest => l +:+ sep +:+ join sep rest
  end.

(** [s.split(sep)] for a one-character separator: the pieces between the
    occurrences of [sep], the empty ones included; never the empty array. *)
Fixpoint split (sep : ascii) (s : string) : list string :=
  match s with
  | EmptyString => [EmptyString]
  | String c r =>
      if Ascii.eqb c sep then EmptyString :: split sep r
      else match split sep r with
           | [] => [String c EmptyString]
           | w :: ws => String c w :: ws
           end
  end.

(** The ASCII white space and line terminators that [trim] strips: TAB, LF,
    VT, FF, CR and SP. *)
Definition isSpace (c : ascii) : bool :=
  let n := nat_of_ascii c in
  (Nat.leb 9 n && Nat.leb n 13) || Nat.eqb n 32.

Fixpoint trimStart (s : string) : string :=
  match s with
  | EmptyString => EmptyString
  | String c r => if isSpace c then trimStart r else s
  end.

Fixpoint trimEnd (s : string) : string :=
  match s with
  | EmptyString => EmptyString
  | String c r =>
      match trimEnd r with
      | EmptyString => if isSpace c then EmptyString else String c EmptyString
      | r' => String c r'
      end
  end.

(** [s.trim()] for ASCII text. *)
Definition trim (s : string) : string := trimEnd (trimStart s).

End Str.

(** ** JavaScript arrays *)

Module Arr.

Section Sorting.
Context {A : Type}.
Variable compareFn : A -> A -> Q.

(** Places [x], which precedes every element of the sorted run [l] in
    the input, in front of the first element that it must not follow:
    [x] moves behind [y] only when [compareFn x y > 0]. *)
Fixpoint insert (x : A) (l : list A) : list A :=
  match l with
  | [] => [x]
  | y :: l' =>
      if Num.gtb (compareFn x y) 0 then y :: insert x l' else x :: l
  end.

(** [arr.sort(compareFn)].  ECMA-262 requires the sort to be stable; for
    a consistent comparator the stable ordering is unique, and this
    insertion sort computes it. *)
Definition sort (l : list A) : list A := fold_right insert [] l.
End Sorting.

Section SortingBy.
Context {A : Type}.
Variable compareFn : A -> A -> Double.number.

(** [insert] for a comparator whose result is computed: [x] moves behind
    [y] only when [compareFn x y > 0], so not when the result is [NaN],
    which [sort] reads as [+0]. *)
Fixpoint insertBy (x : A) (l : list A) : list A :=
  match l with
  | [] => [x]
  | y :: l' =>
      if Double.gt (compareFn x y) (Double.Finite 0) then y :: insertBy x l'
      else x :: l
  end.

(** [arr.sort(compareFn)] for such a comparator. *)
Definition sortBy (l : list A) : list A := fold_right insertBy [] l.
End SortingBy.

(** [arr.slice(0, n)]. *)
Definition slice0 {A : Type} (n : nat) (l : list A) : list A := firstn n l.

Arguments slice0 : simpl never.
Arguments sort : simpl never.
Arguments sortBy : simpl never.
Arguments Double.round : simpl never.
Arguments Double.add : simpl never.
Arguments Double.sub : simpl never.
Arguments Double.mul : simpl never.
Arguments Double.div : simpl never.
Arguments Double.lt : simpl never.
Arguments Double.gt : simpl never.
Arguments Double.ge : simpl never.

(** [ToIntegerOrInfinity] on a finite number: truncation towards zero. *)
Definition toInteger (x : Q) : Z :=
  if Num.ltb x 0 then Qceiling x else Qfloor x.

(** [arr.slice(0, end)] for any number [end]: a negative [end] counts from
    the end of the array. *)
Definition sliceTo {A : Type} (endArg : Q) (l : list A) : list A :=
  let len := Z.of_nat (length l) in
  let relativeEnd := toInteger endArg in
  let final :=
    if Z.ltb relativeEnd 0 then Z.max (len + relativeEnd) 0
    else Z.min relativeEnd len in
  firstn (Z.to_nat final) l.

(** [arr.filter(x => x !== null)] on the results of a [map] that may return
    [null]. *)
Fixpoint dropNull {A : Type} (l : list (option A)) : list A :=
  match l with
  | [] => []
  | Some x :: rest => x :: dropNull rest
  | None :: rest => dropNull rest
  end.

End Arr.

(** ** utils/config.ts *)

Definition Date := Z.

Module Config.

Record Alerts := {
  priceChangeThreshold : Q;
  volumeSpikeThreshold : Q;
}.

(** The fields of [SmairaConfig] read by the core ([reports] and [cron]
    configure the file writer and the scheduler). *)
Record SmairaConfig := {
  network : string;
  watchlist : list string;
  alerts : Alerts;
}.

(** [defaultConfig] when no environment variable is set. *)
Definition defaultConfig : SmairaConfig := {|
  network := "mainnet";
  watchlist := ["ETH"; "STRK"; "USDC"; "LORDS"; "ZEND"; "BROTHER"; "NSTR"];
  alerts := {| priceChangeThreshold := 5; volumeSpikeThreshold := 200 |};
|}.

(** The [watchlist] field of [defaultConfig] as a function of the
    environment variable [WATCHLIST] ([None]: not set):
    [process.env.WATCHLIST?.split(',').map(s => s.trim()) || [...]].  An
    array is truthy, so the literal list is used only when the variable is
    not set. *)
Definition watchlistFromEnv (env : option string) : list string :=
  match env with
  | Some s => map Str.trim (Str.split ","%char s)
  | None => watchlist defaultConfig
  end.

(** [getConfig()] when [WATCHLIST] is the only variable of the environment
    that may be set. *)
Definition getConfig (watchlistEnv : option string) : SmairaConfig :=
  {| network := network defaultConfig;
     watchlist := watchlistFromEnv watchlistEnv;
     alerts := alerts defaultConfig |}.

End Config.

(** ** core/markets.ts *)

Module Markets.

Record TokenMarketData := {
  symbol : string;
  name : string;
  address : string;
  priceUsd : Q;
  marketCap : option Q;
  volume24h : Q;
  priceChange24h : Q;
  liquidity : option Q;
  verified : bool;
  lastUpdated : Date;
}.

Record MarketSnapshot := {
  timestamp : Date;
  network : string;
  tokenCount : nat;
  totalVolume24h : Double.number;
  topByVolume : list TokenMarketData;
  topGainers : list TokenMarketData;
  topLosers : list TokenMarketData;
  watchlist : list TokenMarketData;
}.

(** [allTokens.filter(t => t.volume24h > 0)]. *)
Definition activeTokens (allTokens : list TokenMarketData) : list TokenMarketData :=
  List.filter (fun t => Num.gtb (volume24h t) 0) allTokens.

(** [getMarketSnapshot()], with [getConfig()], the fetched batch and the
    clock as inputs. *)
Definition getMarketSnapshot (config : Config.SmairaConfig)
    (allTokens : list TokenMarketData) (now : Date) : MarketSnapshot :=
  let activeTokens := activeTokens allTokens in
  let byVolume :=
    Arr.sort (fun a b => volume24h b - volume24h a) activeTokens in
  let byGain :=
    Arr.sort (fun a b => priceChange24h b - priceChange24h a)
      (List.filter (fun t => Num.gtb (priceChange24h t) 0) activeTokens) in
  let byLoss :=
    Arr.sort (fun a b => priceChange24h a - priceChange24h b)
      (List.filter (fun t => Num.ltb (priceChange24h t) 0) activeTokens) in
  let watchlistTokens :=
    List.filter
      (fun t => Str.includes (Config.watchlist config) (Str.toUpperCase (symbol t)))
      allTokens in
  let totalVolume :=
    fold_left (fun sum t => Double.add sum (Double.Finite (volume24h t)))
      activeTokens (Double.Finite 0) in
  {| timestamp := now;
     network := Config.network config;
     tokenCount := length allTokens;
     totalVolume24h := totalVolume;
     topByVolume := Arr.slice0 20 byVolume;
     topGainers := Arr.slice0 10 byGain;
     topLosers := Arr.slice0 10 byLoss;
     watchlist := watchlistTokens |}.

(** [getTokenPrice(symbol)]: [None] is [null]. *)
Definition getTokenPrice (allTokens : list TokenMarketData) (sym : string) : option Q :=
  let token :=
    List.find
      (fun t => String.eqb (Str.toUpperCase (symbol t)) (Str.toUpperCase sym))
      allTokens in
  match token with
  | Some t => if Num.truthy (priceUsd t) then Some (priceUsd t) else None
  | None => None
  end.

(** The part of an entry of the feed ([getMarketData()] of the SDK) that
    [fetchMarketData] reads; every block and every number may be missing. *)
Record StarknetData := {
  usd : option Q;
  usdVolume24h : option Q;
  usdPriceChangePercentage24h : option Q;
  usdLiquidity : option Q;
}.

Record GlobalData := {
  usdMarketCap : option Q;
}.

Record RawToken := {
  rawSymbol : string;
  rawName : string;
  rawAddress : string;
  starknet : option StarknetData;
  global : option GlobalData;
  tags : option (list string);
}.

(** [x || 0] on a number that may be [undefined]. *)
Definition orZero (x : option Q) : Q :=
  match x with
  | Some v => if Num.truthy v then v else 0
  | None => 0
  end.

(** [t.tags?.includes(tag)] as a condition. *)
Definition hasTag (t : RawToken) (tag : string) : bool :=
  match tags t with
  | Some ts => Str.includes ts tag
  | None => false
  end.

(** The record [fetchMarketData] builds from one entry of the feed. *)
Definition normalize (now : Date) (t : RawToken) : TokenMarketData :=
  {| symbol := rawSymbol t;
     name := rawName t;
     address := rawAddress t;
     priceUsd := orZero (starknet t ≫= usd);
     marketCap := global t ≫= usdMarketCap;
     volume24h := orZero (starknet t ≫= usdVolume24h);
     priceChange24h := orZero (starknet t ≫= usdPriceChangePercentage24h);
     liquidity := starknet t ≫= usdLiquidity;
     verified := hasTag t "Community" || hasTag t "AVNU" || false;
     lastUpdated := now |}.

(** [fetchMarketData()], with the awaited feed as input. *)
Definition fetchMarketData (rawData : list RawToken) (now : Date)
    : list TokenMarketData :=
  map (normalize now) rawData.

(** [getVerifiedTokens()]. *)
Definition getVerifiedTokens (allTokens : list TokenMarketData)
    : list TokenMarketData :=
  List.filter (fun t => verified t) allTokens.

Record PriceComparison := {
  cmpSymbol : string;
  current : Q;
  previous : Q;
  change : Double.number;
}.

(** The callback of the [map] in [comparePrices]: [None] is [null]. *)
Definition comparePrice (previousTokens : list TokenMarketData)
    (c : TokenMarketData) : option PriceComparison :=
  match List.find (fun t => String.eqb (address t) (address c)) previousTokens with
  | Some p =>
      if Qeq_bool (priceUsd p) 0 then None
      else Some {| cmpSymbol := symbol c;
                   current := priceUsd c;
                   previous := priceUsd p;
                   change :=
                     Double.mul
                       (Double.div
                          (Double.sub (Double.Finite (priceUsd c))
                             (Double.Finite (priceUsd p)))
                          (Double.Finite (priceUsd p)))
                       (Double.Finite 100) |}
  | None => None
  end.

(** [comparePrices(current, previous)]. *)
Definition comparePrices (currentTokens previousTokens : list TokenMarketData)
    : list PriceComparison :=
  Arr.sortBy
    (fun a b => Double.sub (Double.abs (change b)) (Double.abs (change a)))
    (Arr.dropNull (map (comparePrice previousTokens) currentTokens)).

End Markets.

(** ** core/alerts.ts *)

Module Alerts.
Import Markets.

Record AlertConfig := {
  priceChangeThreshold : Q;
  volumeSpikeThreshold : Q;
  watchlist : option (list string);
}.

(** [Partial<AlertConfig>]: every field may be missing. *)
Record PartialAlertConfig := {
  optPriceChangeThreshold : option Q;
  optVolumeSpikeThreshold : option Q;
  optWatchlist : option (list string);
}.

Inductive AlertType := price_surge | price_drop | volume_spike | new_token.

Inductive Severity := low | medium | high.

Record Alert := {
  type : AlertType;
  symbol : string;
  message : string;
  value : Double.number;
  threshold : Q;
  timestamp : Date;
  severity : Severity;
}.

Record AlertState := {
  lastPrices : gmap string Q;
  lastVolumes : gmap string Q;
  lastCheck : Date;
  knownTokens : gset string;
}.

#[global] Instance AlertType_eq_dec : EqDecision AlertType.
Proof. solve_decision. Defined.

(** The module-level [state] at load time, and what [resetAlertState()]
    assigns. *)
Definition resetAlertState (now : Date) : AlertState :=
  {| lastPrices := ∅; lastVolumes := ∅; lastCheck := now; knownTokens := ∅ |}.

(** [a ?? b]. *)
Definition orDefault {A : Type} (a : option A) (b : A) : A :=
  match a with Some x => x | None => b end.

(** The [alertConfig] that [checkAlerts(config?)] assembles. *)
Definition resolveConfig (defaultConfig : Config.SmairaConfig)
    (config : option PartialAlertConfig) : AlertConfig :=
  {| priceChangeThreshold :=
       orDefault (config ≫= optPriceChangeThreshold)
         (Config.priceChangeThreshold (Config.alerts defaultConfig));
     volumeSpikeThreshold :=
       orDefault (config ≫= optVolumeSpikeThreshold)
         (Config.volumeSpikeThreshold (Config.alerts defaultConfig));
     watchlist :=
       Some (orDefault (config ≫= optWatchlist) (Config.watchlist defaultConfig)) |}.

(** The guard of the [continue]:
    [alertConfig.watchlist?.length && !alertConfig.watchlist.includes(token.symbol.toUpperCase())]. *)
Definition skipped (alertConfig : AlertConfig) (token : TokenMarketData) : bool :=
  match watchlist alertConfig with
  | None => false
  | Some wl =>
      negb (Nat.eqb (length wl) 0)
      && negb (Str.includes wl (Str.toUpperCase (Markets.symbol token)))
  end.

(** "Check price change": what the first [if] pushes. *)
Definition priceAlert (alertConfig : AlertConfig) (now : Date)
    (token : TokenMarketData) : list Alert :=
  if Num.geb (Qabs (priceChange24h token)) (priceChangeThreshold alertConfig) then
    let isUp := Num.gtb (priceChange24h token) 0 in
    [ {| type := if isUp then price_surge else price_drop;
         symbol := Markets.symbol token;
         message :=
           Markets.symbol token +:+ " " +:+ (if isUp then "surged" else "dropped")
           +:+ " " +:+ Num.toFixed (Qabs (priceChange24h token)) 2 +:+ "% in 24h";
         value := Double.Finite (priceChange24h token);
         threshold := priceChangeThreshold alertConfig;
         timestamp := now;
         severity :=
           if Num.gtb (Qabs (priceChange24h token)) 20 then high
           else if Num.gtb (Qabs (priceChange24h token)) 10 then medium
           else low |} ]
  else [].

(** "Check volume spike": what the second [if] pushes.  [lastVolume] is
    [undefined] ([None]) for an address the map does not hold. *)
Definition volumeAlert (alertConfig : AlertConfig) (now : Date)
    (state : AlertState) (token : TokenMarketData) : list Alert :=
  match lastVolumes state !! address token with
  | Some lastVolume =>
      if Num.truthy lastVolume && Num.gtb lastVolume 0 then
        let volumeChange :=
          Double.mul
            (Double.div
               (Double.sub (Double.Finite (volume24h token)) (Double.Finite lastVolume))
               (Double.Finite lastVolume))
            (Double.Finite 100) in
        if Double.ge volumeChange (Double.Finite (volumeSpikeThreshold alertConfig)) then
          [ {| type := volume_spike;
               symbol := Markets.symbol token;
               message :=
                 Markets.symbol token +:+ " volume spiked "
                 +:+ Double.toFixed volumeChange 0 +:+ "%";
               value := volumeChange;
               threshold := volumeSpikeThreshold alertConfig;
               timestamp := now;
               severity :=
                 if Double.gt volumeChange (Double.Finite 500) then high
                 else if Double.gt volumeChange (Double.Finite 300) then medium
                 else low |} ]
        else []
      else []
  | None => []
  end.

(** "Check for new tokens": what the third [if] pushes. *)
Definition newTokenAlert (now : Date) (state : AlertState)
    (token : TokenMarketData) : list Alert :=
  if negb (bool_decide (address token ∈ knownTokens state)) && verified token then
    [ {| type := new_token;
         symbol := Markets.symbol token;
         message :=
           "New verified token: " +:+ Markets.symbol token
           +:+ " (" +:+ name token +:+ ")";
         value := Double.Finite 0;
         threshold := 0;
         timestamp := now;
         severity := medium |} ]
  else [].

(** The alerts one iteration pushes, in push order. *)
Definition tokenAlerts (alertConfig : AlertConfig) (now : Date)
    (state : AlertState) (token : TokenMarketData) : list Alert :=
  priceAlert alertConfig now token
  ++ volumeAlert alertConfig now state token
  ++ newTokenAlert now state token.

(** "Update state": the three writes that end an iteration. *)
Definition updateState (state : AlertState) (token : TokenMarketData) : AlertState :=
  {| lastPrices := <[address token := priceUsd token]> (lastPrices state);
     lastVolumes := <[address token := volume24h token]> (lastVolumes state);
     lastCheck := lastCheck state;
     knownTokens := {[address token]} ∪ knownTokens state |}.

(** One iteration of [for (const token of tokens)] on the pair of the
    [alerts] array and the module-level [state]. *)
Definition checkToken (alertConfig : AlertConfig) (now : Date)
    (acc : list Alert * AlertState) (token : TokenMarketData)
    : list Alert * AlertState :=
  if skipped alertConfig token then acc
  else (fst acc ++ tokenAlerts alertConfig now (snd acc) token,
        updateState (snd acc) token).

(** The whole loop, from an [alerts] array and a state. *)
Definition checkLoop (alertConfig : AlertConfig) (now : Date)
    (tokens : list TokenMarketData) (acc : list Alert * AlertState)
    : list Alert * AlertState :=
  fold_left (checkToken alertConfig now) tokens acc.

(** [state.lastCheck = new Date()]. *)
Definition setLastCheck (now : Date) (state : AlertState) : AlertState :=
  {| lastPrices := lastPrices state;
     lastVolumes := lastVolumes state;
     lastCheck := now;
     knownTokens := knownTokens state |}.

(** [checkAlerts(config?)]: the returned alerts and the module-level
    [state] the call leaves behind. *)
Definition checkAlerts (defaultConfig : Config.SmairaConfig)
    (config : option PartialAlertConfig) (tokens : list TokenMarketData)
    (now : Date) (state : AlertState) : list Alert * AlertState :=
  let alertConfig := resolveConfig defaultConfig config in
  let r := checkLoop alertConfig now tokens ([], state) in
  (fst r, setLastCheck now (snd r)).

(** *** formatAlerts *)

(** [Record<string, Alert[]>] indexed by the alert types: [None] is a key
    that was never assigned. *)
Definition ByType := AlertType -> option (list Alert).

(** [if (!byType[alert.type]) byType[alert.type] = []; byType[alert.type].push(alert)]. *)
Definition pushByType (byType : ByType) (alert : Alert) : ByType :=
  let cur := orDefault (byType (type alert)) [] in
  fun ty => if decide (ty = type alert) then Some (cur ++ [alert]) else byType ty.

Definition groupByType (alerts : list Alert) : ByType :=
  fold_left pushByType alerts (fun _ => None).

(** [byType.k?.length] as a condition. *)
Definition hasLength (g : option (list Alert)) : bool :=
  match g with
  | Some l => negb (Nat.eqb (length l) 0)
  | None => false
  end.

Definition title (ty : AlertType) : string :=
  match ty with
  | price_surge => "## 📈 Price Surges"
  | price_drop => "## 📉 Price Drops"
  | volume_spike => "## 📊 Volume Spikes"
  | new_token => "## 🆕 New Tokens"
  end.

Definition bullet (ty : AlertType) (a : Alert) : string :=
  match ty with
  | price_surge => "- **" +:+ symbol a +:+ "**: +" +:+ Double.toFixed (value a) 2 +:+ "%"
  | price_drop => "- **" +:+ symbol a +:+ "**: " +:+ Double.toFixed (value a) 2 +:+ "%"
  | volume_spike => "- **" +:+ symbol a +:+ "**: +" +:+ Double.toFixed (value a) 0 +:+ "% volume"
  | new_token => "- " +:+ message a
  end.

(** One [if (byType.k?.length) { ... }] block: the lines it pushes. *)
Definition pushSection (byType : ByType) (ty : AlertType) : list string :=
  if hasLength (byType ty) then
    [title ty] ++ map (bullet ty) (orDefault (byType ty) []) ++ [""]
  else [].

(** The [lines] array at the [return] of the non-empty case;
    [generated] is [new Date().toISOString()]. *)
Definition alertLines (alerts : list Alert) (generated : string) : list string :=
  let lines := ["# 🚨 Smaira Alerts"; ""; "Generated: " +:+ generated; ""] in
  let byType := groupByType alerts in
  lines
  ++ pushSection byType price_surge
  ++ pushSection byType price_drop
  ++ pushSection byType volume_spike
  ++ pushSection byType new_token.

Definition newline : string := String (ascii_of_nat 10) EmptyString.

Definition formatAlerts (alerts : list Alert) (generated : string) : string :=
  if Nat.eqb (length alerts) 0 then "No active alerts."
  else Str.join newline (alertLines alerts generated).

End Alerts.

(** ** index.ts *)

Module Smaira.

(** [Smaira.getTopByVolume(count = 10)]: [None] is a call without
    argument. *)
Definition getTopByVolume (config : Config.SmairaConfig)
    (allTokens : list Markets.TokenMarketData) (now : Date) (count : option Q)
    : list Markets.TokenMarketData :=
  let snapshot := Markets.getMarketSnapshot config allTokens now in
  Arr.sliceTo (Alerts.orDefault count 10) (Markets.topByVolume snapshot).

End Smaira.

(** ** cron/scheduler.ts *)

Module Scheduler.

(** A [CronJob] without its [task] closure: the timer runs the closure, and
    what the run did is an input of [onTick]. *)
Record CronJob := {
  name : string;
  schedule : string;
  enabled : bool;
}.

(** A [ScheduledTask] of node-cron: its expression and whether its timer is
    armed. *)
Record ScheduledTask := {
  expression : string;
  running : bool;
}.

Record JobStatus := {
  lastRun : option Date;
  lastError : option string;
}.

(** The module-level state: the task objects created so far (a task is
    identified by its position), the [scheduledTasks] map from job names to
    tasks, and the [jobStatus] map. *)
Record State := {
  tasks : list ScheduledTask;
  scheduledTasks : gmap string nat;
  jobStatus : gmap string JobStatus;
}.

Definition initial : State :=
  {| tasks := []; scheduledTasks := ∅; jobStatus := ∅ |}.

(** [task.stop()] on the task object at position [i]. *)
Definition stopTask (i : nat) (ts : list ScheduledTask) : list ScheduledTask :=
  alter (fun t => {| expression := expression t; running := false |}) i ts.

(** The three cron expressions of the configuration. *)
Record CronConfig := {
  snapshotInterval : string;
  reportInterval : string;
  alertCheckInterval : string;
}.

(** [getDefaultJobs()]. *)
Definition getDefaultJobs (cron : CronConfig) : list CronJob :=
  [ {| name := "market-snapshot"; schedule := snapshotInterval cron; enabled := true |};
    {| name := "daily-report"; schedule := reportInterval cron; enabled := true |};
    {| name := "alert-check"; schedule := alertCheckInterval cron; enabled := true |} ].

(** [scheduleJob(job)]: the state it leaves and the message of the error it
    throws, if any.  [validate] is [cron.validate]. *)
Definition scheduleJob (validate : string -> bool) (job : CronJob) (s : State)
    : State * option string :=
  let stopped :=
    match scheduledTasks s !! name job with
    | Some old => stopTask old (tasks s)
    | None => tasks s
    end in
  if negb (validate (schedule job)) then
    ({| tasks := stopped; scheduledTasks := scheduledTasks s;
        jobStatus := jobStatus s |},
     Some ("Invalid cron expression: " +:+ schedule job))
  else
    ({| tasks := stopped ++ [ {| expression := schedule job; running := enabled job |} ];
        scheduledTasks := <[name job := length stopped]> (scheduledTasks s);
        jobStatus := jobStatus s |},
     None).

(** The callback [scheduleJob] hands to the timer, after [job.task()] has
    returned ([None]) or thrown the message [Some msg]. *)
Definition onTick (job : CronJob) (outcome : option string) (now : Date)
    (s : State) : State :=
  {| tasks := tasks s; scheduledTasks := scheduledTasks s;
     jobStatus := <[name job := {| lastRun := Some now; lastError := outcome |}]>
                    (jobStatus s) |}.

(** The loop of [startScheduler()]: it ends at the first job whose
    [scheduleJob] throws. *)
Fixpoint scheduleAll (validate : string -> bool) (jobs : list CronJob) (s : State)
    : State * option string :=
  match jobs with
  | [] => (s, None)
  | job :: rest =>
      match scheduleJob validate job s with
      | (s', None) => scheduleAll validate rest s'
      | (s', Some err) => (s', Some err)
      end
  end.

(** [startScheduler()]. *)
Definition startScheduler (validate : string -> bool) (cron : CronConfig)
    (s : State) : State * option string :=
  scheduleAll validate (getDefaultJobs cron) s.

(** [stopScheduler()]. *)
Definition stopScheduler (s : State) : State :=
  {| tasks := foldr stopTask (tasks s) (map snd (map_to_list (scheduledTasks s)));
     scheduledTasks := ∅;
     jobStatus := jobStatus s |}.

(** [runJobNow(jobName)]: the job whose task is run, or the message of the
    error thrown. *)
Definition runJobNow (cron : CronConfig) (jobName : string) : CronJob + string :=
  match List.find (fun j => String.eqb (name j) jobName) (getDefaultJobs cron) with
  | Some job => inl job
  | None => inr ("Unknown job: " +:+ jobName)
  end.

End Scheduler.

(** ** dca/engine.ts *)

Module Dca.

Inductive Frequency := hourly | daily | weekly | monthly.

Record DCAParams := {
  sellToken : string;
  buyToken : string;
  totalAmount : Q;
  frequency : Frequency;
  duration : option Q;
}.

Inductive Recommendation :=
| HighFrequency
| LowAmount
| Reasonable (f : Frequency) (amount : Q) (sell buy : string).

(** [DCAAnalysis]; the recommendation text is kept as the branch that wrote
    it and the values it interpolates. *)
Record DCAAnalysis := {
  params : DCAParams;
  amountPerCycle : Double.number;
  numberOfCycles : Double.number;
  estimatedBuyAmount : Double.number;
  currentPrice : Double.number;
  estimatedAvgPrice : Double.number;
  gasCostEstimate : Double.number;
  recommendation : Recommendation;
}.

Definition FREQUENCY_CYCLES_PER_MONTH (f : Frequency) : Q :=
  match f with
  | hourly => 720
  | daily => 30
  | weekly => 4
  | monthly => 1
  end.

(** [TOKEN_ADDRESSES] of utils/config.ts: the address and the decimals of a
    symbol. *)
Definition TOKEN_ADDRESSES : list (string * (string * nat)) :=
  [ ("ETH", ("0x049d36570d4e46f48e99674bd3fcc84644ddd6b96f7c741b1562b82f9e004dc7", 18%nat));
    ("STRK", ("0x04718f5a0fc34cc1af16a1cdee98ffb20c31f5cd61d6ab07201858f4287c938d", 18%nat));
    ("USDC", ("0x053c91253bc9682c04929ca02ed00b3e423f6710d2ee7e0d5ebb06f3ecf368a8", 6%nat));
    ("USDT", ("0x068f5c6a61780768455de69077e07e89787839bf8166decfbf92b645209c0fb8", 6%nat));
    ("DAI", ("0x00da114221cb83fa859dbdb4c44beeaa0bb37c7537ad5ae66fe5e0efd20e6eb3", 18%nat));
    ("WBTC", ("0x03fe2b97c1fd336e750087d68b9b867997fd64a2661ff3ca5a7c771641e8e7ac", 8%nat));
    ("LORDS", ("0x0124aeb495b947201f5fac96fd1138e326ad86195b98df6dec9009158a533b49", 18%nat));
    ("ZEND", ("0x00585c32b625999e6e5e78645ff8df7a9001cf5cf3eb6b80ccdd16cb64bd3a34", 18%nat));
    ("BROTHER", ("0x03b405a98c9e795d427fe82cdeeeed803f221b52471e3a757574a2b4180793ee", 18%nat));
    ("NSTR", ("0x04d74d2d1f9e8c7cc4f22fce00a6bda5f6c5ece0c3b5f76d6e3b5c2e8f9a1b2c3", 18%nat)) ].

(** [TOKEN_ADDRESSES[key]]. *)
Definition tokenInfo (key : string) : option (string * nat) :=
  match List.find (fun e => String.eqb (fst e) key) TOKEN_ADDRESSES with
  | Some e => Some (snd e)
  | None => None
  end.

(** A quote of the SDK: [buyAmount] in base units of the bought token, and
    [gasFees?.usd]. *)
Record Quote := {
  buyAmount : Z;
  gasFeesUsd : option Q;
}.

(** [parseFloat(formatUnits(amount, decimals))]: [formatUnits] writes
    [amount / 10^decimals] out in decimal, and [parseFloat] reads the double
    nearest to it. *)
Definition fromUnits (amount : Z) (decimals : nat) : Double.number :=
  Double.round (inject_Z amount / Num.pow10 decimals).

(** [x || d] on a number that may be [undefined]. *)
Definition orNumber (x : option Q) (d : Double.number) : Double.number :=
  match x with
  | Some v => if Num.truthy v then Double.Finite v else d
  | None => d
  end.

(** [analyzeDCA(params)]: the analysis, or the message of the error thrown.
    [request sell buy amount decimals] stands for
    [await getQuotes({..., sellAmount: parseUnits(amount.toString(), decimals)})]:
    the quotes the SDK answers with, or the message of the error that
    [parseUnits] or the SDK throws. *)
Definition analyzeDCA
    (request : string -> string -> Double.number -> nat -> list Quote + string)
    (p : DCAParams) : DCAAnalysis + string :=
  match tokenInfo (Str.toUpperCase (sellToken p)),
        tokenInfo (Str.toUpperCase (buyToken p)) with
  | Some sellTokenInfo, Some buyTokenInfo =>
      let cyclesPerMonth := FREQUENCY_CYCLES_PER_MONTH (frequency p) in
      let numberOfCycles :=
        orNumber (duration p)
          (Double.mul (Double.Finite cyclesPerMonth) (Double.Finite 3)) in
      let amountPerCycle := Double.div (Double.Finite (totalAmount p)) numberOfCycles in
      match request (fst sellTokenInfo) (fst buyTokenInfo) amountPerCycle
              (snd sellTokenInfo) with
      | inr thrown => inr thrown
      | inl [] => inr "Could not get quote for DCA analysis"
      | inl (quote :: _) =>
          let buyAmountPerCycle := fromUnits (buyAmount quote) (snd buyTokenInfo) in
          let currentPrice := Double.div amountPerCycle buyAmountPerCycle in
          let estimatedTotalBuy := Double.mul buyAmountPerCycle numberOfCycles in
          let gasCostPerCycle :=
            orNumber (gasFeesUsd quote) (Double.round (5 # 100)) in
          let recommendation :=
            match frequency p with
            | hourly => HighFrequency
            | f =>
                if Double.lt amountPerCycle (Double.Finite 10) then LowAmount
                else Reasonable f (totalAmount p) (sellToken p) (buyToken p)
            end in
          inl {| params := p;
                 amountPerCycle := amountPerCycle;
                 numberOfCycles := numberOfCycles;
                 estimatedBuyAmount := estimatedTotalBuy;
                 currentPrice := currentPrice;
                 estimatedAvgPrice := currentPrice;
                 gasCostEstimate := Double.mul gasCostPerCycle numberOfCycles;
                 recommendation := recommendation |}
      end
  | _, _ =>
      inr ("Unknown token: " +:+ sellToken p +:+ " or " +:+ buyToken p)
  end.




End Dca.

(** ** frontend/app.js: the watchlist of the dashboard *)

Module Frontend.

(** [addToWatchlist(symbol)], as the new value of the [watchlist]
    variable. *)
Definition addToWatchlist (symbol : string) (watchlist : list string)
    : list string :=
  let symbol := Str.toUpperCase symbol in
  if negb (Str.includes watchlist symbol) then watchlist ++ [symbol]
  else watchlist.

(** [removeFromWatchlist(symbol)], as the new value of the [watchlist]
    variable. *)
Definition removeFromWatchlist (symbol : string) (watchlist : list string)
    : list string :=
  let symbol := Str.toUpperCase symbol in
  List.filter (fun s => negb (String.eqb s symbol)) watchlist.

(** The [watchlistTokens] that [renderWatchlist] draws; [symbolOf] reads
    the [symbol] field of an entry of [marketData]. *)
Definition watchlistTokens {A : Type} (symbolOf : A -> string)
    (marketData : list A) (watchlist : list string) : list A :=
  List.filter (fun t => Str.includes watchlist (Str.toUpperCase (symbolOf t)))
    marketData.

End Frontend.

(** * Vocabulary of the specification *)

(** [a] may come before [b] in descending order of [key]. *)
Definition descending {A : Type} (key : A -> Q) (a b : A) : Prop := key b <= key a.

(** The sum of [volume24h] over the records with [volume24h > 0], as a real
    number. *)
Fixpoint exactVolumeSum (records : list Markets.TokenMarketData) : Q :=
  match records with
  | [] => 0
  | t :: rest =>
      if Qlt_le_dec 0 (Markets.volume24h t)
      then Markets.volume24h t + exactVolumeSum rest
      else exactVolumeSum rest
  end.

(** The same sum accumulated in doubles, record by record in batch order;
    [sum] is the sum so far. *)
Fixpoint positiveVolumeSumFrom (sum : Double.number)
    (records : list Markets.TokenMarketData) : Double.number :=
  match records with
  | [] => sum
  | t :: rest =>
      if Qlt_le_dec 0 (Markets.volume24h t)
      then positiveVolumeSumFrom
             (Double.add sum (Double.Finite (Markets.volume24h t))) rest
      else positiveVolumeSumFrom sum rest
  end.

Definition positiveVolumeSum (records : list Markets.TokenMarketData)
    : Double.number :=
  positiveVolumeSumFrom (Double.Finite 0) records.

(** The volumes are whole numbers, none below 0. *)
Definition wholeVolumes (records : list Markets.TokenMarketData) : Prop :=
  Forall (fun t => exists n : Z, (0 <= n)%Z /\ Markets.volume24h t = inject_Z n)
    records.

(** The total as the specification words it: the sum of the positive
    volumes. *)
Definition totalVolumeAsStated (config : Config.SmairaConfig)
    (tokens : list Markets.TokenMarketData) (now : Date) : Prop :=
  exists total,
    Markets.totalVolume24h (Markets.getMarketSnapshot config tokens now)
    = Double.Finite total
    /\ total == exactVolumeSum tokens.

(** [t] is the first record of the batch whose uppercased symbol is the
    uppercased query. *)
Definition firstMatch (tokens : list Markets.TokenMarketData) (sym : string)
    (t : Markets.TokenMarketData) : Prop :=
  exists pre post,
    tokens = pre ++ t :: post
    /\ Str.toUpperCase (Markets.symbol t) = Str.toUpperCase sym
    /\ forall u, In u pre -> Str.toUpperCase (Markets.symbol u) <> Str.toUpperCase sym.

(** No record of the batch has the queried symbol, case ignored. *)
Definition noMatch (tokens : list Markets.TokenMarketData) (sym : string) : Prop :=
  forall u, In u tokens -> Str.toUpperCase (Markets.symbol u) <> Str.toUpperCase sym.

(** Watchlist membership as the specification words it: the uppercased
    symbol against the uppercased configured entries. *)
Definition watchlistCaseInsensitive (config : Config.SmairaConfig)
    (tokens : list Markets.TokenMarketData) (now : Date) : Prop :=
  forall t,
    In t (Markets.watchlist (Markets.getMarketSnapshot config tokens now))
    <-> In t tokens
        /\ exists w, In w (Config.watchlist config)
                     /\ Str.toUpperCase (Markets.symbol t) = Str.toUpperCase w.

(** The record passes the watchlist gate of the detection loop. *)
Definition watched (alertConfig : Alerts.AlertConfig)
    (token : Markets.TokenMarketData) : Prop :=
  Alerts.skipped alertConfig token = false.

(** The records of the batch that the loop processes, in order. *)
Definition processed (alertConfig : Alerts.AlertConfig)
    (tokens : list Markets.TokenMarketData) : list Markets.TokenMarketData :=
  List.filter (fun t => negb (Alerts.skipped alertConfig t)) tokens.

(** The detector state when the loop, started in [state], has gone through
    the records [pre]. *)
Definition stateBefore (alertConfig : Alerts.AlertConfig) (now : Date)
    (state : Alerts.AlertState) (pre : list Markets.TokenMarketData)
    : Alerts.AlertState :=
  snd (Alerts.checkLoop alertConfig now pre ([], state)).

(** The alerts pushed in the iteration for [token], the record that follows
    [pre] in the batch. *)
Definition emittedFor (alertConfig : Alerts.AlertConfig) (now : Date)
    (state : Alerts.AlertState) (pre : list Markets.TokenMarketData)
    (token : Markets.TokenMarketData) : list Alerts.Alert :=
  fst (Alerts.checkToken alertConfig now
         ([], stateBefore alertConfig now state pre) token).

(** The alerts of one type, in order. *)
Definition ofType (ty : Alerts.AlertType) (alerts : list Alerts.Alert)
    : list Alerts.Alert :=
  List.filter (fun a => bool_decide (Alerts.type a = ty)) alerts.

(** The batch invariant of the data model: addresses are pairwise
    distinct. *)
Definition distinctAddresses (tokens : list Markets.TokenMarketData) : Prop :=
  List.NoDup (map Markets.address tokens).

(** Two states that hold the same last price and volume for an address and
    agree on whether it is known. *)
Definition agreeAt (s1 s2 : Alerts.AlertState) (a : string) : Prop :=
  Alerts.lastPrices s1 !! a = Alerts.lastPrices s2 !! a
  /\ Alerts.lastVolumes s1 !! a = Alerts.lastVolumes s2 !! a
  /\ (a ∈ Alerts.knownTokens s1 <-> a ∈ Alerts.knownTokens s2).

(** A price alert: [price_surge] or [price_drop]. *)
Definition isPriceAlert (a : Alerts.Alert) : Prop :=
  Alerts.type a = Alerts.price_surge \/ Alerts.type a = Alerts.price_drop.

(** The volume change, in percent, from [prev] to the record's volume:
    [(volume24h - prev) / prev * 100], each operation rounded. *)
Definition volumeChangeFrom (prev : Q) (token : Markets.TokenMarketData)
    : Double.number :=
  Double.mul
    (Double.div
       (Double.sub (Double.Finite (Markets.volume24h token)) (Double.Finite prev))
       (Double.Finite prev))
    (Double.Finite 100).

(** The price rule as the specification words it, for the record [token]
    that follows [pre] in the batch: a price alert is emitted iff
    [abs(priceChange24h) >= priceChangeThreshold]. *)
Definition priceRuleAsStated (alertConfig : Alerts.AlertConfig) (now : Date)
    (state : Alerts.AlertState) (pre : list Markets.TokenMarketData)
    (token : Markets.TokenMarketData) : Prop :=
  (exists a, In a (emittedFor alertConfig now state pre token) /\ isPriceAlert a)
  <-> Alerts.priceChangeThreshold alertConfig <= Qabs (Markets.priceChange24h token).

(** The volume rule as the specification words it: no [volume_spike]
    without a prior volume above 0 in the incoming state, and with such a
    [prev] a [volume_spike] iff the change reaches the threshold, carrying
    the change as its value. *)
Definition volumeRuleAsStated (alertConfig : Alerts.AlertConfig) (now : Date)
    (state : Alerts.AlertState) (pre : list Markets.TokenMarketData)
    (token : Markets.TokenMarketData) : Prop :=
  let spikes := ofType Alerts.volume_spike (emittedFor alertConfig now state pre token) in
  (spikes <> [] ->
     exists prev, Alerts.lastVolumes state !! Markets.address token = Some prev
                  /\ 0 < prev)
  /\ (forall prev,
        Alerts.lastVolumes state !! Markets.address token = Some prev -> 0 < prev ->
        (spikes <> []
         <-> Double.ge (volumeChangeFrom prev token)
               (Double.Finite (Alerts.volumeSpikeThreshold alertConfig)) = true)
        /\ Forall (fun a => Alerts.value a = volumeChangeFrom prev token) spikes).

(** Scenario B as the specification words it: a prior volume of 1000000 for
    the record's address, a volume of 4000000 and a spike threshold of 200
    give exactly one [volume_spike], of value 300 and severity [low]. *)
Definition scenarioBAsStated (alertConfig : Alerts.AlertConfig) (now : Date)
    (state : Alerts.AlertState) (pre : list Markets.TokenMarketData)
    (token : Markets.TokenMarketData) : Prop :=
  Alerts.lastVolumes state !! Markets.address token = Some 1000000 ->
  Markets.volume24h token == 4000000 ->
  Alerts.volumeSpikeThreshold alertConfig == 200 ->
  exists a,
    ofType Alerts.volume_spike (emittedFor alertConfig now state pre token) = [a]
    /\ Alerts.value a = Double.Finite 300
    /\ Alerts.severity a = Alerts.low.

(** The new-token rule as the specification words it: [new_token] iff the
    address is absent from the incoming [knownTokens] and the record is
    verified. *)
Definition newTokenRuleAsStated (alertConfig : Alerts.AlertConfig) (now : Date)
    (state : Alerts.AlertState) (pre : list Markets.TokenMarketData)
    (token : Markets.TokenMarketData) : Prop :=
  ofType Alerts.new_token (emittedFor alertConfig now state pre token) <> []
  <-> (Markets.address token ∉ Alerts.knownTokens state)
      /\ Markets.verified token = true.

(** The fixed display order of the alert report. *)
Definition displayOrder : list Alerts.AlertType :=
  [Alerts.price_surge; Alerts.price_drop; Alerts.volume_spike; Alerts.new_token].

(** The sub-section of one alert type as the specification words it: nothing
    for an empty group, otherwise the header, one bullet per alert of the
    group in input order, and a closing blank line. *)
Definition sectionOf (ty : Alerts.AlertType) (alerts : list Alerts.Alert)
    : list string :=
  match ofType ty alerts with
  | [] => []
  | group => Alerts.title ty :: map (Alerts.bullet ty) group ++ [""]
  end.

(** The report as the specification words it: the heading lines, then the
    sub-sections in display order. *)
Definition reportLines (alerts : list Alerts.Alert) (generated : string)
    : list string :=
  ["# 🚨 Smaira Alerts"; ""; "Generated: " +:+ generated; ""]
  ++ flat_map (fun ty => sectionOf ty alerts) displayOrder.

(** A record with the fields the scenarios of the specification give; the
    remaining fields are fixed. *)
Definition record (sym addr : string) (price change volume : Q) (ver : bool)
    : Markets.TokenMarketData :=
  {| Markets.symbol := sym; Markets.name := sym; Markets.address := addr;
     Markets.priceUsd := price; Markets.marketCap := None;
     Markets.volume24h := volume; Markets.priceChange24h := change;
     Markets.liquidity := None; Markets.verified := ver;
     Markets.lastUpdated := 0%Z |}.

(** The batch of Scenario A. *)
Definition scenarioA : list Markets.TokenMarketData :=
  [ record "ETH" "0x1" 3000 (62 # 10) 1000000 false;
    record "STRK" "0x2" (1 # 2) (-3) 500000 false;
    record "USDC" "0x3" 1 0 0 false ].

(** [top] holds the largest keys of [pool]: no element of [pool] left out of
    [top] has a key above the key of an element of [top]. *)
Definition topOf {A : Type} (key : A -> Q) (pool top : list A) : Prop :=
  forall t u, In t pool -> ~ In t top -> In u top -> key t <= key u.

(** The three maps of the detector state carry the same addresses. *)
Definition coherent (state : Alerts.AlertState) : Prop :=
  dom (Alerts.lastPrices state) = Alerts.knownTokens state
  /\ dom (Alerts.lastVolumes state) = Alerts.knownTokens state.

(** [price_surge] or [price_drop], as a test. *)
Definition isPriceAlertb (a : Alerts.Alert) : bool :=
  bool_decide (Alerts.type a = Alerts.price_surge)
  || bool_decide (Alerts.type a = Alerts.price_drop).

(** The number of occurrences of a character in a text. *)
Fixpoint occurrences (c : ascii) (s : string) : nat :=
  match s with
  | EmptyString => 0
  | String d r => (if Ascii.eqb d c then 1 else 0) + occurrences c r
  end.

(** Every running task object is the one registered under some job name,
    and the registrations point to task objects, a different one for each
    name. *)
Definition noStrayTimer (s : Scheduler.State) : Prop :=
  (forall i t, Scheduler.tasks s !! i = Some t -> Scheduler.running t = true ->
               exists n, Scheduler.scheduledTasks s !! n = Some i)
  /\ (forall n i, Scheduler.scheduledTasks s !! n = Some i ->
                  (i < length (Scheduler.tasks s))%nat)
  /\ (forall n m i, Scheduler.scheduledTasks s !! n = Some i ->
                    Scheduler.scheduledTasks s !! m = Some i -> n = m).

(** [p] is the first record of [previous] that carries the address of
    [c]. *)
Definition firstAt (previous : list Markets.TokenMarketData)
    (c p : Markets.TokenMarketData) : Prop :=
  exists pre post,
    previous = pre ++ p :: post
    /\ Markets.address p = Markets.address c
    /\ forall u, In u pre -> Markets.address u <> Markets.address c.

(** The alert types that occur in a list, in display order. *)
Definition presentTypes (alerts : list Alerts.Alert) : list Alerts.AlertType :=
  List.filter (fun ty => existsb (fun a => bool_decide (Alerts.type a = ty)) alerts)
    displayOrder.

(** The change, in percent, from the price [p] to the price [c]:
    [(c - p) / p * 100], each operation rounded. *)
Definition priceChangeFrom (p c : Q) : Double.number :=
  Double.mul
    (Double.div (Double.sub (Double.Finite c) (Double.Finite p)) (Double.Finite p))
    (Double.Finite 100).

(** The entry of [comparePrices] for the current record [c] and the
    previous record [p]. *)
Definition comparison (c p : Markets.TokenMarketData) : Markets.PriceComparison :=
  {| Markets.cmpSymbol := Markets.symbol c;
     Markets.current := Markets.priceUsd c;
     Markets.previous := Markets.priceUsd p;
     Markets.change := priceChangeFrom (Markets.priceUsd p) (Markets.priceUsd c) |}.

(** [entries] holds, in the order of the current records, one entry for
    each of them whose address a previous record carries, the first such
    record having a price other than 0, and nothing for the others. *)
Inductive compared (previous : list Markets.TokenMarketData)
    : list Markets.TokenMarketData -> list Markets.PriceComparison -> Prop :=
| compared_nil : compared previous [] []
| compared_entry c p rest entries :
    firstAt previous c p -> ~ Markets.priceUsd p == 0 ->
    compared previous rest entries ->
    compared previous (c :: rest) (comparison c p :: entries)
| compared_unpriced c p rest entries :
    firstAt previous c p -> Markets.priceUsd p == 0 ->
    compared previous rest entries ->
    compared previous (c :: rest) entries
| compared_absent c rest entries :
    (forall u, In u previous -> Markets.address u <> Markets.address c) ->
    compared previous rest entries ->
    compared previous (c :: rest) entries.

(** [a] may come before [b] in descending order of the magnitude of the
    change; neither change is [NaN]. *)
Definition descendingMagnitude (a b : Markets.PriceComparison) : Prop :=
  Double.ge (Double.abs (Markets.change a)) (Double.abs (Markets.change b)) = true.


(** The number of cycles [analyzeDCA] plans when no duration is given. *)
Definition defaultCycles (f : Dca.Frequency) : Q :=
  match f with
  | Dca.hourly => 2160
  | Dca.daily => 90
  | Dca.weekly => 12
  | Dca.monthly => 3
  end.

(** A rational is on the grid of the doubles when it is a multiple of the
    smallest positive double, [2 ^ -1074]. *)
Definition onGrid (q : Q) : Prop :=
  exists k : Z, q == inject_Z k * 2 ^ (-1074).

(** A number whose finite value is on the grid. *)
Definition gridded (x : Double.number) : Prop :=
  match x with
  | Double.Finite q => onGrid q
  | _ => True
  end.

(** A primitive float of Rocq, which is a binary64 of the machine, as a
    number of the model. *)
Definition ofFloat (f : float) : Double.number :=
  match Prim2SF f with
  | S754_zero s => Double.zero s
  | S754_infinity s => Double.Infinity s
  | S754_nan => Double.NaN
  | S754_finite s m e =>
      let r := Qred (inject_Z (Zpos m) * 2 ^ e) in
      Double.Finite (if s then - r else r)
  end.

(** Doubles that the comparison with the machine runs over: zeros, small
    integers, the double nearest to [0.1], the smallest subnormals and the
    largest, the smallest and the largest normal, the integers from which
    on not every integer is a double, the infinities and [NaN]. *)
Definition samples : list float :=
  [ 0; -0; 1; -1; 3; 49; 100; 157; 0.5; 10000000000000000;
    0x1.999999999999ap-4; 0x1p-1074; 0x3p-1074; 0x0.fffffffffffffp-1022;
    0x1p-1022; 0x1.fffffffffffffp+1023; -0x1.56e1fc2f8f359p-997;
    9007199254740992; 9007199254740994; infinity; neg_infinity; nan ]%float.

(** Equality of numbers as a test, the representation of the rational
    included. *)
Definition sameNumber (x y : Double.number) : bool :=
  match x, y with
  | Double.Finite a, Double.Finite b =>
      Z.eqb (Qnum a) (Qnum b) && Pos.eqb (Qden a) (Qden b)
  | Double.NegZero, Double.NegZero => true
  | Double.Infinity s, Double.Infinity s' => Bool.eqb s s'
  | Double.NaN, Double.NaN => true
  | _, _ => false
  end.

(** The operation [g] of the model gives, on every pair of samples, what
    the operation [f] of the machine gives. *)
Definition agreesWith (f : float -> float -> float)
    (g : Double.number -> Double.number -> Double.number) : bool :=
  forallb (fun x =>
    forallb (fun y => sameNumber (g (ofFloat x) (ofFloat y)) (ofFloat (f x y)))
      samples) samples.

Definition testAgreesWith (f : float -> float -> bool)
    (g : Double.number -> Double.number -> bool) : bool :=
  forallb (fun x =>
    forallb (fun y => Bool.eqb (g (ofFloat x) (ofFloat y)) (f x y)) samples)
    samples.

(** * Properties *)

(** ** Numbers *)

Lemma ltb_true x y : Num.ltb x y = true <-> x < y.
Proof.
  unfold Num.ltb. rewrite negb_true_iff, <- not_true_iff_false, Qle_bool_iff.
  split; [apply Qnot_le_lt | apply Qlt_not_le].
Qed.

Lemma ltb_false x y : Num.ltb x y = false <-> y <= x.
Proof.
  unfold Num.ltb. rewrite negb_false_iff. apply Qle_bool_iff.
Qed.

Lemma gtb_true x y : Num.gtb x y = true <-> y < x.
Proof. apply ltb_true. Qed.

Lemma gtb_false x y : Num.gtb x y = false <-> x <= y.
Proof. apply ltb_false. Qed.

Lemma geb_true x y : Num.geb x y = true <-> y <= x.
Proof. apply Qle_bool_iff. Qed.

Lemma geb_false x y : Num.geb x y = false <-> x < y.
Proof.
  unfold Num.geb. rewrite <- not_true_iff_false, Qle_bool_iff.
  split; [apply Qnot_le_lt | apply Qlt_not_le].
Qed.

Lemma truthy_true x : Num.truthy x = true <-> ~ x == 0.
Proof.
  unfold Num.truthy. rewrite negb_true_iff, <- not_true_iff_false, Qeq_bool_iff.
  tauto.
Qed.

Lemma truthy_false x : Num.truthy x = false <-> x == 0.
Proof.
  unfold Num.truthy. rewrite negb_false_iff. apply Qeq_bool_iff.
Qed.

(** ** Rounding *)

Lemma round_compat q q' : q == q' -> Double.round q = Double.round q'.
Proof. intros H. unfold Double.round. now rewrite (Qred_complete _ _ H). Qed.

Lemma round_zero q : q == 0 -> Double.round q = Double.Finite 0.
Proof. intros H. now rewrite (round_compat _ _ H). Qed.

Lemma pow2_pos e : 0 < 2 ^ e.
Proof. now apply Qpower_0_lt. Qed.

Lemma pow2_le e e' : (e <= e')%Z -> 2 ^ e <= 2 ^ e'.
Proof. intros H. apply Qpower_le_compat_l; [exact H | discriminate]. Qed.

Lemma pow2_add e e' : 2 ^ (e + e') == 2 ^ e * 2 ^ e'.
Proof. apply Qpower_plus. discriminate. Qed.

Lemma pow2_Z n : (0 <= n)%Z -> inject_Z (2 ^ n) == 2 ^ n.
Proof. intros H. now rewrite Zpower_Qpower. Qed.

(** [ilog2 a] is not above the binary logarithm of [a]. *)
Lemma ilog2_le a : 0 < a -> 2 ^ Double.ilog2 a <= a.
Proof.
  intros Ha. unfold Double.ilog2.
  set (k := (Z.log2 (Qnum a) - Z.log2 (Zpos (Qden a)))%Z).
  destruct (Qle_bool (2 ^ k) a) eqn:E; [now apply Qle_bool_iff |].
  destruct a as [n d]. unfold Qnum, Qden in k.
  assert (Hn : (0 < n)%Z).
  { unfold Qlt in Ha. simpl in Ha. lia. }
  pose proof (Z.log2_spec n Hn) as [Hn1 _].
  pose proof (Z.log2_spec (Zpos d) (Pos2Z.is_pos d)) as [_ Hd2].
  pose proof (Z.log2_nonneg n) as Hi. pose proof (Z.log2_nonneg (Zpos d)) as Hj.
  set (i := Z.log2 n) in *. set (j := Z.log2 (Zpos d)) in *.
  assert (H1 : 2 ^ i <= inject_Z n).
  { rewrite <- pow2_Z by exact Hi. rewrite <- Zle_Qle. exact Hn1. }
  assert (H2 : inject_Z (Zpos d) <= 2 ^ (j + 1)).
  { rewrite <- pow2_Z by lia. rewrite <- Zle_Qle. unfold Z.succ in Hd2. lia. }
  replace (k - 1)%Z with (i + - (j + 1))%Z by (unfold k; lia).
  rewrite pow2_add, Qpower_opp, (Qmake_Qdiv n d).
  assert (Hpos : 0 < 2 ^ (j + 1)) by apply pow2_pos.
  apply Qle_shift_div_l; [reflexivity |].
  apply Qle_trans with (2 ^ i); [| exact H1].
  rewrite <- (Qmult_1_r (2 ^ i)) at 2. rewrite <- Qmult_assoc.
  apply Qmult_le_l; [apply pow2_pos |].
  rewrite Qmult_comm. apply Qle_shift_div_r; [exact Hpos |].
  now rewrite Qmult_1_l.
Qed.

Lemma onGrid_zero : onGrid 0.
Proof. exists 0%Z. ring. Qed.

Lemma onGrid_compat q q' : q == q' -> onGrid q -> onGrid q'.
Proof. intros H [k Hk]. exists k. now rewrite <- H. Qed.

Lemma onGrid_opp q : onGrid q -> onGrid (- q).
Proof. intros [k Hk]. exists (- k)%Z. rewrite Hk, inject_Z_opp. ring. Qed.

Lemma onGrid_abs q : onGrid q -> onGrid (Qabs q).
Proof.
  intros H. apply Qabs_case; intros _; [exact H | now apply onGrid_opp].
Qed.

Lemma onGrid_plus q q' : onGrid q -> onGrid q' -> onGrid (q + q').
Proof.
  intros [k Hk] [k' Hk']. exists (k + k')%Z. rewrite Hk, Hk', inject_Z_plus. ring.
Qed.

Lemma onGrid_scaled m e : (-1074 <= e)%Z -> onGrid (inject_Z m * 2 ^ e).
Proof.
  intros He. exists (m * 2 ^ (e + 1074))%Z.
  rewrite inject_Z_mult, pow2_Z by lia.
  replace e with ((e + 1074) + -1074)%Z at 1 by lia.
  rewrite pow2_add. ring.
Qed.

(** What [round] returns is on the grid of the doubles. *)
Lemma round_gridded q : gridded (Double.round q).
Proof.
  unfold Double.round. cbv zeta.
  destruct (Qeq_bool (Qred q) 0); [apply onGrid_zero |].
  set (e := Z.max _ _).
  match goal with |- context [inject_Z ?m0 * 2 ^ e] => set (m := m0) end.
  assert (Hg : onGrid (Qred (inject_Z m * 2 ^ e))).
  { apply (onGrid_compat (inject_Z m * 2 ^ e)); [now rewrite Qred_correct |].
    apply onGrid_scaled. unfold e. lia. }
  destruct (Qle_bool _ _); [exact I |].
  destruct (Qeq_bool _ 0).
  - destruct (Num.ltb _ _); [exact I | apply onGrid_zero].
  - simpl. destruct (Num.ltb _ _); [now apply onGrid_opp | exact Hg].
Qed.

Lemma round_not_NaN q : Double.round q <> Double.NaN.
Proof.
  unfold Double.round. cbv zeta.
  repeat match goal with |- context [if ?b then _ else _] => destruct b end;
    discriminate.
Qed.

(** A multiple of the smallest double other than 0 is not rounded to zero,
    and rounding keeps its sign: the difference of two doubles is above 0
    exactly when the first is the larger. *)
Lemma round_sign q :
  onGrid q -> Double.gt (Double.round q) (Double.Finite 0) = Num.ltb 0 q.
Proof.
  intros [k Hk]. unfold Double.round. cbv zeta.
  pose proof (Qred_correct q) as Hred.
  destruct (Qeq_bool (Qred q) 0) eqn:Ez.
  - apply Qeq_bool_iff in Ez. rewrite Hred in Ez.
    unfold Double.gt, Double.lt. simpl. symmetry. apply ltb_false.
    rewrite Ez. apply Qle_refl.
  - assert (Hnz : ~ q == 0).
    { intros H. rewrite <- Hred in H. apply Qeq_bool_iff in H. congruence. }
    set (a := Qabs (Qred q)).
    assert (Ha : 2 ^ (-1074) <= a).
    { unfold a. rewrite Hred, Hk, Qabs_Qmult.
      rewrite (Qabs_pos (2 ^ (-1074))) by apply Qlt_le_weak, pow2_pos.
      rewrite <- (Qmult_1_l (2 ^ (-1074))) at 1.
      apply Qmult_le_r; [apply pow2_pos |].
      assert (Hk0 : k <> 0%Z).
      { intros ->. apply Hnz. rewrite Hk. ring. }
      change (Qabs (inject_Z k)) with (inject_Z (Z.abs k)).
      change 1 with (inject_Z 1). rewrite <- Zle_Qle. lia. }
    set (e := Z.max (Double.ilog2 a - 52) (-1074)).
    assert (He : 2 ^ e <= a).
    { unfold e.
      destruct (Z.max_spec (Double.ilog2 a - 52) (-1074)) as [[_ ->] | [_ ->]];
        [exact Ha |].
      apply Qle_trans with (2 ^ Double.ilog2 a); [apply pow2_le; lia |].
      apply ilog2_le, Qlt_le_trans with (2 ^ (-1074)); [apply pow2_pos | exact Ha]. }
    set (x := a / 2 ^ e).
    assert (Hx : 1 <= x).
    { unfold x. apply Qle_shift_div_l; [apply pow2_pos |]. now rewrite Qmult_1_l. }
    assert (Hm : (1 <= Qfloor x)%Z).
    { change 1%Z with (Qfloor 1). now apply Qfloor_resp_le. }
    match goal with |- context [inject_Z ?m0 * 2 ^ e] => set (m := m0) end.
    assert (Hm' : (1 <= m)%Z).
    { unfold m. destruct (match _ with Lt => _ | _ => _ end); lia. }
    set (r := Qred (inject_Z m * 2 ^ e)).
    assert (Hr : 0 < r).
    { unfold r. rewrite Qred_correct.
      apply Qmult_lt_0_compat; [| apply pow2_pos].
      change 0 with (inject_Z 0). rewrite <- Zlt_Qlt. lia. }
    assert (Hsign : Num.ltb 0 q = negb (Num.ltb (Qred q) 0)).
    { destruct (Num.ltb (Qred q) 0) eqn:E.
      - apply ltb_true in E. rewrite Hred in E. apply ltb_false. lra.
      - apply ltb_false in E. rewrite Hred in E. apply ltb_true.
        destruct (Qlt_le_dec 0 q) as [H | H]; [exact H |].
        contradiction Hnz. lra. }
    rewrite Hsign.
    destruct (Qle_bool (2 ^ 1024) r).
    + destruct (Num.ltb (Qred q) 0); reflexivity.
    + destruct (Qeq_bool r 0) eqn:Er.
      * apply Qeq_bool_iff in Er. rewrite Er in Hr. discriminate Hr.
      * destruct (Num.ltb (Qred q) 0); unfold Double.gt, Double.lt; simpl.
        -- apply ltb_false. lra.
        -- now apply ltb_true.
Qed.

Lemma Qeq_bool_false q : ~ q == 0 -> Qeq_bool q 0 = false.
Proof. intros H. apply not_true_iff_false. now rewrite Qeq_bool_iff. Qed.

(** Between finite numbers a difference is the rounded real difference,
    and so are a quotient and a product of numbers other than zero. *)
Lemma sub_finite a b :
  Double.sub (Double.Finite a) (Double.Finite b) = Double.round (a - b).
Proof.
  unfold Double.sub, Double.neg. destruct (Qeq_bool b 0) eqn:E.
  - apply Qeq_bool_iff in E. unfold Double.add, Double.real.
    apply round_compat. rewrite E. ring.
  - reflexivity.
Qed.

Lemma div_finite a b :
  ~ a == 0 -> ~ b == 0 ->
  Double.div (Double.Finite a) (Double.Finite b) = Double.round (a / b).
Proof.
  intros Ha Hb. unfold Double.div, Double.isZero, Double.real.
  now rewrite (Qeq_bool_false a), (Qeq_bool_false b).
Qed.

Lemma mul_finite a b :
  ~ a == 0 -> ~ b == 0 ->
  Double.mul (Double.Finite a) (Double.Finite b) = Double.round (a * b).
Proof.
  intros Ha Hb. unfold Double.mul, Double.isZero, Double.real.
  now rewrite (Qeq_bool_false a), (Qeq_bool_false b).
Qed.

(** For two doubles the rounded difference is above 0 exactly when the real
    difference is: a comparator that subtracts two numbers of the feed
    orders them as the subtraction of [Q] does. *)
Lemma difference_sign a b :
  onGrid a -> onGrid b ->
  Double.gt (Double.sub (Double.Finite b) (Double.Finite a)) (Double.Finite 0)
  = Num.gtb (b - a) 0.
Proof.
  intros Ha Hb. rewrite sub_finite. apply round_sign.
  apply onGrid_plus; [exact Hb | now apply onGrid_opp].
Qed.

(** ** The order of the numbers *)

Ltac number_cases :=
  repeat match goal with
         | x : Double.number |- _ => destruct x as [? | | [|] |]
         end;
  unfold Double.ge, Double.gt, Double.lt, Double.real; simpl;
  try discriminate; try reflexivity; try congruence.

Lemma lt_ge x y : Double.lt x y = true -> Double.ge y x = true.
Proof.
  number_cases; rewrite negb_true_iff, ltb_true, ltb_false; intros H; lra.
Qed.

Lemma ge_of_not_lt x y :
  x <> Double.NaN -> y <> Double.NaN ->
  Double.lt x y = false -> Double.ge x y = true.
Proof. number_cases; intros _ _ ->; reflexivity. Qed.

Lemma ge_trans x y z :
  Double.ge x y = true -> Double.ge y z = true -> Double.ge x z = true.
Proof.
  number_cases; rewrite !negb_true_iff, !ltb_false; intros H1 H2; lra.
Qed.

Lemma zero_gridded s : gridded (Double.zero s).
Proof. destruct s; [exact I | apply onGrid_zero]. Qed.

Lemma mul_gridded x y : gridded (Double.mul x y).
Proof.
  unfold Double.mul.
  destruct x, y; try exact I;
    repeat match goal with |- context [if ?b then _ else _] => destruct b end;
    try exact I; try apply zero_gridded; apply round_gridded.
Qed.

Lemma zero_not_NaN s : Double.zero s <> Double.NaN.
Proof. destruct s; discriminate. Qed.

Lemma div_not_NaN x q :
  x <> Double.NaN -> ~ q == 0 -> Double.div x (Double.Finite q) <> Double.NaN.
Proof.
  intros Hx Hq.
  assert (Ez : Double.isZero (Double.Finite q) = false) by now apply Qeq_bool_false.
  unfold Double.div. rewrite Ez. clear Ez.
  destruct x; try discriminate; try (now contradiction Hx);
    try (destruct (Double.isZero _));
    try apply zero_not_NaN; try apply round_not_NaN.
Qed.

Lemma mul_not_NaN x q :
  x <> Double.NaN -> ~ q == 0 -> Double.mul x (Double.Finite q) <> Double.NaN.
Proof.
  intros Hx Hq. unfold Double.mul.
  assert (Ez : Double.isZero (Double.Finite q) = false) by now apply Qeq_bool_false.
  rewrite Ez, orb_false_r. clear Ez.
  destruct x; try discriminate; try (now contradiction Hx);
    try (destruct (Double.isZero _));
    try apply zero_not_NaN; try apply round_not_NaN; discriminate.
Qed.

Lemma isZero_zero s : Double.isZero (Double.zero s) = true.
Proof. now destruct s. Qed.

(** A zero times a finite number is a zero, and so is zero divided by a
    number other than zero. *)
Lemma mul_zero_l x q :
  Double.isZero x = true -> Double.isZero (Double.mul x (Double.Finite q)) = true.
Proof.
  intros Hx. unfold Double.mul. rewrite Hx.
  destruct x; try discriminate Hx; apply isZero_zero.
Qed.

Lemma div_zero_l q :
  ~ q == 0 ->
  Double.isZero (Double.div (Double.Finite 0) (Double.Finite q)) = true.
Proof.
  intros Hq. unfold Double.div, Double.isZero at 2 3.
  rewrite (Qeq_bool_false q Hq). apply isZero_zero.
Qed.

Lemma abs_not_NaN x : x <> Double.NaN -> Double.abs x <> Double.NaN.
Proof. destruct x; try discriminate. intros H. now contradiction H. Qed.

(** The sign of the difference of two magnitudes: [|y| - |x|] is above 0
    exactly when [|x| < |y|]. *)
Lemma sub_abs_sign x y :
  gridded x -> gridded y -> x <> Double.NaN -> y <> Double.NaN ->
  Double.gt (Double.sub (Double.abs y) (Double.abs x)) (Double.Finite 0)
  = Double.lt (Double.abs x) (Double.abs y).
Proof.
  assert (Hfinite : forall a b, onGrid a -> onGrid b ->
    Double.gt (Double.sub (Double.Finite b) (Double.Finite a)) (Double.Finite 0)
    = Double.lt (Double.Finite a) (Double.Finite b)).
  { intros a b Ha Hb. rewrite sub_finite, round_sign.
    - unfold Double.lt, Double.real.
      destruct (Num.ltb a b) eqn:E.
      + apply ltb_true in E. apply ltb_true. lra.
      + apply ltb_false in E. apply ltb_false. lra.
    - apply onGrid_plus; [exact Hb | now apply onGrid_opp]. }
  assert (Hinf : forall a,
    Double.sub (Double.Infinity false) (Double.Finite a) = Double.Infinity false).
  { intros a. unfold Double.sub, Double.neg. now destruct (Qeq_bool a 0). }
  intros Hx Hy Hnx Hny.
  destruct x as [a | | sa |], y as [b | | sb |];
    try (now contradiction Hnx); try (now contradiction Hny);
    unfold Double.abs;
    try (apply Hfinite; try apply onGrid_abs; try apply onGrid_zero; assumption);
    try (rewrite Hinf; reflexivity);
    reflexivity.
Qed.

(** The operations of the model against those of the machine, on every pair
    of sample doubles. *)
Example add_as_the_machine : agreesWith PrimFloat.add Double.add = true.
Proof. vm_compute. reflexivity. Qed.

Example sub_as_the_machine : agreesWith PrimFloat.sub Double.sub = true.
Proof. vm_compute. reflexivity. Qed.

Example mul_as_the_machine : agreesWith PrimFloat.mul Double.mul = true.
Proof. vm_compute. reflexivity. Qed.

Example div_as_the_machine : agreesWith PrimFloat.div Double.div = true.
Proof. vm_compute. reflexivity. Qed.

Example lt_as_the_machine : testAgreesWith PrimFloat.ltb Double.lt = true.
Proof. vm_compute. reflexivity. Qed.

Example ge_as_the_machine :
  testAgreesWith (fun x y => PrimFloat.leb y x) Double.ge = true.
Proof. vm_compute. reflexivity. Qed.

Example abs_as_the_machine :
  forallb (fun x => sameNumber (Double.abs (ofFloat x)) (ofFloat (PrimFloat.abs x)))
    samples = true.
Proof. vm_compute. reflexivity. Qed.

(** ** Arrays: [sort] and [slice] *)

Section SortFacts.
Context {A : Type}.
Variable compareFn : A -> A -> Q.

Lemma insert_perm x l : Permutation (Arr.insert compareFn x l) (x :: l).
Proof.
  induction l as [| y l IH]; simpl; [reflexivity |].
  destruct (Num.gtb (compareFn x y) 0); [| reflexivity].
  rewrite IH. apply perm_swap.
Qed.

Lemma sort_perm l : Permutation (Arr.sort compareFn l) l.
Proof.
  induction l as [| x l IH]; [reflexivity |].
  change (Arr.sort compareFn (x :: l))
    with (Arr.insert compareFn x (Arr.sort compareFn l)).
  rewrite insert_perm. now apply perm_skip.
Qed.

Lemma sort_In l x : In x (Arr.sort compareFn l) <-> In x l.
Proof.
  split; apply Permutation_in; [| symmetry]; apply sort_perm.
Qed.

(** A comparator that subtracts keys, [key b - key a], sorts by
    descending key. *)
Variable key : A -> Q.
Hypothesis compare_key : forall a b, compareFn a b == key b - key a.


Lemma insert_sorted x l :
  StronglySorted (descending key) l ->
  StronglySorted (descending key) (Arr.insert compareFn x l).
Proof.
  induction 1 as [| y l Hl IH Hy]; simpl.
  - repeat constructor.
  - destruct (Num.gtb (compareFn x y) 0) eqn:E.
    + apply gtb_true in E. rewrite compare_key in E.
      constructor; [exact IH |].
      rewrite List.Forall_forall. intros z Hz.
      apply (Permutation_in _ (insert_perm x l)) in Hz.
      destruct Hz as [<- | Hz].
      * unfold descending. lra.
      * rewrite List.Forall_forall in Hy. now apply Hy.
    + apply gtb_false in E. rewrite compare_key in E.
      assert (Hxy : descending key x y).
      { unfold descending. lra. }
      constructor; [now constructor |].
      constructor; [exact Hxy |].
      rewrite List.Forall_forall in Hy |- *. intros z Hz.
      specialize (Hy z Hz). unfold descending in *. lra.
Qed.

Lemma sort_sorted l : StronglySorted (descending key) (Arr.sort compareFn l).
Proof.
  induction l as [| x l IH]; [constructor |].
  change (Arr.sort compareFn (x :: l))
    with (Arr.insert compareFn x (Arr.sort compareFn l)).
  now apply insert_sorted.
Qed.
End SortFacts.

Lemma slice0_In {A} n (l : list A) x : In x (Arr.slice0 n l) -> In x l.
Proof.
  unfold Arr.slice0. intros H.
  rewrite <- (firstn_skipn n l). apply in_or_app. now left.
Qed.

Lemma slice0_length {A} n (l : list A) : (length (Arr.slice0 n l) <= n)%nat.
Proof. unfold Arr.slice0. rewrite length_firstn. lia. Qed.

Lemma slice0_sorted {A} (R : A -> A -> Prop) n l :
  StronglySorted R l -> StronglySorted R (Arr.slice0 n l).
Proof.
  unfold Arr.slice0. intros H. revert n.
  induction H as [| x l Hl IH Hx]; intros [| n]; simpl; try constructor.
  - apply IH.
  - rewrite List.Forall_forall in Hx |- *. intros y Hy. apply Hx.
    rewrite <- (firstn_skipn n l). apply in_or_app. now left.
Qed.

(** ** Snapshot aggregation *)

(** The [reduce] over the active records adds up, from [sum], the volumes
    above 0 in batch order. *)
Lemma fold_sum_active (l : list Markets.TokenMarketData) (sum : Double.number) :
  fold_left (fun sum t => Double.add sum (Double.Finite (Markets.volume24h t)))
    (Markets.activeTokens l) sum
  = positiveVolumeSumFrom sum l.
Proof.
  revert sum. induction l as [| t l IH]; intros sum; simpl; [reflexivity |].
  destruct (Qlt_le_dec 0 (Markets.volume24h t)) as [Hpos | Hle].
  - apply gtb_true in Hpos. rewrite Hpos. simpl. apply IH.
  - apply gtb_false in Hle. rewrite Hle. apply IH.
Qed.

Lemma Qred_integer (n : Z) : Qred (inject_Z n) = inject_Z n.
Proof.
  unfold Qred, inject_Z.
  pose proof (Z.ggcd_gcd n 1) as Hg.
  pose proof (Z.ggcd_correct_divisors n 1) as Hd.
  destruct (Z.ggcd n 1) as [g [aa bb]]. simpl in Hg, Hd |- *.
  rewrite Z.gcd_1_r in Hg. subst g. destruct Hd as [Ha Hb].
  replace aa with n by lia. replace bb with 1%Z by lia. reflexivity.
Qed.

(** An integer up to [2 ^ 53] is a double. *)
Lemma round_integer (n : Z) :
  (0 <= n <= 2 ^ 53)%Z -> Double.round (inject_Z n) = Double.Finite (inject_Z n).
Proof.
  intros [Hn0 Hn53].
  destruct (Z.eq_dec n 0%Z) as [-> | Hnz]; [reflexivity |].
  assert (Hpos : 0 < inject_Z n).
  { change 0 with (inject_Z 0). rewrite <- Zlt_Qlt. lia. }
  unfold Double.round. cbv zeta.
  rewrite Qred_integer.
  assert (Ez : Qeq_bool (inject_Z n) 0 = false).
  { apply not_true_iff_false. rewrite Qeq_bool_iff. lra. }
  rewrite Ez, (proj2 (ltb_false (inject_Z n) 0)) by lra.
  change (Qabs (inject_Z n)) with (inject_Z (Z.abs n)).
  rewrite Z.abs_eq by exact Hn0.
  set (E := Double.ilog2 (inject_Z n)).
  pose proof (ilog2_le _ Hpos) as HE. fold E in HE.
  assert (HE53 : (E <= 53)%Z).
  { apply (Qpower_le_compat_l_inv 2); [| reflexivity].
    apply Qle_trans with (inject_Z n); [exact HE |].
    rewrite <- pow2_Z by lia. rewrite <- Zle_Qle. exact Hn53. }
  set (e := Z.max (E - 52) (-1074)).
  assert (He : (-1074 <= e <= 1)%Z) by (unfold e; lia).
  assert (Hx : exists k : Z, inject_Z n / 2 ^ e == inject_Z k).
  { destruct (Z.le_gt_cases e 0) as [Hneg | Hone].
    - exists (n * 2 ^ (- e))%Z.
      rewrite inject_Z_mult, pow2_Z, Qpower_opp by lia. reflexivity.
    - assert (He1 : e = 1%Z) by lia.
      assert (HE' : E = 53%Z) by (unfold e in He1; lia).
      assert (Hn : n = (2 ^ 53)%Z).
      { apply Z.le_antisymm; [exact Hn53 |].
        rewrite Zle_Qle, pow2_Z by lia. now rewrite <- HE'. }
      exists (2 ^ 52)%Z. rewrite Hn, He1. reflexivity. }
  destruct Hx as [k Hk].
  assert (Hfloor : Qfloor (inject_Z n / 2 ^ e) = k).
  { rewrite Hk. apply Qfloor_Z. }
  rewrite Hfloor.
  assert (Hlt : Qcompare (inject_Z n / 2 ^ e - inject_Z k) (1 # 2) = Lt).
  { apply (proj1 (Qlt_alt _ _)).
    assert (H0 : inject_Z n / 2 ^ e - inject_Z k == 0) by (rewrite Hk; ring).
    rewrite H0. reflexivity. }
  rewrite Hlt.
  assert (Hback : Qred (inject_Z k * 2 ^ e) = inject_Z n).
  { rewrite <- (Qred_integer n). apply Qred_complete.
    rewrite <- Hk. field. apply Qnot_eq_sym, Qlt_not_eq, pow2_pos. }
  rewrite Hback.
  assert (Hsmall : Qle_bool (2 ^ 1024) (inject_Z n) = false).
  { apply not_true_iff_false. rewrite Qle_bool_iff. apply Qlt_not_le.
    apply Qle_lt_trans with (2 ^ 53).
    - rewrite <- pow2_Z by lia. now rewrite <- Zle_Qle.
    - reflexivity. }
  now rewrite Hsmall, Ez.
Qed.

Lemma exactVolumeSum_whole (l : list Markets.TokenMarketData) :
  wholeVolumes l ->
  exists n : Z, (0 <= n)%Z /\ exactVolumeSum l == inject_Z n.
Proof.
  induction 1 as [| t l (v & Hv & Et) _ (n & Hn & IH)]; simpl.
  - exists 0%Z. split; [lia | reflexivity].
  - destruct (Qlt_le_dec 0 (Markets.volume24h t)).
    + exists (v + n)%Z. split; [lia |]. rewrite Et, IH, inject_Z_plus. reflexivity.
    + exists n. now split.
Qed.

(** On whole volumes whose sum stays up to [2 ^ 53], no addition rounds. *)
Lemma positiveVolumeSumFrom_whole (l : list Markets.TokenMarketData) (s : Z) :
  wholeVolumes l -> (0 <= s)%Z ->
  inject_Z s + exactVolumeSum l <= inject_Z (2 ^ 53) ->
  exists total,
    positiveVolumeSumFrom (Double.Finite (inject_Z s)) l = Double.Finite total
    /\ total == inject_Z s + exactVolumeSum l.
Proof.
  intros Hw. revert s.
  induction Hw as [| t l (v & Hv & Et) Hw IH]; intros s Hs Hle;
    cbn [positiveVolumeSumFrom exactVolumeSum] in Hle |- *.
  - exists (inject_Z s). split; [reflexivity | ring].
  -
    destruct (exactVolumeSum_whole l Hw) as (n & Hn & En).
    destruct (Qlt_le_dec 0 (Markets.volume24h t)) as [Hpos | Hnonpos].
    + assert (Hadd : Double.add (Double.Finite (inject_Z s))
                       (Double.Finite (Markets.volume24h t))
                     = Double.Finite (inject_Z (s + v))).
      { unfold Double.add, Double.real. rewrite Et, <- inject_Z_plus.
        apply round_integer. split; [lia |].
        rewrite Et, En, <- !inject_Z_plus, <- Zle_Qle in Hle. lia. }
      rewrite Hadd.
      destruct (IH (s + v)%Z) as (total & Ht & Etotal).
      * lia.
      * rewrite inject_Z_plus, <- Et. lra.
      * exists total. split; [exact Ht |].
        rewrite Etotal, inject_Z_plus, <- Et. ring.
    + apply IH; assumption.
Qed.

Lemma activeTokens_In (l : list Markets.TokenMarketData) t :
  In t (Markets.activeTokens l) <-> In t l /\ 0 < Markets.volume24h t.
Proof.
  unfold Markets.activeTokens. rewrite filter_In, gtb_true. reflexivity.
Qed.

Lemma find_first {A} (f : A -> bool) (l : list A) (t : A) :
  List.find f l = Some t <->
  exists pre post, l = pre ++ t :: post /\ f t = true
                   /\ forall u, In u pre -> f u = false.
Proof.
  induction l as [| x l IH]; simpl.
  - split; [discriminate |]. intros ([| ? ?] & ? & H & _); discriminate H.
  - destruct (f x) eqn:E.
    + split.
      * intros [= <-]. exists [], l. repeat split; [exact E | intros ? []].
      * intros ([| y pre] & post & H & Ht & Hpre); simpl in H.
        -- now injection H as -> _.
        -- injection H as -> _. rewrite (Hpre y) in E by now left. discriminate.
    + rewrite IH. split.
      * intros (pre & post & -> & Ht & Hpre). exists (x :: pre), post.
        repeat split; [exact Ht |]. intros u [<- | Hu]; [exact E | now apply Hpre].
      * intros ([| y pre] & post & H & Ht & Hpre); simpl in H.
        -- injection H as -> _. rewrite Ht in E. discriminate.
        -- injection H as _ ->. exists pre, post.
           repeat split; [exact Ht |]. intros u Hu. apply Hpre. now right.
Qed.

Lemma find_absent {A} (f : A -> bool) (l : list A) :
  List.find f l = None <-> forall u, In u l -> f u = false.
Proof.
  split; [apply find_none |].
  induction l as [| x l IH]; simpl; [reflexivity |]. intros H.
  rewrite (H x) by now left. apply IH. intros u Hu. apply H. now right.
Qed.

Lemma includes_In (xs : list string) (s : string) :
  Str.includes xs s = true <-> In s xs.
Proof.
  unfold Str.includes. rewrite existsb_exists. split.
  - intros (w & Hw & E). apply String.eqb_eq in E. now subst.
  - intros H. exists s. split; [exact H | apply String.eqb_refl].
Qed.

Lemma sorted_weaken {A} (R R' : A -> A -> Prop) (l : list A) :
  (forall a b, R a b -> R' a b) -> StronglySorted R l -> StronglySorted R' l.
Proof.
  intros HR. induction 1 as [| a l _ IH Ha]; constructor; [exact IH |].
  rewrite List.Forall_forall in Ha |- *. intros b Hb. now apply HR, Ha.
Qed.

(** C7 (amended).  For every batch, [totalVolume24h] of the snapshot is the
    sum of [volume24h] over exactly the records with [volume24h > 0], added
    up in batch order with every addition rounded to a double; it is 0 for
    the empty batch and for a batch whose volumes are all zero.  When the
    volumes are whole numbers and their sum is at most [2 ^ 53], no addition
    rounds and the total is the sum itself. *)
Theorem C7_total_volume (config : Config.SmairaConfig)
    (tokens : list Markets.TokenMarketData) (now : Date) :
  let total := Markets.totalVolume24h (Markets.getMarketSnapshot config tokens now) in
  total = positiveVolumeSum tokens
  /\ Markets.totalVolume24h (Markets.getMarketSnapshot config [] now)
     = Double.Finite 0
  /\ (Forall (fun t => Markets.volume24h t == 0) tokens -> total = Double.Finite 0)
  /\ (wholeVolumes tokens -> exactVolumeSum tokens <= inject_Z (2 ^ 53) ->
      totalVolumeAsStated config tokens now).
Proof.
  cbv zeta.
  assert (Htotal :
    Markets.totalVolume24h (Markets.getMarketSnapshot config tokens now)
    = positiveVolumeSum tokens).
  { simpl. apply fold_sum_active. }
  split; [exact Htotal |]. split; [reflexivity |]. split.
  - intros Hzero. rewrite Htotal. clear Htotal. unfold positiveVolumeSum.
    induction Hzero as [| t l Ht _ IH]; simpl; [reflexivity |].
    destruct (Qlt_le_dec 0 (Markets.volume24h t)) as [Hpos | _]; [| exact IH].
    rewrite Ht in Hpos. discriminate Hpos.
  - intros Hw Hle. unfold totalVolumeAsStated. rewrite Htotal.
    destruct (positiveVolumeSumFrom_whole tokens 0 Hw) as (total & Ht & Et).
    + lia.
    + change (inject_Z 0) with 0. lra.
    + exists total. split; [exact Ht |]. rewrite Et. change (inject_Z 0) with 0. ring.
Qed.

Lemma C7_total_volume_witness :
  Markets.totalVolume24h
    (Markets.getMarketSnapshot Config.defaultConfig
       [record "USDC" "0x3" 1 0 0 false; record "DAI" "0x4" 1 2 0 true] 0%Z)
  = Double.Finite 0
  /\ totalVolumeAsStated Config.defaultConfig scenarioA 0%Z.
Proof.
  pose proof (C7_total_volume Config.defaultConfig
                [record "USDC" "0x3" 1 0 0 false; record "DAI" "0x4" 1 2 0 true] 0%Z)
    as (_ & _ & Hzero & _).
  pose proof (C7_total_volume Config.defaultConfig scenarioA 0%Z)
    as (_ & _ & _ & Hwhole).
  split.
  - apply Hzero. repeat constructor.
  - apply Hwhole.
    + repeat constructor.
      * exists 1000000%Z. split; [lia | reflexivity].
      * exists 500000%Z. split; [lia | reflexivity].
      * exists 0%Z. split; [lia | reflexivity].
    + vm_compute. discriminate.
Defined.

(** C7 as stated fails: the volumes [1e16], 1 and 1 have the sum
    10000000000000002, and the snapshot totals 10000000000000000, as each
    of the two additions of 1 rounds back to [1e16]. *)
Lemma C7_counterexample :
  ~ totalVolumeAsStated Config.defaultConfig
      [ record "ETH" "0x1" 1 0 10000000000000000 true;
        record "STRK" "0x2" 1 0 1 true;
        record "USDC" "0x3" 1 0 1 true ] 0%Z.
Proof.
  unfold totalVolumeAsStated. intros (total & Htotal & Hsum).
  vm_compute in Htotal. injection Htotal as <-.
  vm_compute in Hsum. discriminate Hsum.
Qed.

(** C8.  For every batch, [topGainers] holds at most 10 records, each with
    [priceChange24h > 0] and [volume24h > 0], in descending order of
    [priceChange24h]; [topLosers] holds at most 10 records, each with
    [priceChange24h < 0] and [volume24h > 0], in ascending order (most
    negative first); a record with [priceChange24h == 0] is in neither. *)
Theorem C8_gainers_losers (config : Config.SmairaConfig)
    (tokens : list Markets.TokenMarketData) (now : Date) :
  let s := Markets.getMarketSnapshot config tokens now in
  Forall (fun t => In t tokens /\ 0 < Markets.volume24h t
                   /\ 0 < Markets.priceChange24h t) (Markets.topGainers s)
  /\ StronglySorted (descending Markets.priceChange24h) (Markets.topGainers s)
  /\ (length (Markets.topGainers s) <= 10)%nat
  /\ Forall (fun t => In t tokens /\ 0 < Markets.volume24h t
                      /\ Markets.priceChange24h t < 0) (Markets.topLosers s)
  /\ StronglySorted (fun a b => Markets.priceChange24h a <= Markets.priceChange24h b)
       (Markets.topLosers s)
  /\ (length (Markets.topLosers s) <= 10)%nat
  /\ forall t, Markets.priceChange24h t == 0 ->
       ~ In t (Markets.topGainers s) /\ ~ In t (Markets.topLosers s).
Proof.
  cbv zeta.
  assert (Hgain : Forall (fun t => In t tokens /\ 0 < Markets.volume24h t
                                   /\ 0 < Markets.priceChange24h t)
            (Markets.topGainers (Markets.getMarketSnapshot config tokens now))).
  { rewrite List.Forall_forall. intros t Ht. simpl in Ht.
    apply slice0_In, sort_In, filter_In in Ht. destruct Ht as [Hact Hpos].
    apply activeTokens_In in Hact. apply gtb_true in Hpos. tauto. }
  assert (Hloss : Forall (fun t => In t tokens /\ 0 < Markets.volume24h t
                                   /\ Markets.priceChange24h t < 0)
            (Markets.topLosers (Markets.getMarketSnapshot config tokens now))).
  { rewrite List.Forall_forall. intros t Ht. simpl in Ht.
    apply slice0_In, sort_In, filter_In in Ht. destruct Ht as [Hact Hneg].
    apply activeTokens_In in Hact. apply ltb_true in Hneg. tauto. }
  repeat split.
  - exact Hgain.
  - simpl. apply slice0_sorted, sort_sorted. intros a b. reflexivity.
  - apply slice0_length.
  - exact Hloss.
  - simpl. apply slice0_sorted.
    apply (sorted_weaken (descending (fun t => - Markets.priceChange24h t))).
    + unfold descending. intros a b Hab. lra.
    + apply sort_sorted. intros a b. ring.
  - apply slice0_length.
  - intros Hin. rewrite List.Forall_forall in Hgain.
    destruct (Hgain t Hin) as (_ & _ & Hpos). lra.
  - intros Hin. rewrite List.Forall_forall in Hloss.
    destruct (Hloss t Hin) as (_ & _ & Hneg). lra.
Qed.

Lemma C8_gainers_losers_witness :
  let s := Markets.getMarketSnapshot Config.defaultConfig scenarioA 0%Z in
  map Markets.symbol (Markets.topGainers s) = ["ETH"]
  /\ map Markets.symbol (Markets.topLosers s) = ["STRK"]
  /\ StronglySorted (descending Markets.priceChange24h) (Markets.topGainers s).
Proof.
  split; [reflexivity |]. split; [reflexivity |].
  apply (C8_gainers_losers Config.defaultConfig scenarioA 0%Z).
Defined.

(** C6 (a defect of the code).  The [watchlist] field of the snapshot is
    drawn from the full record list, in input order, whatever the volume,
    and a record with symbol ["eth"] is included when the configured
    watchlist contains ["ETH"].  But only the symbol is uppercased: a record
    is included iff its uppercased symbol is one of the entries as they are
    configured.  With [WATCHLIST=eth] in the environment the configured
    watchlist is [["eth"]], and the record ETH, which the price lookup finds
    under ["eth"], is not in the watchlist view: membership is not
    case-insensitive in both directions. *)
Theorem C6_watchlist_membership (config : Config.SmairaConfig)
    (tokens : list Markets.TokenMarketData) (now : Date) :
  let s := Markets.getMarketSnapshot config tokens now in
  let lowerCase := Config.getConfig (Some "eth") in
  let batch := [record "ETH" "0x1" 3000 0 1000000 true] in
  (forall t, In t (Markets.watchlist s)
             <-> In t tokens
                 /\ In (Str.toUpperCase (Markets.symbol t)) (Config.watchlist config))
  /\ (forall t, In t tokens -> Markets.symbol t = "eth" ->
                In "ETH" (Config.watchlist config) -> In t (Markets.watchlist s))
  /\ (exists keep, Markets.watchlist s = List.filter keep tokens)
  /\ Config.watchlist lowerCase = ["eth"]
  /\ Markets.watchlist (Markets.getMarketSnapshot lowerCase batch now) = []
  /\ Markets.getTokenPrice batch "eth" = Some 3000
  /\ ~ watchlistCaseInsensitive lowerCase batch now.
Proof.
  cbv zeta.
  assert (Hiff : forall t,
    In t (Markets.watchlist (Markets.getMarketSnapshot config tokens now))
    <-> In t tokens
        /\ In (Str.toUpperCase (Markets.symbol t)) (Config.watchlist config)).
  { intros t. simpl. rewrite filter_In, includes_In. reflexivity. }
  split; [exact Hiff |]. split; [| split; [| split; [| split; [| split]]]].
  - intros t Ht Hsym Hcfg. apply Hiff. split; [exact Ht |].
    rewrite Hsym. exact Hcfg.
  - eexists. reflexivity.
  - reflexivity.
  - reflexivity.
  - reflexivity.
  - intros H.
    destruct (H (record "ETH" "0x1" 3000 0 1000000 true)) as [_ Hin].
    simpl in Hin. apply Hin. split; [now left |].
    exists "eth". split; [now left | reflexivity].
Qed.

(** C10.  For every batch, the price lookup returns [null] exactly when no
    record has the queried symbol (case ignored) or the first record that
    has it carries a price of 0; otherwise it returns the price of that
    first record.  A [null] result therefore does not tell an unknown symbol
    from a known token priced 0. *)
Theorem C10_price_lookup_null (tokens : list Markets.TokenMarketData) (sym : string) :
  (Markets.getTokenPrice tokens sym = None
   <-> noMatch tokens sym
       \/ exists t, firstMatch tokens sym t /\ Markets.priceUsd t == 0)
  /\ (forall p, Markets.getTokenPrice tokens sym = Some p
      <-> exists t, firstMatch tokens sym t /\ p = Markets.priceUsd t /\ ~ p == 0).
Proof.
  set (f := fun t => String.eqb (Str.toUpperCase (Markets.symbol t))
                       (Str.toUpperCase sym)).
  assert (Hfirst : forall t, List.find f tokens = Some t <-> firstMatch tokens sym t).
  { intros t. rewrite find_first. unfold firstMatch, f.
    split; intros (pre & post & -> & Ht & Hpre); exists pre, post;
      (split; [reflexivity |]); split.
    - now apply String.eqb_eq.
    - intros u Hu. apply String.eqb_neq. now apply Hpre.
    - now apply String.eqb_eq.
    - intros u Hu. apply String.eqb_neq. now apply Hpre. }
  assert (Hnone : List.find f tokens = None <-> noMatch tokens sym).
  { rewrite find_absent. unfold noMatch, f.
    split; intros H u Hu; apply String.eqb_neq; now apply H. }
  unfold Markets.getTokenPrice. fold f.
  destruct (List.find f tokens) as [t |] eqn:E.
  - assert (Hno : ~ noMatch tokens sym).
    { intros Hn. apply Hnone in Hn. discriminate Hn. }
    assert (Huniq : forall u, firstMatch tokens sym u -> u = t).
    { intros u Hu. apply Hfirst in Hu. congruence. }
    destruct (Num.truthy (Markets.priceUsd t)) eqn:Etr.
    + apply truthy_true in Etr. split.
      * split; [discriminate |]. intros [Hn | (u & Hu & Hz)]; [contradiction |].
        apply Huniq in Hu. subst u. contradiction.
      * intros p. split.
        -- intros [= <-]. exists t. repeat split; [now apply Hfirst | exact Etr].
        -- intros (u & Hu & -> & _). apply Huniq in Hu. now subst u.
    + apply truthy_false in Etr. split.
      * split; [| reflexivity]. intros _. right. exists t.
        split; [now apply Hfirst | exact Etr].
      * intros p. split; [discriminate |].
        intros (u & Hu & -> & Hnz). apply Huniq in Hu. subst u. contradiction.
  - split.
    + split; [| reflexivity]. intros _. left. now apply Hnone.
    + intros p. split; [discriminate |].
      intros (u & Hu & _). apply Hfirst in Hu. discriminate Hu.
Qed.

Lemma C10_price_lookup_null_witness :
  Markets.getTokenPrice scenarioA "btc" = None
  /\ Markets.getTokenPrice [record "USDC" "0x3" 0 0 0 false] "usdc" = None.
Proof.
  split.
  - apply (C10_price_lookup_null scenarioA "btc"). left.
    intros u [<- | [<- | [<- | []]]]; discriminate.
  - apply (C10_price_lookup_null [record "USDC" "0x3" 0 0 0 false] "usdc").
    right. exists (record "USDC" "0x3" 0 0 0 false). split; [| reflexivity].
    exists [], []. repeat split. intros u [].
Defined.

(** ** The detection loop *)

Section Loop.
Variable alertConfig : Alerts.AlertConfig.
Variable now : Date.

Lemma checkLoop_cons t l acc :
  Alerts.checkLoop alertConfig now (t :: l) acc
  = Alerts.checkLoop alertConfig now l (Alerts.checkToken alertConfig now acc t).
Proof. reflexivity. Qed.

Lemma checkLoop_app l1 l2 acc :
  Alerts.checkLoop alertConfig now (l1 ++ l2) acc
  = Alerts.checkLoop alertConfig now l2 (Alerts.checkLoop alertConfig now l1 acc).
Proof. apply fold_left_app. Qed.

(** The alerts already pushed do not influence an iteration. *)
Lemma checkToken_acc alerts state t :
  Alerts.checkToken alertConfig now (alerts, state) t
  = (alerts ++ fst (Alerts.checkToken alertConfig now ([], state) t),
     snd (Alerts.checkToken alertConfig now ([], state) t)).
Proof.
  unfold Alerts.checkToken. destruct (Alerts.skipped alertConfig t); simpl.
  - now rewrite app_nil_r.
  - reflexivity.
Qed.

Lemma checkLoop_acc l alerts state :
  Alerts.checkLoop alertConfig now l (alerts, state)
  = (alerts ++ fst (Alerts.checkLoop alertConfig now l ([], state)),
     snd (Alerts.checkLoop alertConfig now l ([], state))).
Proof.
  revert alerts state. induction l as [| t l IH]; intros alerts state.
  - simpl. now rewrite app_nil_r.
  - rewrite !checkLoop_cons.
    rewrite (checkToken_acc alerts state t).
    destruct (Alerts.checkToken alertConfig now ([], state) t) as [a1 s1]; simpl.
    rewrite (IH (alerts ++ a1) s1), (IH a1 s1). simpl.
    now rewrite app_assoc.
Qed.

(** The alerts of a call split at any record of the batch: those pushed
    before it, those pushed in its iteration, those pushed after it. *)
Lemma checkLoop_split pre t post state :
  fst (Alerts.checkLoop alertConfig now (pre ++ t :: post) ([], state))
  = fst (Alerts.checkLoop alertConfig now pre ([], state))
    ++ emittedFor alertConfig now state pre t
    ++ fst (Alerts.checkLoop alertConfig now post
              ([], stateBefore alertConfig now state (pre ++ [t]))).
Proof.
  unfold emittedFor, stateBefore.
  rewrite !checkLoop_app, !checkLoop_cons. simpl.
  destruct (Alerts.checkLoop alertConfig now pre ([], state)) as [a0 s0]; simpl.
  rewrite (checkToken_acc a0 s0 t).
  destruct (Alerts.checkToken alertConfig now ([], s0) t) as [a1 s1]; simpl.
  rewrite (checkLoop_acc post (a0 ++ a1) s1). simpl.
  now rewrite app_assoc.
Qed.

Lemma agreeAt_refl s a : agreeAt s s a.
Proof. repeat split; tauto. Qed.

Lemma tokenAlerts_agree s1 s2 t :
  agreeAt s1 s2 (Markets.address t) ->
  Alerts.tokenAlerts alertConfig now s1 t = Alerts.tokenAlerts alertConfig now s2 t.
Proof.
  intros (_ & Hv & Hk).
  unfold Alerts.tokenAlerts, Alerts.volumeAlert, Alerts.newTokenAlert.
  rewrite Hv, (bool_decide_ext _ _ Hk). reflexivity.
Qed.

Lemma updateState_other s t a :
  Markets.address t <> a -> agreeAt (Alerts.updateState s t) s a.
Proof.
  intros Hne. unfold agreeAt, Alerts.updateState; simpl.
  split; [now apply lookup_insert_ne |]. split; [now apply lookup_insert_ne |].
  rewrite elem_of_union, elem_of_singleton. split; [| tauto].
  intros [Ha | Ha]; [now symmetry in Ha | exact Ha].
Qed.

Lemma agreeAt_trans s1 s2 s3 a : agreeAt s1 s2 a -> agreeAt s2 s3 a -> agreeAt s1 s3 a.
Proof.
  intros (? & ? & ?) (? & ? & ?). repeat split; try congruence; tauto.
Qed.

(** The loop leaves every address alone that no processed record carries. *)
Lemma checkLoop_other l alerts state a :
  ~ In a (map Markets.address (processed alertConfig l)) ->
  agreeAt (snd (Alerts.checkLoop alertConfig now l (alerts, state))) state a.
Proof.
  revert alerts state. induction l as [| t l IH]; intros alerts state Hnot.
  - apply agreeAt_refl.
  - rewrite checkLoop_cons. unfold Alerts.checkToken. simpl in Hnot.
    destruct (Alerts.skipped alertConfig t) eqn:E; simpl in Hnot |- *.
    + now apply IH.
    + eapply agreeAt_trans; [apply IH; tauto |].
      apply updateState_other. tauto.
Qed.

(** After the loop, a processed record's address holds its price and volume
    and is known, provided no later processed record has the address. *)
Lemma checkLoop_recorded pre t post alerts state :
  Alerts.skipped alertConfig t = false ->
  ~ In (Markets.address t) (map Markets.address (processed alertConfig post)) ->
  let s := snd (Alerts.checkLoop alertConfig now (pre ++ t :: post) (alerts, state)) in
  Alerts.lastPrices s !! Markets.address t = Some (Markets.priceUsd t)
  /\ Alerts.lastVolumes s !! Markets.address t = Some (Markets.volume24h t)
  /\ Markets.address t ∈ Alerts.knownTokens s.
Proof.
  intros Hw Hpost. cbv zeta.
  rewrite checkLoop_app, checkLoop_cons.
  destruct (Alerts.checkLoop alertConfig now pre (alerts, state)) as [a0 s0].
  unfold Alerts.checkToken. rewrite Hw. simpl.
  destruct (checkLoop_other post (a0 ++ Alerts.tokenAlerts alertConfig now s0 t)
              (Alerts.updateState s0 t) _ Hpost) as (Hp & Hv & Hk).
  rewrite Hp, Hv. split; [apply lookup_insert_eq |].
  split; [apply lookup_insert_eq |].
  apply Hk. simpl. apply elem_of_union_l. now apply elem_of_singleton.
Qed.

(** The set of known addresses only grows along the loop. *)
Lemma checkLoop_known_mono l alerts state a :
  a ∈ Alerts.knownTokens state ->
  a ∈ Alerts.knownTokens (snd (Alerts.checkLoop alertConfig now l (alerts, state))).
Proof.
  revert alerts state. induction l as [| t l IH]; intros alerts state Ha.
  - exact Ha.
  - rewrite checkLoop_cons. unfold Alerts.checkToken.
    destruct (Alerts.skipped alertConfig t); [now apply IH |].
    apply IH. simpl. now apply elem_of_union_r.
Qed.

End Loop.

Lemma processed_In cfg l t :
  In t (processed cfg l) <-> In t l /\ watched cfg t.
Proof.
  unfold processed, watched. rewrite filter_In, negb_true_iff. reflexivity.
Qed.

Lemma processed_addresses cfg l a :
  In a (map Markets.address (processed cfg l)) -> In a (map Markets.address l).
Proof.
  rewrite !in_map_iff. intros (t & Ha & Ht). exists t. split; [exact Ha |].
  now apply processed_In in Ht.
Qed.

(** On a batch of distinct addresses every iteration reads, for its own
    record, what the state held when the loop started. *)
Lemma checkLoop_from_initial cfg now st0 l alerts s1 :
  distinctAddresses l ->
  (forall t, In t l -> agreeAt s1 st0 (Markets.address t)) ->
  fst (Alerts.checkLoop cfg now l (alerts, s1))
  = alerts ++ flat_map (Alerts.tokenAlerts cfg now st0) (processed cfg l).
Proof.
  unfold distinctAddresses.
  revert alerts s1. induction l as [| t l IH]; intros alerts s1 Hnd Hag.
  - simpl. now rewrite app_nil_r.
  - rewrite checkLoop_cons. simpl in Hnd. apply NoDup_cons_iff in Hnd.
    destruct Hnd as [Hfresh Hnd]. unfold Alerts.checkToken, processed. simpl.
    destruct (Alerts.skipped cfg t) eqn:E; simpl.
    + apply IH; [exact Hnd |]. intros u Hu. apply Hag. now right.
    + rewrite IH.
      * rewrite <- app_assoc. do 2 f_equal. apply tokenAlerts_agree.
        apply Hag. now left.
      * exact Hnd.
      * intros u Hu. eapply agreeAt_trans; [| apply Hag; now right].
        apply updateState_other. intros Heq. apply Hfresh.
        rewrite Heq. now apply in_map.
Qed.




(** ** One iteration *)

Lemma emittedFor_watched cfg now st pre t :
  watched cfg t ->
  emittedFor cfg now st pre t
  = Alerts.tokenAlerts cfg now (stateBefore cfg now st pre) t.
Proof.
  unfold watched, emittedFor, Alerts.checkToken. now intros ->.
Qed.

Lemma emittedFor_skipped cfg now st pre t :
  Alerts.skipped cfg t = true -> emittedFor cfg now st pre t = [].
Proof.
  unfold emittedFor, Alerts.checkToken. now intros ->.
Qed.

Lemma ofType_app ty l1 l2 : ofType ty (l1 ++ l2) = ofType ty l1 ++ ofType ty l2.
Proof. apply List.filter_app. Qed.

Lemma ofType_In ty l a : In a (ofType ty l) <-> In a l /\ Alerts.type a = ty.
Proof.
  unfold ofType. rewrite filter_In, bool_decide_eq_true. reflexivity.
Qed.

Lemma priceAlert_isPrice cfg now t a :
  In a (Alerts.priceAlert cfg now t) -> isPriceAlert a.
Proof.
  unfold Alerts.priceAlert, isPriceAlert.
  destruct (Num.geb _ _); [| intros []]. intros [<- | []]. simpl.
  destruct (Num.gtb (Markets.priceChange24h t) 0); auto.
Qed.

Lemma volumeAlert_type cfg now st t a :
  In a (Alerts.volumeAlert cfg now st t) -> Alerts.type a = Alerts.volume_spike.
Proof.
  unfold Alerts.volumeAlert.
  destruct (Alerts.lastVolumes st !! Markets.address t) as [prev |]; [| intros []].
  destruct (Num.truthy prev && Num.gtb prev 0); [| intros []].
  destruct (Double.ge _ _); [| intros []]. now intros [<- | []].
Qed.

Lemma newTokenAlert_type now st t a :
  In a (Alerts.newTokenAlert now st t) -> Alerts.type a = Alerts.new_token.
Proof.
  unfold Alerts.newTokenAlert.
  destruct (negb _ && _); [| intros []]. now intros [<- | []].
Qed.

Lemma ofType_none ty l :
  (forall a, In a l -> Alerts.type a <> ty) -> ofType ty l = [].
Proof.
  intros H. induction l as [| a l IH]; [reflexivity |]. simpl.
  rewrite bool_decide_eq_false_2 by (apply H; now left).
  apply IH. intros b Hb. apply H. now right.
Qed.

Lemma ofType_all ty l :
  (forall a, In a l -> Alerts.type a = ty) -> ofType ty l = l.
Proof.
  intros H. induction l as [| a l IH]; [reflexivity |]. simpl.
  rewrite bool_decide_eq_true_2 by (apply H; now left).
  f_equal. apply IH. intros b Hb. apply H. now right.
Qed.

(** The [volume_spike] alerts of an iteration are what its second [if]
    pushes; the [new_token] alerts, what its third [if] pushes. *)
Lemma ofType_volume_spike cfg now st t :
  ofType Alerts.volume_spike (Alerts.tokenAlerts cfg now st t)
  = Alerts.volumeAlert cfg now st t.
Proof.
  unfold Alerts.tokenAlerts. rewrite !ofType_app.
  rewrite (ofType_none _ (Alerts.priceAlert cfg now t)).
  - rewrite (ofType_none _ (Alerts.newTokenAlert now st t)).
    + rewrite app_nil_r. simpl. apply ofType_all, volumeAlert_type.
    + intros a Ha. apply newTokenAlert_type in Ha. congruence.
  - intros a Ha. apply priceAlert_isPrice in Ha. destruct Ha; congruence.
Qed.

Lemma ofType_new_token cfg now st t :
  ofType Alerts.new_token (Alerts.tokenAlerts cfg now st t)
  = Alerts.newTokenAlert now st t.
Proof.
  unfold Alerts.tokenAlerts. rewrite !ofType_app.
  rewrite (ofType_none _ (Alerts.priceAlert cfg now t)).
  - rewrite (ofType_none _ (Alerts.volumeAlert cfg now st t)).
    + simpl. apply ofType_all, newTokenAlert_type.
    + intros a Ha. apply volumeAlert_type in Ha. congruence.
  - intros a Ha. apply priceAlert_isPrice in Ha. destruct Ha; congruence.
Qed.

Lemma tokenAlerts_price cfg now st t a :
  In a (Alerts.tokenAlerts cfg now st t) -> isPriceAlert a ->
  In a (Alerts.priceAlert cfg now t).
Proof.
  unfold Alerts.tokenAlerts. rewrite !in_app_iff.
  intros [Ha | [Ha | Ha]] Hp; [exact Ha | |].
  - apply volumeAlert_type in Ha. destruct Hp; congruence.
  - apply newTokenAlert_type in Ha. destruct Hp; congruence.
Qed.

Lemma tokenAlerts_volume cfg now st t a :
  In a (Alerts.tokenAlerts cfg now st t) -> Alerts.type a = Alerts.volume_spike ->
  In a (Alerts.volumeAlert cfg now st t).
Proof.
  unfold Alerts.tokenAlerts. rewrite !in_app_iff.
  intros [Ha | [Ha | Ha]] Hty; [| exact Ha |].
  - apply priceAlert_isPrice in Ha. destruct Ha; congruence.
  - apply newTokenAlert_type in Ha. congruence.
Qed.

(** Every alert a call returns was pushed in the iteration of some record
    that passes the watchlist gate, from the state that iteration found. *)
Lemma checkLoop_alert_origin cfg now l st a :
  In a (fst (Alerts.checkLoop cfg now l ([], st))) ->
  exists t s, In t l /\ watched cfg t /\ In a (Alerts.tokenAlerts cfg now s t).
Proof.
  revert st. induction l as [| t l IH]; intros st; [intros [] |].
  rewrite checkLoop_cons. unfold Alerts.checkToken.
  destruct (Alerts.skipped cfg t) eqn:E; simpl.
  - intros Ha. destruct (IH _ Ha) as (u & s & Hu & Hw & Hin).
    exists u, s. repeat split; [now right | exact Hw | exact Hin].
  - rewrite checkLoop_acc. simpl. rewrite in_app_iff. intros [Ha | Ha].
    + exists t, st. repeat split; [now left | exact E | exact Ha].
    + destruct (IH _ Ha) as (u & s & Hu & Hw & Hin).
      exists u, s. repeat split; [now right | exact Hw | exact Hin].
Qed.

Ltac severity_case :=
  repeat split; intros; try discriminate; try reflexivity;
  repeat match goal with H : _ /\ _ |- _ => destruct H end; try lra.

(** What the first [if] pushes, field by field. *)
Lemma priceAlert_fields cfg now t a :
  In a (Alerts.priceAlert cfg now t) ->
  let v := Markets.priceChange24h t in
  Alerts.value a = Double.Finite v
  /\ Alerts.threshold a = Alerts.priceChangeThreshold cfg
  /\ Alerts.threshold a <= Qabs v
  /\ (Alerts.severity a = Alerts.high <-> 20 < Qabs v)
  /\ (Alerts.severity a = Alerts.medium <-> 10 < Qabs v /\ Qabs v <= 20)
  /\ (Alerts.severity a = Alerts.low
      <-> Alerts.threshold a <= Qabs v /\ Qabs v <= 10)
  /\ (0 < v -> Alerts.type a = Alerts.price_surge)
  /\ (v < 0 -> Alerts.type a = Alerts.price_drop).
Proof.
  cbv zeta.
  unfold Alerts.priceAlert.
  destruct (Num.geb _ _) eqn:Ethr; [| intros []]. intros [<- | []]. simpl.
  apply geb_true in Ethr.
  set (x := Qabs (Markets.priceChange24h t)) in *.
  assert (Hup : 0 < Markets.priceChange24h t ->
                (if Num.gtb (Markets.priceChange24h t) 0
                 then Alerts.price_surge else Alerts.price_drop) = Alerts.price_surge).
  { intros H. apply gtb_true in H. now rewrite H. }
  assert (Hdown : Markets.priceChange24h t < 0 ->
                  (if Num.gtb (Markets.priceChange24h t) 0
                   then Alerts.price_surge else Alerts.price_drop) = Alerts.price_drop).
  { intros H. apply Qlt_le_weak, gtb_false in H. now rewrite H. }
  destruct (Num.gtb x 20) eqn:E20;
    [apply gtb_true in E20 | apply gtb_false in E20;
     destruct (Num.gtb x 10) eqn:E10;
       [apply gtb_true in E10 | apply gtb_false in E10]];
    severity_case; auto.
Qed.

Lemma priceAlert_emitted cfg now t :
  Alerts.priceAlert cfg now t <> []
  <-> Alerts.priceChangeThreshold cfg <= Qabs (Markets.priceChange24h t).
Proof.
  unfold Alerts.priceAlert. rewrite <- geb_true.
  destruct (Num.geb _ _); split; try discriminate; try reflexivity.
  intros H. now contradiction H.
Qed.

Lemma positive_prior prev :
  Num.truthy prev && Num.gtb prev 0 = true <-> 0 < prev.
Proof.
  rewrite andb_true_iff, truthy_true, gtb_true. split; [tauto |].
  intros H. split; [lra | exact H].
Qed.

(** [500 < x] implies [300 < x]. *)
Lemma gt_500_300 (x : Double.number) :
  Double.gt x (Double.Finite 500) = true -> Double.gt x (Double.Finite 300) = true.
Proof.
  unfold Double.gt, Double.lt.
  destruct x as [q | | [|] |]; simpl; try discriminate; try reflexivity.
  rewrite !ltb_true. intros H. apply Qlt_trans with 500; [reflexivity | exact H].
Qed.

(** What the second [if] pushes: nothing without a prior volume above 0;
    with one, a single alert carrying the change iff it reaches the
    threshold. *)
Lemma volumeAlert_cases cfg now st t :
  match Alerts.lastVolumes st !! Markets.address t with
  | None => Alerts.volumeAlert cfg now st t = []
  | Some prev =>
      let reached :=
        Double.ge (volumeChangeFrom prev t)
          (Double.Finite (Alerts.volumeSpikeThreshold cfg)) in
      (~ 0 < prev -> Alerts.volumeAlert cfg now st t = [])
      /\ (0 < prev -> reached = false -> Alerts.volumeAlert cfg now st t = [])
      /\ (0 < prev -> reached = true ->
          exists a, Alerts.volumeAlert cfg now st t = [a]
                    /\ Alerts.value a = volumeChangeFrom prev t
                    /\ Alerts.threshold a = Alerts.volumeSpikeThreshold cfg
                    /\ Alerts.severity a
                       = if Double.gt (volumeChangeFrom prev t) (Double.Finite 500)
                         then Alerts.high
                         else if Double.gt (volumeChangeFrom prev t) (Double.Finite 300)
                         then Alerts.medium
                         else Alerts.low)
  end.
Proof.
  unfold Alerts.volumeAlert.
  destruct (Alerts.lastVolumes st !! Markets.address t) as [prev |]; [| reflexivity].
  cbv zeta. fold (volumeChangeFrom prev t).
  destruct (Num.truthy prev && Num.gtb prev 0) eqn:Epos.
  - apply positive_prior in Epos.
    destruct (Double.ge _ _) eqn:Ethr.
    + split; [tauto |]. split; [discriminate |].
      intros _ _. eexists. split; [reflexivity |]. simpl. auto.
    + split; [tauto |]. split; [reflexivity |]. discriminate.
  - assert (Hn : ~ 0 < prev).
    { intros H. apply positive_prior in H. congruence. }
    split; [reflexivity |]. split; intros H; contradiction.
Qed.

(** The severity of a [volume_spike] follows its value, which has reached
    the threshold. *)
Lemma volumeAlert_severity cfg now st t a :
  In a (Alerts.volumeAlert cfg now st t) ->
  (Alerts.severity a = Alerts.high
   <-> Double.gt (Alerts.value a) (Double.Finite 500) = true)
  /\ (Alerts.severity a = Alerts.medium
      <-> Double.gt (Alerts.value a) (Double.Finite 500) = false
          /\ Double.gt (Alerts.value a) (Double.Finite 300) = true)
  /\ (Alerts.severity a = Alerts.low
      <-> Double.gt (Alerts.value a) (Double.Finite 300) = false)
  /\ Double.ge (Alerts.value a) (Double.Finite (Alerts.threshold a)) = true
  /\ Alerts.threshold a = Alerts.volumeSpikeThreshold cfg.
Proof.
  pose proof (volumeAlert_cases cfg now st t) as Hcases.
  destruct (Alerts.lastVolumes st !! Markets.address t) as [prev |];
    [| rewrite Hcases; intros []].
  cbv zeta in Hcases. destruct Hcases as (Hnonpos & Hbelow & Hreach).
  destruct (Qlt_le_dec 0 prev) as [Hpos | Hle];
    [| rewrite Hnonpos by lra; intros []].
  destruct (Double.ge (volumeChangeFrom prev t) _) eqn:Ethr;
    [| rewrite (Hbelow Hpos eq_refl); intros []].
  destruct (Hreach Hpos eq_refl) as (b & -> & Hval & Hthr & Hsev).
  intros [<- | []]. rewrite Hval, Hthr, Hsev, Ethr.
  pose proof (gt_500_300 (volumeChangeFrom prev t)) as Hmono.
  destruct (Double.gt (volumeChangeFrom prev t) (Double.Finite 500));
    [rewrite Hmono by reflexivity
    | destruct (Double.gt (volumeChangeFrom prev t) (Double.Finite 300))];
    repeat split; intros; try discriminate; try reflexivity;
    repeat match goal with H : _ /\ _ |- _ => destruct H end; discriminate.
Qed.

Lemma newTokenAlert_emitted now st t :
  Alerts.newTokenAlert now st t <> []
  <-> (Markets.address t ∉ Alerts.knownTokens st) /\ Markets.verified t = true.
Proof.
  unfold Alerts.newTokenAlert.
  destruct (bool_decide (Markets.address t ∈ Alerts.knownTokens st)) eqn:Ek;
    [apply bool_decide_eq_true in Ek | apply bool_decide_eq_false in Ek];
    destruct (Markets.verified t); simpl; split;
    try discriminate; try tauto; intros H; try (now contradiction H).
  - destruct H as [_ H]. discriminate H.
Qed.

Lemma newTokenAlert_fields now st t :
  Forall (fun a => Alerts.severity a = Alerts.medium
                   /\ Alerts.value a = Double.Finite 0 /\ Alerts.threshold a = 0)
    (Alerts.newTokenAlert now st t).
Proof.
  unfold Alerts.newTokenAlert. destruct (negb _ && _); repeat constructor.
Qed.

(** On a batch of distinct addresses, the state an iteration finds agrees
    with the state before the call at the iteration's own address. *)
Lemma stateBefore_agree cfg now st pre t post :
  distinctAddresses (pre ++ t :: post) ->
  agreeAt (stateBefore cfg now st pre) st (Markets.address t).
Proof.
  unfold distinctAddresses, stateBefore. intros Hnd.
  apply checkLoop_other. intros Hin. apply processed_addresses in Hin.
  rewrite map_app in Hnd. simpl in Hnd.
  apply NoDup_remove_2 in Hnd. apply Hnd, in_or_app. now left.
Qed.

(** Every address of a processed record is known when the loop ends. *)
Lemma checkLoop_known cfg now l alerts st a :
  In a (map Markets.address (processed cfg l)) ->
  a ∈ Alerts.knownTokens (snd (Alerts.checkLoop cfg now l (alerts, st))).
Proof.
  rewrite in_map_iff. intros (t & <- & Ht).
  apply processed_In in Ht. destruct Ht as [Hin Hw].
  destruct (in_split _ _ Hin) as (pre & post & ->).
  rewrite checkLoop_app, checkLoop_cons.
  destruct (Alerts.checkLoop cfg now pre (alerts, st)) as [a0 s0].
  unfold Alerts.checkToken. rewrite Hw.
  apply checkLoop_known_mono. simpl.
  apply elem_of_union_l. now apply elem_of_singleton.
Qed.

(** The decomposition of a call's alerts around one record of the batch. *)
Lemma checkAlerts_split dc config pre t post now st :
  let cfg := Alerts.resolveConfig dc config in
  fst (Alerts.checkAlerts dc config (pre ++ t :: post) now st)
  = fst (Alerts.checkAlerts dc config pre now st)
    ++ emittedFor cfg now st pre t
    ++ fst (Alerts.checkLoop cfg now post ([], stateBefore cfg now st (pre ++ [t]))).
Proof. cbv zeta. unfold Alerts.checkAlerts. simpl. apply checkLoop_split. Qed.

(** ** The alert rules *)

(** C4 (amended).  Every [price_surge] or [price_drop] alert a detection
    call returns has severity [high] iff [abs(value) > 20], [medium] iff
    [10 < abs(value) <= 20] and [low] iff [threshold <= abs(value) <= 10];
    it is a [price_surge] when the value is positive and a [price_drop] when
    it is negative.  For a record that passes the watchlist gate, a price
    alert is emitted iff [abs(priceChange24h) >= priceChangeThreshold], and
    its value is the record's [priceChange24h]. *)
Theorem C4_price_alert_severity (defaultConfig : Config.SmairaConfig)
    (config : option Alerts.PartialAlertConfig)
    (tokens : list Markets.TokenMarketData) (now : Date)
    (state : Alerts.AlertState) :
  let alertConfig := Alerts.resolveConfig defaultConfig config in
  (forall a,
     In a (fst (Alerts.checkAlerts defaultConfig config tokens now state)) ->
     isPriceAlert a ->
     exists v,
       Alerts.value a = Double.Finite v
       /\ (Alerts.severity a = Alerts.high <-> 20 < Qabs v)
       /\ (Alerts.severity a = Alerts.medium <-> 10 < Qabs v /\ Qabs v <= 20)
       /\ (Alerts.severity a = Alerts.low
           <-> Alerts.threshold a <= Qabs v /\ Qabs v <= 10)
       /\ Alerts.threshold a = Alerts.priceChangeThreshold alertConfig
       /\ (0 < v -> Alerts.type a = Alerts.price_surge)
       /\ (v < 0 -> Alerts.type a = Alerts.price_drop))
  /\ (forall pre t post,
        tokens = pre ++ t :: post -> watched alertConfig t ->
        fst (Alerts.checkAlerts defaultConfig config tokens now state)
        = fst (Alerts.checkAlerts defaultConfig config pre now state)
          ++ emittedFor alertConfig now state pre t
          ++ fst (Alerts.checkLoop alertConfig now post
                    ([], stateBefore alertConfig now state (pre ++ [t])))
        /\ priceRuleAsStated alertConfig now state pre t
        /\ forall a, In a (emittedFor alertConfig now state pre t) ->
                     isPriceAlert a ->
                     Alerts.value a = Double.Finite (Markets.priceChange24h t)).
Proof.
  cbv zeta. set (cfg := Alerts.resolveConfig defaultConfig config). split.
  - intros a Ha Hprice. unfold Alerts.checkAlerts in Ha. simpl in Ha. fold cfg in Ha.
    destruct (checkLoop_alert_origin cfg now tokens state a Ha)
      as (t & s & _ & _ & Hin).
    apply tokenAlerts_price in Hin; [| exact Hprice].
    destruct (priceAlert_fields cfg now t a Hin)
      as (Hval & Hthr & _ & Hhigh & Hmed & Hlow & Hup & Hdown).
    exists (Markets.priceChange24h t). tauto.
  - intros pre t post -> Hw. split; [apply checkAlerts_split |].
    rewrite (emittedFor_watched _ _ _ _ _ Hw).
    set (s := stateBefore cfg now state pre). split.
    + unfold priceRuleAsStated. rewrite (emittedFor_watched _ _ _ _ _ Hw).
      fold s. rewrite <- priceAlert_emitted. split.
      * intros (a & Ha & Hp). apply tokenAlerts_price in Ha; [| exact Hp].
        intros Hnil. rewrite Hnil in Ha. exact Ha.
      * intros Hne. destruct (Alerts.priceAlert cfg now t) as [| a l] eqn:E;
          [now contradiction Hne |].
        exists a. split.
        -- unfold Alerts.tokenAlerts. rewrite E. now left.
        -- apply (priceAlert_isPrice cfg now t). rewrite E. now left.
    + intros a Ha Hp. apply tokenAlerts_price in Ha; [| exact Hp].
      now apply priceAlert_fields in Ha.
Qed.

Lemma C4_price_alert_severity_witness :
  let a := {| Alerts.type := Alerts.price_surge; Alerts.symbol := "ETH";
              Alerts.message := "ETH surged 6.20% in 24h";
              Alerts.value := Double.Finite (62 # 10); Alerts.threshold := 5;
              Alerts.timestamp := 0%Z; Alerts.severity := Alerts.low |} in
  fst (Alerts.checkAlerts Config.defaultConfig None scenarioA 0%Z
         (Alerts.resetAlertState 0%Z)) = [a]
  /\ exists v,
       Alerts.value a = Double.Finite v
       /\ (Alerts.severity a = Alerts.low
           <-> Alerts.threshold a <= Qabs v /\ Qabs v <= 10).
Proof.
  split; [reflexivity |].
  destruct (proj1 (C4_price_alert_severity Config.defaultConfig None scenarioA 0%Z
                     (Alerts.resetAlertState 0%Z))
              {| Alerts.type := Alerts.price_surge; Alerts.symbol := "ETH";
                 Alerts.message := "ETH surged 6.20% in 24h";
                 Alerts.value := Double.Finite (62 # 10); Alerts.threshold := 5;
                 Alerts.timestamp := 0%Z; Alerts.severity := Alerts.low |})
    as (v & Hv & _ & _ & Hlow & _).
  - left. reflexivity.
  - left. reflexivity.
  - exists v. split; [exact Hv | exact Hlow].
Defined.

(** C4 as stated fails: under the default configuration (threshold 5, a
    watchlist without DOGE), the record DOGE with a change of 25 reaches the
    threshold and no price alert is emitted for it. *)
Lemma C4_counterexample :
  let alertConfig := Alerts.resolveConfig Config.defaultConfig None in
  ~ priceRuleAsStated alertConfig 0%Z (Alerts.resetAlertState 0%Z) []
      (record "DOGE" "0x9" 1 25 1000000 true).
Proof.
  cbv zeta. unfold priceRuleAsStated. intros [_ H].
  destruct H as (a & Ha & _); [| exact Ha].
  unfold Qle. simpl. lia.
Qed.

(** The [volume_spike] alerts of a watched record's iteration, on a batch of
    distinct addresses, are what the second [if] pushes from the state
    before the call. *)
Lemma spikes_from_initial cfg now st pre t post :
  distinctAddresses (pre ++ t :: post) -> watched cfg t ->
  ofType Alerts.volume_spike (emittedFor cfg now st pre t)
  = Alerts.volumeAlert cfg now st t.
Proof.
  intros Hnd Hw. rewrite (emittedFor_watched _ _ _ _ _ Hw), ofType_volume_spike.
  destruct (stateBefore_agree cfg now st pre t post Hnd) as (_ & Hv & _).
  unfold Alerts.volumeAlert. now rewrite Hv.
Qed.

(** C2 (amended).  On a batch of pairwise distinct addresses, for every
    record that passes the watchlist gate: no [volume_spike] is emitted for
    it unless the incoming state holds a prior volume above 0 for its
    address, in particular none on the first observation of the address;
    with a prior volume [prev > 0], a [volume_spike] is emitted iff
    [(volume24h - prev) / prev * 100 >= volumeSpikeThreshold], and it carries
    that percentage as its value; the percentage is the one the code
    computes, each of the three operations rounded to a double.  A record
    that the watchlist gate excludes gets no alert. *)
Theorem C2_volume_spike_requires_history (defaultConfig : Config.SmairaConfig)
    (config : option Alerts.PartialAlertConfig)
    (pre : list Markets.TokenMarketData) (t : Markets.TokenMarketData)
    (post : list Markets.TokenMarketData) (now : Date)
    (state : Alerts.AlertState) :
  let alertConfig := Alerts.resolveConfig defaultConfig config in
  fst (Alerts.checkAlerts defaultConfig config (pre ++ t :: post) now state)
  = fst (Alerts.checkAlerts defaultConfig config pre now state)
    ++ emittedFor alertConfig now state pre t
    ++ fst (Alerts.checkLoop alertConfig now post
              ([], stateBefore alertConfig now state (pre ++ [t])))
  /\ (Alerts.skipped alertConfig t = true ->
      emittedFor alertConfig now state pre t = [])
  /\ (distinctAddresses (pre ++ t :: post) -> watched alertConfig t ->
      volumeRuleAsStated alertConfig now state pre t
      /\ (Alerts.lastVolumes state !! Markets.address t = None ->
          ofType Alerts.volume_spike (emittedFor alertConfig now state pre t) = [])).
Proof.
  cbv zeta. set (cfg := Alerts.resolveConfig defaultConfig config).
  split; [apply checkAlerts_split |]. split; [apply emittedFor_skipped |].
  intros Hnd Hw. unfold volumeRuleAsStated.
  rewrite (spikes_from_initial cfg now state pre t post Hnd Hw).
  pose proof (volumeAlert_cases cfg now state t) as Hcases.
  destruct (Alerts.lastVolumes state !! Markets.address t) as [prev |] eqn:Eprev.
  - cbv zeta in Hcases. destruct Hcases as (Hnonpos & Hbelow & Hreach).
    split; [split |].
    + intros Hne. exists prev. split; [reflexivity |].
      destruct (Qlt_le_dec 0 prev) as [Hpos | Hle]; [exact Hpos |].
      contradiction Hne. apply Hnonpos. lra.
    + intros prev' [= <-] Hpos.
      destruct (Double.ge (volumeChangeFrom prev t)
                  (Double.Finite (Alerts.volumeSpikeThreshold cfg))) eqn:Ethr.
      * destruct (Hreach Hpos eq_refl) as (a & -> & Hval & _).
        split; [split; [reflexivity | discriminate] |].
        repeat constructor. exact Hval.
      * rewrite (Hbelow Hpos eq_refl).
        split; [split; [intros H; now contradiction H | discriminate] |].
        constructor.
    + discriminate.
  - rewrite Hcases. split; [split |].
    + intros Hne. now contradiction Hne.
    + discriminate.
    + reflexivity.
Qed.

Lemma distinct_single (t : Markets.TokenMarketData) : distinctAddresses [t].
Proof.
  unfold distinctAddresses. simpl. constructor; [intros [] | constructor].
Defined.

Lemma C2_volume_spike_requires_history_witness :
  let first := Alerts.checkAlerts Config.defaultConfig None scenarioA 0%Z
                 (Alerts.resetAlertState 0%Z) in
  let t := record "ETH" "0x1" 3000 0 4000000 false in
  Alerts.lastVolumes (snd first) !! "0x1" = Some 1000000
  /\ volumeRuleAsStated (Alerts.resolveConfig Config.defaultConfig None) 1%Z
       (snd first) [] t.
Proof.
  split; [reflexivity |].
  apply (C2_volume_spike_requires_history Config.defaultConfig None []
           (record "ETH" "0x1" 3000 0 4000000 false) [] 1%Z
           (snd (Alerts.checkAlerts Config.defaultConfig None scenarioA 0%Z
                   (Alerts.resetAlertState 0%Z)))).
  - apply distinct_single.
  - reflexivity.
Defined.

(** C2 as stated fails: a first call under the default configuration records
    a volume of 1000000 for the address [0x1], then listed as ETH; in the
    second call the same address comes as WETH, which the default watchlist
    does not list, with a volume of 4000000, a change of 300 percent against
    a threshold of 200, and no [volume_spike] is emitted. *)
Lemma C2_counterexample :
  let alertConfig := Alerts.resolveConfig Config.defaultConfig None in
  let first := Alerts.checkAlerts Config.defaultConfig None
                 [record "ETH" "0x1" 3000 0 1000000 true] 0%Z
                 (Alerts.resetAlertState 0%Z) in
  ~ volumeRuleAsStated alertConfig 1%Z (snd first) []
      (record "WETH" "0x1" 3000 0 4000000 true).
Proof.
  cbv zeta. unfold volumeRuleAsStated. intros [_ H].
  destruct (H 1000000) as [[_ Hemit] _].
  - reflexivity.
  - reflexivity.
  - apply Hemit; [| reflexivity]. vm_compute. reflexivity.
Qed.

(** C3 (amended).  On a batch of pairwise distinct addresses, for a record
    that passes the watchlist gate, a [new_token] alert is emitted iff the
    record's address is absent from the incoming [knownTokens] and the
    record is verified.  For every batch and record: a [new_token] alert has
    severity [medium], value 0 and threshold 0; an unverified record never
    triggers one, nor does a record that the watchlist gate excludes; and
    after a call that processed an address, no later call
    emits [new_token] for a record with that address. *)
Theorem C3_new_token_gating (defaultConfig : Config.SmairaConfig)
    (config : option Alerts.PartialAlertConfig)
    (pre : list Markets.TokenMarketData) (t : Markets.TokenMarketData)
    (post : list Markets.TokenMarketData) (now : Date)
    (state : Alerts.AlertState) :
  let alertConfig := Alerts.resolveConfig defaultConfig config in
  let tokens := pre ++ t :: post in
  let result := Alerts.checkAlerts defaultConfig config tokens now state in
  (distinctAddresses tokens -> watched alertConfig t ->
   newTokenRuleAsStated alertConfig now state pre t)
  /\ fst result
     = fst (Alerts.checkAlerts defaultConfig config pre now state)
       ++ emittedFor alertConfig now state pre t
       ++ fst (Alerts.checkLoop alertConfig now post
                 ([], stateBefore alertConfig now state (pre ++ [t])))
  /\ Forall (fun a => Alerts.severity a = Alerts.medium
                      /\ Alerts.value a = Double.Finite 0
                      /\ Alerts.threshold a = 0)
       (ofType Alerts.new_token (emittedFor alertConfig now state pre t))
  /\ (Markets.verified t = false ->
      ofType Alerts.new_token (emittedFor alertConfig now state pre t) = [])
  /\ (Alerts.skipped alertConfig t = true ->
      emittedFor alertConfig now state pre t = [])
  /\ (forall config' now' pre' t',
        In (Markets.address t') (map Markets.address (processed alertConfig tokens)) ->
        ofType Alerts.new_token
          (emittedFor (Alerts.resolveConfig defaultConfig config') now'
             (snd result) pre' t') = []).
Proof.
  cbv zeta. set (cfg := Alerts.resolveConfig defaultConfig config).
  assert (Hnew : forall c n s p u,
    ofType Alerts.new_token (emittedFor c n s p u) = []
    \/ ofType Alerts.new_token (emittedFor c n s p u)
       = Alerts.newTokenAlert n (stateBefore c n s p) u).
  { intros c n s p u. destruct (Alerts.skipped c u) eqn:E.
    - left. now rewrite emittedFor_skipped.
    - right. now rewrite (emittedFor_watched _ _ _ _ _ E), ofType_new_token. }
  split; [| split; [apply checkAlerts_split | split; [| split; [| split]]]];
    [| | | apply emittedFor_skipped |].
  - intros Hnd Hw. unfold newTokenRuleAsStated.
    rewrite (emittedFor_watched _ _ _ _ _ Hw), ofType_new_token.
    rewrite newTokenAlert_emitted.
    destruct (stateBefore_agree cfg now state pre t post Hnd) as (_ & _ & Hk).
    unfold not. rewrite Hk. reflexivity.
  - destruct (Hnew cfg now state pre t) as [-> | ->];
      [constructor | apply newTokenAlert_fields].
  - intros Hunv. destruct (Hnew cfg now state pre t) as [-> | ->]; [reflexivity |].
    unfold Alerts.newTokenAlert. rewrite Hunv. now rewrite andb_false_r.
  - intros config' now' pre' t' Hin.
    destruct (Hnew (Alerts.resolveConfig defaultConfig config') now'
                (snd (Alerts.checkAlerts defaultConfig config
                        (pre ++ t :: post) now state)) pre' t')
      as [-> | ->]; [reflexivity |].
    unfold Alerts.newTokenAlert.
    rewrite bool_decide_eq_true_2; [reflexivity |].
    unfold stateBefore. apply checkLoop_known_mono.
    unfold Alerts.checkAlerts. simpl. now apply checkLoop_known.
Qed.

Lemma C3_new_token_gating_witness :
  let t := record "ETH" "0x1" 3000 0 1000000 true in
  newTokenRuleAsStated (Alerts.resolveConfig Config.defaultConfig None) 0%Z
    (Alerts.resetAlertState 0%Z) [] t
  /\ ofType Alerts.new_token
       (emittedFor (Alerts.resolveConfig Config.defaultConfig None) 1%Z
          (snd (Alerts.checkAlerts Config.defaultConfig None [t] 0%Z
                  (Alerts.resetAlertState 0%Z))) [] t) = [].
Proof.
  pose proof (C3_new_token_gating Config.defaultConfig None []
                (record "ETH" "0x1" 3000 0 1000000 true) [] 0%Z
                (Alerts.resetAlertState 0%Z)) as (Hrule & _ & _ & _ & _ & Hagain).
  split.
  - apply Hrule; [apply distinct_single | reflexivity].
  - apply (Hagain None). left. reflexivity.
Defined.

(** C3 as stated fails: from the empty state and under the default
    configuration, the verified record DOGE has an address that is not
    known, and no [new_token] is emitted for it, as the default watchlist
    does not list DOGE. *)
Lemma C3_counterexample :
  let alertConfig := Alerts.resolveConfig Config.defaultConfig None in
  ~ newTokenRuleAsStated alertConfig 0%Z (Alerts.resetAlertState 0%Z) []
      (record "DOGE" "0x9" 1 0 1000000 true).
Proof.
  cbv zeta. unfold newTokenRuleAsStated. intros [_ H].
  apply H; [| reflexivity]. split; [| reflexivity].
  simpl. apply not_elem_of_empty.
Qed.

(** The change of Scenario B is 300 exactly: no operation rounds. *)
Lemma scenario_B_change prev t :
  prev == 1000000 -> Markets.volume24h t == 4000000 ->
  volumeChangeFrom prev t = Double.Finite 300.
Proof.
  intros Hp Hv. unfold volumeChangeFrom.
  rewrite sub_finite, (round_compat _ 3000000) by (rewrite Hp, Hv; reflexivity).
  replace (Double.round 3000000) with (Double.Finite 3000000)
    by (vm_compute; reflexivity).
  rewrite div_finite; [| discriminate | rewrite Hp; discriminate].
  rewrite (round_compat _ 3) by (rewrite Hp; reflexivity).
  vm_compute. reflexivity.
Qed.

(** C5 (amended).  Every [volume_spike] a detection call returns has a value
    that has reached its threshold, and its severity is [high] iff the value
    is above 500, [medium] iff it is above 300 and not above 500, and [low]
    iff it is not above 300.  Scenario B: on a batch of pairwise distinct
    addresses, for a record that passes the watchlist gate, when the
    incoming state holds a volume of 1000000 for the record's address, the
    record comes with a volume of 4000000 and the spike threshold is 200,
    exactly one [volume_spike] is emitted for the record; its value is 300
    and, 300 not being above 300, its severity is [low].  A record that the
    watchlist gate excludes gets no alert. *)
Theorem C5_scenario_B (defaultConfig : Config.SmairaConfig)
    (config : option Alerts.PartialAlertConfig)
    (pre : list Markets.TokenMarketData) (t : Markets.TokenMarketData)
    (post : list Markets.TokenMarketData) (now : Date)
    (state : Alerts.AlertState) :
  let alertConfig := Alerts.resolveConfig defaultConfig config in
  let tokens := pre ++ t :: post in
  (forall a,
     In a (fst (Alerts.checkAlerts defaultConfig config tokens now state)) ->
     Alerts.type a = Alerts.volume_spike ->
     (Alerts.severity a = Alerts.high
      <-> Double.gt (Alerts.value a) (Double.Finite 500) = true)
     /\ (Alerts.severity a = Alerts.medium
         <-> Double.gt (Alerts.value a) (Double.Finite 500) = false
             /\ Double.gt (Alerts.value a) (Double.Finite 300) = true)
     /\ (Alerts.severity a = Alerts.low
         <-> Double.gt (Alerts.value a) (Double.Finite 300) = false)
     /\ Double.ge (Alerts.value a) (Double.Finite (Alerts.threshold a)) = true
     /\ Alerts.threshold a = Alerts.volumeSpikeThreshold alertConfig)
  /\ (distinctAddresses tokens -> watched alertConfig t ->
      scenarioBAsStated alertConfig now state pre t)
  /\ (Alerts.skipped alertConfig t = true ->
      emittedFor alertConfig now state pre t = []).
Proof.
  cbv zeta. set (cfg := Alerts.resolveConfig defaultConfig config).
  split; [| split; [| apply emittedFor_skipped]].
  - intros a Ha Hty. unfold Alerts.checkAlerts in Ha. simpl in Ha. fold cfg in Ha.
    destruct (checkLoop_alert_origin cfg now (pre ++ t :: post) state a Ha)
      as (u & s & _ & _ & Hin).
    apply tokenAlerts_volume in Hin; [| exact Hty].
    exact (volumeAlert_severity cfg now s u a Hin).
  - intros Hnd Hw. unfold scenarioBAsStated. intros Hprev Hv Hthr.
    rewrite (spikes_from_initial cfg now state pre t post Hnd Hw).
    pose proof (volumeAlert_cases cfg now state t) as Hcases.
    rewrite Hprev in Hcases. cbv zeta in Hcases.
    destruct Hcases as (_ & _ & Hreach).
    rewrite (scenario_B_change 1000000 t (Qeq_refl _) Hv) in Hreach.
    destruct Hreach as (a & Ha & Hval & _ & Hsev).
    + reflexivity.
    + unfold Double.ge, Double.lt, Double.real.
      apply negb_true_iff, ltb_false. rewrite Hthr. discriminate.
    + exists a. split; [exact Ha |]. split; [exact Hval |]. exact Hsev.
Qed.

Lemma C5_scenario_B_witness :
  let first := Alerts.checkAlerts Config.defaultConfig None scenarioA 0%Z
                 (Alerts.resetAlertState 0%Z) in
  let t := record "ETH" "0x1" 3000 0 4000000 false in
  Alerts.lastVolumes (snd first) !! "0x1" = Some 1000000
  /\ fst (Alerts.checkAlerts Config.defaultConfig None [t] 1%Z (snd first))
     = emittedFor (Alerts.resolveConfig Config.defaultConfig None) 1%Z (snd first) [] t
  /\ exists a,
       ofType Alerts.volume_spike
         (emittedFor (Alerts.resolveConfig Config.defaultConfig None) 1%Z
            (snd first) [] t) = [a]
       /\ Alerts.value a = Double.Finite 300
       /\ Alerts.severity a = Alerts.low.
Proof.
  split; [reflexivity |]. split; [reflexivity |].
  apply (proj1 (proj2 (C5_scenario_B Config.defaultConfig None []
                         (record "ETH" "0x1" 3000 0 4000000 false) [] 1%Z
                         (snd (Alerts.checkAlerts Config.defaultConfig None scenarioA 0%Z
                                 (Alerts.resetAlertState 0%Z)))))).
  - apply distinct_single.
  - reflexivity.
  - reflexivity.
  - reflexivity.
  - reflexivity.
Defined.

(** C5 as stated fails: a first call under the default configuration records
    a volume of 1000000 for [0x1]; the second call is made with a spike
    threshold of 200 and a watchlist that holds STRK only, and observes a
    volume of 4000000 for [0x1], still listed as ETH.  The record is not
    watched, and no [volume_spike] is emitted. *)
Lemma C5_counterexample :
  let first := Alerts.checkAlerts Config.defaultConfig None scenarioA 0%Z
                 (Alerts.resetAlertState 0%Z) in
  let narrowed :=
    {| Alerts.optPriceChangeThreshold := None;
       Alerts.optVolumeSpikeThreshold := Some 200;
       Alerts.optWatchlist := Some ["STRK"] |} in
  ~ scenarioBAsStated (Alerts.resolveConfig Config.defaultConfig (Some narrowed))
      1%Z (snd first) [] (record "ETH" "0x1" 3000 0 4000000 false).
Proof.
  cbv zeta. unfold scenarioBAsStated. intros H.
  destruct H as (a & Ha & _); [reflexivity | reflexivity | reflexivity |].
  discriminate Ha.
Qed.

(** ** The alert report *)

(** After the grouping loop, the array under a key holds the alerts of that
    type that were pushed, behind those it held before, in input order. *)
Lemma fold_pushByType alerts byType ty :
  Alerts.orDefault (fold_left Alerts.pushByType alerts byType ty) []
  = Alerts.orDefault (byType ty) [] ++ ofType ty alerts.
Proof.
  revert byType. induction alerts as [| a l IH]; intros byType; simpl.
  - now rewrite app_nil_r.
  - rewrite IH. unfold Alerts.pushByType.
    destruct (decide (ty = Alerts.type a)) as [-> | Hne]; simpl.
    + rewrite bool_decide_eq_true_2 by reflexivity.
      now rewrite <- app_assoc.
    + rewrite bool_decide_eq_false_2 by congruence. reflexivity.
Qed.

Lemma groupByType_ofType alerts ty :
  Alerts.orDefault (Alerts.groupByType alerts ty) [] = ofType ty alerts.
Proof. unfold Alerts.groupByType. now rewrite fold_pushByType. Qed.

Lemma pushSection_sectionOf alerts ty :
  Alerts.pushSection (Alerts.groupByType alerts) ty = sectionOf ty alerts.
Proof.
  unfold Alerts.pushSection, sectionOf, Alerts.hasLength.
  rewrite <- groupByType_ofType.
  destruct (Alerts.groupByType alerts ty) as [[| a g] |]; reflexivity.
Qed.

Lemma title_not_bullet ty ty' a : Alerts.title ty <> Alerts.bullet ty' a.
Proof. destruct ty, ty'; discriminate. Qed.

Lemma title_injective ty ty' : Alerts.title ty = Alerts.title ty' -> ty = ty'.
Proof. destruct ty, ty'; reflexivity || discriminate. Qed.

Lemma title_in_section ty ty' alerts :
  In (Alerts.title ty) (sectionOf ty' alerts) <-> ty = ty' /\ ofType ty' alerts <> [].
Proof.
  unfold sectionOf. destruct (ofType ty' alerts) as [| a g]; simpl.
  - split; [intros [] | intros [_ H]; now contradiction H].
  - split.
    + intros [H | [H | H]].
      * split; [symmetry; now apply title_injective | discriminate].
      * symmetry in H. now apply title_not_bullet in H.
      * apply in_app_or in H. destruct H as [H | [H | []]].
        -- apply in_map_iff in H. destruct H as (b & H & _).
           symmetry in H. now apply title_not_bullet in H.
        -- destruct ty; discriminate H.
    + intros [-> _]. now left.
Qed.

(** C9.  The alert formatter renders the empty list as the single line
    [No active alerts.]; for a non-empty list it renders the heading lines
    followed by one sub-section per non-empty group, in the fixed order
    price_surge, price_drop, volume_spike, new_token, each sub-section being
    its header, one bullet per alert of the group in input order and a blank
    line; the header of a type is among the lines iff the list holds an
    alert of that type.  The formatter is total: it returns a text for every
    list. *)
Theorem C9_format_alerts (alerts : list Alerts.Alert) (generated : string) :
  Alerts.formatAlerts [] generated = "No active alerts."
  /\ Alerts.formatAlerts alerts generated
     = match alerts with
       | [] => "No active alerts."
       | _ => Str.join Alerts.newline (reportLines alerts generated)
       end
  /\ Alerts.alertLines alerts generated = reportLines alerts generated
  /\ forall ty, In (Alerts.title ty) (Alerts.alertLines alerts generated)
                <-> exists a, In a alerts /\ Alerts.type a = ty.
Proof.
  assert (Hlines : Alerts.alertLines alerts generated = reportLines alerts generated).
  { unfold Alerts.alertLines, reportLines, displayOrder. simpl.
    rewrite !pushSection_sectionOf, app_nil_r. reflexivity. }
  split; [reflexivity |]. split; [| split; [exact Hlines |]].
  - unfold Alerts.formatAlerts. rewrite Hlines. now destruct alerts.
  - intros ty. rewrite Hlines. unfold reportLines, displayOrder.
    assert (Hgroup : ofType ty alerts <> [] <-> exists a, In a alerts /\ Alerts.type a = ty).
    { split.
      - destruct (ofType ty alerts) as [| a g] eqn:E; [intros H; now contradiction H |].
        intros _. exists a. apply ofType_In. rewrite E. now left.
      - intros (a & Ha) Hnil. apply ofType_In in Ha. rewrite Hnil in Ha. exact Ha. }
    rewrite <- Hgroup. simpl. rewrite app_nil_r, !in_app_iff, !title_in_section.
    split.
    + intros [H | [H | [H | [H | [[-> H] | [[-> H] | [[-> H] | [-> H]]]]]]]];
        try exact H; destruct ty; discriminate H.
    + intros H. do 4 right. destruct ty; tauto.
Qed.

Lemma C9_format_alerts_witness :
  let surge := {| Alerts.type := Alerts.price_surge; Alerts.symbol := "ETH";
                  Alerts.message := "ETH surged 6.20% in 24h";
                  Alerts.value := Double.Finite (62 # 10); Alerts.threshold := 5;
                  Alerts.timestamp := 0%Z; Alerts.severity := Alerts.low |} in
  Alerts.alertLines [surge] "T"
  = ["# 🚨 Smaira Alerts"; ""; "Generated: T"; "";
     "## 📈 Price Surges"; "- **ETH**: +6.20%"; ""]
  /\ In (Alerts.title Alerts.price_surge) (Alerts.alertLines [surge] "T")
  /\ ~ In (Alerts.title Alerts.new_token) (Alerts.alertLines [surge] "T").
Proof.
  cbv zeta. split; [reflexivity |]. split.
  - apply C9_format_alerts. eexists. split; [now left | reflexivity].
  - intros H. apply C9_format_alerts in H.
    destruct H as (a & [<- | []] & Hty). discriminate Hty.
Defined.

(** ** The scenarios of the specification, evaluated *)

Example toFixed_two_places : Num.toFixed (62 # 10) 2 = "6.20".
Proof. reflexivity. Qed.

Example toFixed_rounds_half_up : Num.toFixed (5 # 1000) 2 = "0.01".
Proof. reflexivity. Qed.

Example toFixed_negative : Num.toFixed (- (3 # 1)) 2 = "-3.00".
Proof. reflexivity. Qed.

Example toFixed_no_places : Num.toFixed (2995 # 10) 0 = "300".
Proof. reflexivity. Qed.

(** From a volume of 100 to 157 the change is 57 percent in the reals and
    [56.99999999999999] as the code computes it: against a threshold of 57
    no [volume_spike] is emitted. *)
Example rounded_change_below_threshold :
  let alertConfig :=
    {| Alerts.priceChangeThreshold := 5; Alerts.volumeSpikeThreshold := 57;
       Alerts.watchlist := None |} in
  let state := Alerts.updateState (Alerts.resetAlertState 0%Z)
                 (record "ETH" "0x1" 1 0 100 true) in
  volumeChangeFrom 100 (record "ETH" "0x1" 1 0 157 true)
  = ofFloat 0x1.c7fffffffffffp+5
  /\ Alerts.volumeAlert alertConfig 1%Z state (record "ETH" "0x1" 1 0 157 true) = [].
Proof. split; vm_compute; reflexivity. Qed.

(** From a volume of [0.1] to [0.4] the change is [300.00000000000006]:
    above 300, so the severity is [medium]. *)
Example rounded_change_above_300 :
  let alertConfig :=
    {| Alerts.priceChangeThreshold := 5; Alerts.volumeSpikeThreshold := 200;
       Alerts.watchlist := None |} in
  let state := Alerts.updateState (Alerts.resetAlertState 0%Z)
                 (record "ETH" "0x1" 1 0 (Double.literal (1 # 10)) true) in
  map (fun a => (Alerts.value a, Alerts.severity a))
    (Alerts.volumeAlert alertConfig 1%Z state
       (record "ETH" "0x1" 1 0 (Double.literal (4 # 10)) true))
  = [(ofFloat 0x1.2c00000000001p+8, Alerts.medium)].
Proof. vm_compute. reflexivity. Qed.

(** A change that overflows: the alert carries [Infinity], and the report
    prints it. *)
Example overflowing_change :
  let alertConfig :=
    {| Alerts.priceChangeThreshold := 5; Alerts.volumeSpikeThreshold := 200;
       Alerts.watchlist := None |} in
  let tiny := Double.literal (1 # 10 ^ 300) in
  let huge := Double.literal (inject_Z (10 ^ 300)) in
  let state := Alerts.updateState (Alerts.resetAlertState 0%Z)
                 (record "ETH" "0x1" 1 0 tiny true) in
  map (fun a => (Alerts.value a, Alerts.severity a, Alerts.message a))
    (Alerts.volumeAlert alertConfig 1%Z state (record "ETH" "0x1" 1 0 huge true))
  = [(Double.Infinity false, Alerts.high, "ETH volume spiked Infinity%")].
Proof. vm_compute. reflexivity. Qed.

(** Scenario A: one alert, [price_surge] for ETH, severity [low]. *)
Example scenario_A_alerts :
  fst (Alerts.checkAlerts Config.defaultConfig None scenarioA 0%Z
         (Alerts.resetAlertState 0%Z))
  = [ {| Alerts.type := Alerts.price_surge; Alerts.symbol := "ETH";
         Alerts.message := "ETH surged 6.20% in 24h";
         Alerts.value := Double.Finite (62 # 10); Alerts.threshold := 5;
         Alerts.timestamp := 0%Z; Alerts.severity := Alerts.low |} ].
Proof. reflexivity. Qed.

(** Scenario C: the snapshot of the empty batch. *)
Example scenario_C_empty_snapshot :
  Markets.getMarketSnapshot Config.defaultConfig [] 0%Z
  = {| Markets.timestamp := 0%Z; Markets.network := "mainnet";
       Markets.tokenCount := 0; Markets.totalVolume24h := Double.Finite 0;
       Markets.topByVolume := []; Markets.topGainers := [];
       Markets.topLosers := []; Markets.watchlist := [] |}.
Proof. reflexivity. Qed.

(** The report of the alerts of Scenario A followed by those of Scenario B. *)
Example scenario_report :
  let first := Alerts.checkAlerts Config.defaultConfig None scenarioA 0%Z
                 (Alerts.resetAlertState 0%Z) in
  let second := Alerts.checkAlerts Config.defaultConfig None
                  [record "ETH" "0x1" 3000 0 4000000 false] 1%Z (snd first) in
  Alerts.alertLines (fst first ++ fst second) "2026-01-01T00:00:00.000Z"
  = [ "# 🚨 Smaira Alerts"; ""; "Generated: 2026-01-01T00:00:00.000Z"; "";
      "## 📈 Price Surges"; "- **ETH**: +6.20%"; "";
      "## 📊 Volume Spikes"; "- **ETH**: +300% volume"; "" ].
Proof. reflexivity. Qed.

(** * Further properties of the code *)

(** ** Rankings *)

Lemma sorted_app_order {A} (R : A -> A -> Prop) (l1 l2 : list A) :
  StronglySorted R (l1 ++ l2) -> forall x y, In x l1 -> In y l2 -> R x y.
Proof.
  induction l1 as [| a l1 IH]; simpl; intros Hs x y Hx Hy; [destruct Hx |].
  apply StronglySorted_inv in Hs. destruct Hs as [Hs Ha].
  destruct Hx as [<- | Hx].
  - rewrite List.Forall_forall in Ha. apply Ha, in_or_app. now right.
  - now apply IH.
Qed.

(** The first [n] elements of a list in descending order of [key] are its
    top elements. *)
Lemma slice0_topOf {A} (key : A -> Q) n (l : list A) :
  StronglySorted (descending key) l -> topOf key l (Arr.slice0 n l).
Proof.
  unfold topOf, Arr.slice0. intros Hs t u Ht Hnot Hu.
  rewrite <- (firstn_skipn n l) in Hs, Ht.
  apply in_app_or in Ht. destruct Ht as [Ht | Ht]; [contradiction |].
  exact (sorted_app_order _ _ _ Hs u t Hu Ht).
Qed.

Lemma topOf_pool {A} (key : A -> Q) (pool pool' top : list A) :
  (forall t, In t pool' -> In t pool) -> topOf key pool top -> topOf key pool' top.
Proof. unfold topOf. intros Hsub H t u Ht. apply H. now apply Hsub. Qed.

Lemma slice0_all {A} n (l : list A) :
  (length l <= n)%nat -> Arr.slice0 n l = l.
Proof. unfold Arr.slice0. apply firstn_all2. Qed.

Lemma slice0_exact_length {A} n (l : list A) :
  length (Arr.slice0 n l) = Nat.min n (length l).
Proof. unfold Arr.slice0. apply length_firstn. Qed.

Lemma sort_length {A} (cmp : A -> A -> Q) (l : list A) :
  length (Arr.sort cmp l) = length l.
Proof. apply Permutation_length, sort_perm. Qed.

(** X1.  [topByVolume] holds the active records (volume above 0) of the 20
    largest volumes, in descending order of volume: it has
    [min 20 (number of active records)] entries, every entry is an active
    record of the batch, no active record left out has a volume above that
    of an entry, and with at most 20 active records it is a rearrangement
    of all of them. *)
Theorem X1_top_by_volume (config : Config.SmairaConfig)
    (tokens : list Markets.TokenMarketData) (now : Date) :
  let top := Markets.topByVolume (Markets.getMarketSnapshot config tokens now) in
  Forall (fun t => In t tokens /\ 0 < Markets.volume24h t) top
  /\ StronglySorted (descending Markets.volume24h) top
  /\ length top = Nat.min 20 (length (Markets.activeTokens tokens))
  /\ topOf Markets.volume24h (Markets.activeTokens tokens) top
  /\ ((length (Markets.activeTokens tokens) <= 20)%nat ->
      Permutation top (Markets.activeTokens tokens)).
Proof.
  cbv zeta. simpl.
  set (byVolume := Arr.sort _ (Markets.activeTokens tokens)).
  assert (Hsorted : StronglySorted (descending Markets.volume24h) byVolume).
  { apply sort_sorted. intros a b. reflexivity. }
  split; [| split; [| split; [| split]]].
  - rewrite List.Forall_forall. intros t Ht.
    apply slice0_In, sort_In, activeTokens_In in Ht. exact Ht.
  - now apply slice0_sorted.
  - rewrite slice0_exact_length. unfold byVolume. now rewrite sort_length.
  - apply (topOf_pool _ byVolume).
    + intros t Ht. now apply sort_In.
    + now apply slice0_topOf.
  - intros Hfew. rewrite slice0_all.
    + apply sort_perm.
    + unfold byVolume. now rewrite sort_length.
Qed.

Lemma X1_top_by_volume_witness :
  map Markets.symbol
    (Markets.topByVolume (Markets.getMarketSnapshot Config.defaultConfig scenarioA 0%Z))
  = ["ETH"; "STRK"]
  /\ Permutation
       (Markets.topByVolume (Markets.getMarketSnapshot Config.defaultConfig scenarioA 0%Z))
       (Markets.activeTokens scenarioA).
Proof.
  split; [reflexivity |].
  apply (X1_top_by_volume Config.defaultConfig scenarioA 0%Z).
  simpl. lia.
Defined.

(** X2.  [topGainers] holds the largest rises among the active records with
    a positive change, and [topLosers] the deepest falls among those with a
    negative change: no such record left out of the list rises more
    (falls deeper) than an entry, and with at most 10 candidates every
    candidate is listed. *)
Theorem X2_top_movers (config : Config.SmairaConfig)
    (tokens : list Markets.TokenMarketData) (now : Date) :
  let s := Markets.getMarketSnapshot config tokens now in
  let gainers :=
    List.filter (fun t => Num.gtb (Markets.priceChange24h t) 0)
      (Markets.activeTokens tokens) in
  let losers :=
    List.filter (fun t => Num.ltb (Markets.priceChange24h t) 0)
      (Markets.activeTokens tokens) in
  topOf Markets.priceChange24h gainers (Markets.topGainers s)
  /\ topOf (fun t => - Markets.priceChange24h t) losers (Markets.topLosers s)
  /\ length (Markets.topGainers s) = Nat.min 10 (length gainers)
  /\ length (Markets.topLosers s) = Nat.min 10 (length losers)
  /\ (forall t, In t gainers -> (length gainers <= 10)%nat ->
                In t (Markets.topGainers s))
  /\ (forall t, In t losers -> (length losers <= 10)%nat ->
                In t (Markets.topLosers s)).
Proof.
  cbv zeta. simpl.
  set (gainers := List.filter _ (Markets.activeTokens tokens)).
  set (losers := List.filter (fun t => Num.ltb _ 0) (Markets.activeTokens tokens)).
  split; [| split; [| split; [| split; [| split]]]].
  - apply (topOf_pool _ (Arr.sort (fun a b =>
             Markets.priceChange24h b - Markets.priceChange24h a) gainers)).
    + intros t Ht. now apply sort_In.
    + apply slice0_topOf, sort_sorted. intros a b. reflexivity.
  - apply (topOf_pool _ (Arr.sort (fun a b =>
             Markets.priceChange24h a - Markets.priceChange24h b) losers)).
    + intros t Ht. now apply sort_In.
    + apply slice0_topOf, sort_sorted. intros a b. ring.
  - now rewrite slice0_exact_length, sort_length.
  - now rewrite slice0_exact_length, sort_length.
  - intros t Ht Hfew. rewrite slice0_all by now rewrite sort_length.
    now apply sort_In.
  - intros t Ht Hfew. rewrite slice0_all by now rewrite sort_length.
    now apply sort_In.
Qed.

Lemma toInteger_nonneg (c : Q) : 0 <= c -> (0 <= Arr.toInteger c)%Z.
Proof.
  intros Hc. unfold Arr.toInteger.
  rewrite (proj2 (ltb_false c 0) Hc).
  change 0%Z with (Qfloor 0). now apply Qfloor_resp_le.
Qed.

Lemma sliceTo_prefix {A} (c : Q) (l : list A) :
  exists n, Arr.sliceTo c l = firstn n l.
Proof. unfold Arr.sliceTo. eexists. reflexivity. Qed.

Lemma sliceTo_length_nonneg {A} (c : Q) (l : list A) :
  0 <= c ->
  length (Arr.sliceTo c l) = Nat.min (Z.to_nat (Arr.toInteger c)) (length l).
Proof.
  intros Hc. pose proof (toInteger_nonneg c Hc) as Hn. unfold Arr.sliceTo.
  rewrite (proj2 (Z.ltb_ge _ _) Hn), length_firstn. lia.
Qed.

Lemma sliceTo_length_negative {A} (c : Q) (l : list A) :
  (Arr.toInteger c < 0)%Z ->
  length (Arr.sliceTo c l) = (length l - Z.to_nat (- Arr.toInteger c))%nat.
Proof.
  intros Hn. unfold Arr.sliceTo.
  rewrite (proj2 (Z.ltb_lt _ _) Hn), length_firstn. lia.
Qed.

Lemma firstn_sorted {A} (R : A -> A -> Prop) n (l : list A) :
  StronglySorted R l -> StronglySorted R (firstn n l).
Proof. apply slice0_sorted. Qed.

(** X3.  [getTopByVolume(count)] returns a leading part of [topByVolume],
    so never more than 20 records however large [count] is, in descending
    order of volume.  For [count >= 0] it returns the first [floor(count)]
    entries (all of them if there are fewer), by default the first 10.  For
    [count <= -1] it drops the last [-ceiling(count)] entries instead, and
    for [-1 < count < 1] it returns nothing. *)
Theorem X3_get_top_by_volume (config : Config.SmairaConfig)
    (tokens : list Markets.TokenMarketData) (now : Date) (count : option Q) :
  let top := Markets.topByVolume (Markets.getMarketSnapshot config tokens now) in
  let result := Smaira.getTopByVolume config tokens now count in
  (exists n, result = firstn n top)
  /\ (length result <= 20)%nat
  /\ StronglySorted (descending Markets.volume24h) result
  /\ (count = None -> length result = Nat.min 10 (length top))
  /\ (forall c, count = Some c -> 0 <= c ->
        length result = Nat.min (Z.to_nat (Qfloor c)) (length top))
  /\ (forall c, count = Some c -> c <= -1 ->
        length result = (length top - Z.to_nat (- Qceiling c))%nat)
  /\ (forall c, count = Some c -> -1 < c -> c < 1 -> result = []).
Proof.
  cbv zeta. unfold Smaira.getTopByVolume.
  set (top := Markets.topByVolume (Markets.getMarketSnapshot config tokens now)).
  assert (Htop : (length top <= 20)%nat) by apply slice0_length.
  assert (Hsorted : StronglySorted (descending Markets.volume24h) top).
  { unfold top. simpl. apply slice0_sorted, sort_sorted. intros a b. reflexivity. }
  destruct (sliceTo_prefix (Alerts.orDefault count 10) top) as [n Hn].
  split; [now exists n |]. split; [| split; [| split; [| split; [| split]]]].
  - rewrite Hn, length_firstn. lia.
  - rewrite Hn. now apply firstn_sorted.
  - intros ->. simpl Alerts.orDefault.
    rewrite sliceTo_length_nonneg by discriminate. reflexivity.
  - intros c -> Hc. simpl Alerts.orDefault.
    rewrite (sliceTo_length_nonneg c top Hc). unfold Arr.toInteger.
    now rewrite (proj2 (ltb_false c 0) Hc).
  - intros c -> Hc. simpl Alerts.orDefault.
    assert (Hceil : (Qceiling c < 0)%Z).
    { apply Qceiling_resp_le in Hc. change (Qceiling (-1)) with (-1)%Z in Hc. lia. }
    assert (Hneg : Num.ltb c 0 = true) by (apply ltb_true; lra).
    assert (Hint : Arr.toInteger c = Qceiling c).
    { unfold Arr.toInteger. now rewrite Hneg. }
    rewrite sliceTo_length_negative; rewrite Hint; [reflexivity | exact Hceil].
  - intros c -> Hlow Hhigh. simpl Alerts.orDefault.
    assert (Hint : Arr.toInteger c = 0%Z).
    { unfold Arr.toInteger. destruct (Num.ltb c 0) eqn:E.
      - apply ltb_true in E.
        assert (H0 : (Qceiling c <= 0)%Z).
        { change 0%Z with (Qceiling 0). apply Qceiling_resp_le. lra. }
        assert (H1 : (-1 < Qceiling c)%Z).
        { rewrite Zlt_Qlt. apply Qlt_le_trans with c; [exact Hlow | apply Qle_ceiling]. }
        lia.
      - apply ltb_false in E.
        assert (H0 : (0 <= Qfloor c)%Z).
        { change 0%Z with (Qfloor 0). now apply Qfloor_resp_le. }
        assert (H1 : (Qfloor c < 1)%Z).
        { rewrite Zlt_Qlt. apply Qle_lt_trans with c; [apply Qfloor_le | exact Hhigh]. }
        lia. }
    unfold Arr.sliceTo. rewrite Hint. simpl. now destruct (Z.of_nat (length top)).
Qed.

Lemma X3_get_top_by_volume_witness :
  map Markets.symbol
    (Smaira.getTopByVolume Config.defaultConfig scenarioA 0%Z (Some 100)) = ["ETH"; "STRK"]
  /\ map Markets.symbol
       (Smaira.getTopByVolume Config.defaultConfig scenarioA 0%Z (Some (-1))) = ["ETH"]
  /\ length (Smaira.getTopByVolume Config.defaultConfig scenarioA 0%Z (Some (3 # 2)))
     = Nat.min (Z.to_nat (Qfloor (3 # 2)))
         (length (Markets.topByVolume
                    (Markets.getMarketSnapshot Config.defaultConfig scenarioA 0%Z)))
  /\ Smaira.getTopByVolume Config.defaultConfig scenarioA 0%Z (Some (- (1 # 2))) = [].
Proof.
  pose proof (X3_get_top_by_volume Config.defaultConfig scenarioA 0%Z (Some (3 # 2)))
    as (_ & _ & _ & _ & Hfloor & _).
  pose proof (X3_get_top_by_volume Config.defaultConfig scenarioA 0%Z
                (Some (- (1 # 2))))
    as (_ & _ & _ & _ & _ & _ & Hnone).
  split; [reflexivity |]. split; [reflexivity |]. split.
  - apply Hfloor; [reflexivity | discriminate].
  - apply (Hnone (- (1 # 2))); reflexivity.
Defined.

(** ** The feed and the price lookup *)

Lemma find_firstMatch tokens sym t :
  firstMatch tokens sym t ->
  List.find (fun u => String.eqb (Str.toUpperCase (Markets.symbol u))
                        (Str.toUpperCase sym)) tokens = Some t.
Proof.
  intros (pre & post & -> & Ht & Hpre). apply find_first.
  exists pre, post. split; [reflexivity |]. split.
  - now apply String.eqb_eq.
  - intros u Hu. apply String.eqb_neq. now apply Hpre.
Qed.

(** X4.  An entry of the feed without its [starknet] block becomes a record
    of price 0, volume 0 and change 0.  The snapshot counts it in
    [tokenCount], lists it in none of the three rankings, and keeps it in
    the watchlist view when its symbol is watched; the price lookup answers
    [null] for a symbol whose first match it is. *)
Theorem X4_entry_without_market_data (config : Config.SmairaConfig)
    (rawData : list Markets.RawToken) (now : Date) (t : Markets.RawToken) :
  In t rawData ->
  Markets.starknet t = None ->
  let tokens := Markets.fetchMarketData rawData now in
  let r := Markets.normalize now t in
  let s := Markets.getMarketSnapshot config tokens now in
  In r tokens
  /\ Markets.priceUsd r = 0 /\ Markets.volume24h r = 0
  /\ Markets.priceChange24h r = 0
  /\ Markets.tokenCount s = length rawData
  /\ ~ In r (Markets.topByVolume s)
  /\ ~ In r (Markets.topGainers s)
  /\ ~ In r (Markets.topLosers s)
  /\ (In (Str.toUpperCase (Markets.rawSymbol t)) (Config.watchlist config) ->
      In r (Markets.watchlist s))
  /\ (forall sym, firstMatch tokens sym r -> Markets.getTokenPrice tokens sym = None).
Proof.
  intros Hin Hnone. cbv zeta.
  set (r := Markets.normalize now t).
  assert (Hr : In r (Markets.fetchMarketData rawData now)).
  { unfold Markets.fetchMarketData. now apply in_map. }
  assert (Hp : Markets.priceUsd r = 0) by (unfold r; simpl; now rewrite Hnone).
  assert (Hv : Markets.volume24h r = 0) by (unfold r; simpl; now rewrite Hnone).
  assert (Hc : Markets.priceChange24h r = 0) by (unfold r; simpl; now rewrite Hnone).
  assert (Hinactive : ~ In r (Markets.activeTokens (Markets.fetchMarketData rawData now))).
  { intros H. apply activeTokens_In in H. destruct H as [_ H].
    rewrite Hv in H. discriminate H. }
  repeat split; try assumption.
  - simpl. unfold Markets.fetchMarketData. apply length_map.
  - simpl. intros H. now apply slice0_In, sort_In in H.
  - simpl. intros H. apply slice0_In, sort_In, filter_In in H. tauto.
  - simpl. intros H. apply slice0_In, sort_In, filter_In in H. tauto.
  - intros Hw. simpl. apply filter_In. split; [exact Hr |].
    now apply includes_In.
  - intros sym Hfirst. unfold Markets.getTokenPrice.
    rewrite (find_firstMatch _ _ _ Hfirst), Hp. reflexivity.
Qed.

Lemma X4_entry_without_market_data_witness :
  let entry := {| Markets.rawSymbol := "eth"; Markets.rawName := "Ether";
                  Markets.rawAddress := "0x1"; Markets.starknet := None;
                  Markets.global := None; Markets.tags := Some ["AVNU"] |} in
  let tokens := Markets.fetchMarketData [entry] 0%Z in
  Markets.tokenCount (Markets.getMarketSnapshot Config.defaultConfig tokens 0%Z) = 1%nat
  /\ Markets.topByVolume (Markets.getMarketSnapshot Config.defaultConfig tokens 0%Z) = []
  /\ In (Markets.normalize 0%Z entry)
       (Markets.watchlist (Markets.getMarketSnapshot Config.defaultConfig tokens 0%Z)).
Proof.
  split; [reflexivity |]. split; [reflexivity |].
  apply (X4_entry_without_market_data Config.defaultConfig
           [ {| Markets.rawSymbol := "eth"; Markets.rawName := "Ether";
                Markets.rawAddress := "0x1"; Markets.starknet := None;
                Markets.global := None; Markets.tags := Some ["AVNU"] |} ] 0%Z
           {| Markets.rawSymbol := "eth"; Markets.rawName := "Ether";
              Markets.rawAddress := "0x1"; Markets.starknet := None;
              Markets.global := None; Markets.tags := Some ["AVNU"] |}).
  - left. reflexivity.
  - reflexivity.
  - left. reflexivity.
Defined.

(** ** comparePrices *)

Lemma dropNull_In {A} (l : list (option A)) (x : A) :
  In x (Arr.dropNull l) <-> In (Some x) l.
Proof.
  induction l as [| [y |] l IH]; simpl; [tauto | |].
  - rewrite IH. split; intros [H | H]; auto; left; congruence.
  - rewrite IH. split; [auto | intros [H | H]; [discriminate | exact H]].
Qed.

Lemma dropNull_length {A} (l : list (option A)) :
  (length (Arr.dropNull l) <= length l)%nat.
Proof. induction l as [| [y |] l IH]; simpl; lia. Qed.

Section SortByFacts.
Context {A : Type}.
Variable compareFn : A -> A -> Double.number.

Lemma insertBy_perm x l : Permutation (Arr.insertBy compareFn x l) (x :: l).
Proof.
  induction l as [| y l IH]; simpl; [reflexivity |].
  destruct (Double.gt (compareFn x y) (Double.Finite 0)); [| reflexivity].
  rewrite IH. apply perm_swap.
Qed.

Lemma sortBy_perm l : Permutation (Arr.sortBy compareFn l) l.
Proof.
  induction l as [| x l IH]; [reflexivity |].
  change (Arr.sortBy compareFn (x :: l))
    with (Arr.insertBy compareFn x (Arr.sortBy compareFn l)).
  rewrite insertBy_perm. now apply perm_skip.
Qed.

Lemma sortBy_In l x : In x (Arr.sortBy compareFn l) <-> In x l.
Proof.
  split; apply Permutation_in; [| symmetry]; apply sortBy_perm.
Qed.

Lemma sortBy_length l : length (Arr.sortBy compareFn l) = length l.
Proof. apply Permutation_length, sortBy_perm. Qed.

(** On elements whose keys are ordered numbers, a comparator that is above
    0 exactly when the key of its first argument is the smaller one sorts
    by descending key. *)
Variable key : A -> Double.number.
Variable ordered : A -> Prop.
Hypothesis key_ordered : forall a, ordered a -> key a <> Double.NaN.
Hypothesis compare_key :
  forall a b, ordered a -> ordered b ->
    Double.gt (compareFn a b) (Double.Finite 0) = Double.lt (key a) (key b).

Let descendingKey (a b : A) : Prop := Double.ge (key a) (key b) = true.

Lemma insertBy_sorted x l :
  ordered x -> Forall ordered l ->
  StronglySorted descendingKey l ->
  StronglySorted descendingKey (Arr.insertBy compareFn x l).
Proof.
  intros Hx Hl Hs. induction Hs as [| y l Hs IH Hy]; simpl.
  - repeat constructor.
  - apply Forall_cons_iff in Hl. destruct Hl as [Hoy Hl].
    rewrite (compare_key x y Hx Hoy).
    destruct (Double.lt (key x) (key y)) eqn:E.
    + constructor; [now apply IH |].
      rewrite List.Forall_forall. intros z Hz.
      apply (Permutation_in _ (insertBy_perm x l)) in Hz.
      destruct Hz as [<- | Hz].
      * now apply lt_ge.
      * rewrite List.Forall_forall in Hy. now apply Hy.
    + assert (Hxy : descendingKey x y).
      { apply ge_of_not_lt; [now apply key_ordered | now apply key_ordered | exact E]. }
      constructor; [now constructor |].
      constructor; [exact Hxy |].
      rewrite List.Forall_forall in Hy |- *. intros z Hz.
      exact (ge_trans _ _ _ Hxy (Hy z Hz)).
Qed.

Lemma sortBy_sorted l :
  Forall ordered l -> StronglySorted descendingKey (Arr.sortBy compareFn l).
Proof.
  induction l as [| x l IH]; intros Hl; [constructor |].
  apply Forall_cons_iff in Hl. destruct Hl as [Hx Hl].
  change (Arr.sortBy compareFn (x :: l))
    with (Arr.insertBy compareFn x (Arr.sortBy compareFn l)).
  apply insertBy_sorted; [exact Hx | | now apply IH].
  rewrite List.Forall_forall in Hl |- *. intros y Hy.
  now apply Hl, sortBy_In.
Qed.
End SortByFacts.

Lemma comparePrice_some prev c e :
  Markets.comparePrice prev c = Some e <->
  exists p, firstAt prev c p /\ ~ Markets.priceUsd p == 0 /\ e = comparison c p.
Proof.
  unfold Markets.comparePrice. split.
  - destruct (List.find _ prev) as [p |] eqn:E; [| discriminate].
    destruct (Qeq_bool (Markets.priceUsd p) 0) eqn:Ez; [discriminate |].
    intros [= <-]. exists p.
    apply find_first in E. destruct E as (pre & post & -> & Hp & Hpre).
    apply String.eqb_eq in Hp.
    split; [| split; [| reflexivity]].
    + exists pre, post. split; [reflexivity |]. split; [exact Hp |].
      intros u Hu. apply String.eqb_neq. now apply Hpre.
    + intros Hz. apply Qeq_bool_iff in Hz. congruence.
  - intros (p & (pre & post & -> & Hp & Hpre) & Hpriced & ->).
    assert (E : List.find (fun t => String.eqb (Markets.address t) (Markets.address c))
                  (pre ++ p :: post) = Some p).
    { apply find_first. exists pre, post. split; [reflexivity |].
      split; [now apply String.eqb_eq |].
      intros u Hu. apply String.eqb_neq. now apply Hpre. }
    rewrite E, (Qeq_bool_false _ Hpriced). reflexivity.
Qed.

Lemma comparePrice_none prev c :
  Markets.comparePrice prev c = None <->
  (exists p, firstAt prev c p /\ Markets.priceUsd p == 0)
  \/ (forall u, In u prev -> Markets.address u <> Markets.address c).
Proof.
  unfold Markets.comparePrice. split.
  - destruct (List.find _ prev) as [p |] eqn:E.
    + destruct (Qeq_bool (Markets.priceUsd p) 0) eqn:Ez; [| discriminate].
      intros _. left. exists p.
      apply find_first in E. destruct E as (pre & post & -> & Hp & Hpre).
      apply String.eqb_eq in Hp. split; [| now apply Qeq_bool_iff].
      exists pre, post. split; [reflexivity |]. split; [exact Hp |].
      intros u Hu. apply String.eqb_neq. now apply Hpre.
    + intros _. right. intros u Hu. apply String.eqb_neq.
      exact (proj1 (find_absent _ _) E u Hu).
  - intros [(p & (pre & post & -> & Hp & Hpre) & Hz) | Habsent].
    + assert (E : List.find (fun t => String.eqb (Markets.address t) (Markets.address c))
                    (pre ++ p :: post) = Some p).
      { apply find_first. exists pre, post. split; [reflexivity |].
        split; [now apply String.eqb_eq |].
        intros u Hu. apply String.eqb_neq. now apply Hpre. }
      rewrite E, (proj2 (Qeq_bool_iff _ _) Hz). reflexivity.
    + rewrite (proj2 (find_absent _ prev)); [reflexivity |].
      intros u Hu. apply String.eqb_neq. now apply Habsent.
Qed.

(** The array that [comparePrices] sorts is the one the specification
    describes. *)
Lemma compared_entries prev current :
  compared prev current (Arr.dropNull (map (Markets.comparePrice prev) current)).
Proof.
  induction current as [| c rest IH]; simpl; [constructor |].
  destruct (Markets.comparePrice prev c) as [e |] eqn:E.
  - apply comparePrice_some in E. destruct E as (p & Hp & Hpriced & ->).
    now apply compared_entry.
  - apply comparePrice_none in E. destruct E as [(p & Hp & Hz) | Habsent].
    + now apply (compared_unpriced _ c p).
    + now apply compared_absent.
Qed.

(** A change computed from a previous price other than 0 is an ordered
    number on the grid of the doubles. *)
Lemma priceChangeFrom_ordered p c :
  ~ p == 0 ->
  gridded (priceChangeFrom p c) /\ priceChangeFrom p c <> Double.NaN.
Proof.
  intros Hp. unfold priceChangeFrom. split; [apply mul_gridded |].
  apply mul_not_NaN; [| discriminate].
  apply div_not_NaN; [| exact Hp].
  rewrite sub_finite. apply round_not_NaN.
Qed.

(** X5.  [comparePrices] has one entry for each current record whose
    address is carried by a previous record, the first such record having a
    price other than 0; the entry holds the symbol, both prices and the
    change in percent of the previous price, [(current - previous) /
    previous * 100] with every operation rounded.  The entries come in
    descending order of the magnitude of the change, none of which is
    [NaN].  Current records without such a previous record are left out, so
    there are at most as many entries as current records and none when no
    address occurs in both batches. *)
Theorem X5_compare_prices (currentTokens previousTokens : list Markets.TokenMarketData) :
  let result := Markets.comparePrices currentTokens previousTokens in
  (exists entries,
     compared previousTokens currentTokens entries /\ Permutation result entries)
  /\ (forall e, In e result <->
        exists c p, In c currentTokens /\ firstAt previousTokens c p
                    /\ ~ Markets.priceUsd p == 0 /\ e = comparison c p)
  /\ StronglySorted descendingMagnitude result
  /\ Forall (fun e => Markets.change e <> Double.NaN) result
  /\ (length result <= length currentTokens)%nat
  /\ ((forall c p, In c currentTokens -> In p previousTokens ->
                   Markets.address p <> Markets.address c) ->
      result = []).
Proof.
  cbv zeta. unfold Markets.comparePrices.
  set (entries := Arr.dropNull (map (Markets.comparePrice previousTokens) currentTokens)).
  set (cmp := fun a b : Markets.PriceComparison =>
                Double.sub (Double.abs (Markets.change b)) (Double.abs (Markets.change a))).
  assert (Hentry : forall e, In e entries <->
    exists c p, In c currentTokens /\ firstAt previousTokens c p
                /\ ~ Markets.priceUsd p == 0 /\ e = comparison c p).
  { intros e. unfold entries. rewrite dropNull_In, in_map_iff. split.
    - intros (c & Hc & Hin). apply comparePrice_some in Hc.
      destruct Hc as (p & Hp). exists c, p. tauto.
    - intros (c & p & Hin & Hp). exists c. split; [| exact Hin].
      apply comparePrice_some. now exists p. }
  split; [| split; [| split; [| split; [| split]]]].
  - exists entries. split; [apply compared_entries | apply sortBy_perm].
  - intros e. now rewrite sortBy_In.
  - apply (sortBy_sorted cmp (fun e => Double.abs (Markets.change e))
             (fun e => gridded (Markets.change e) /\ Markets.change e <> Double.NaN)).
    + intros e [_ He]. now apply abs_not_NaN.
    + intros a b [Hga Hna] [Hgb Hnb]. now apply sub_abs_sign.
    + rewrite List.Forall_forall. intros e He.
      apply Hentry in He. destruct He as (c & p & _ & _ & Hp & ->).
      now apply priceChangeFrom_ordered.
  - rewrite List.Forall_forall. intros e He.
    apply sortBy_In, Hentry in He. destruct He as (c & p & _ & _ & Hp & ->).
    now apply priceChangeFrom_ordered.
  - rewrite sortBy_length. unfold entries.
    etransitivity; [apply dropNull_length | now rewrite length_map].
  - intros Hdisjoint.
    destruct (Arr.sortBy cmp entries) as [| e l] eqn:E; [reflexivity |].
    assert (He : In e entries) by (apply (sortBy_In cmp); rewrite E; now left).
    apply Hentry in He.
    destruct He as (c & p & Hc & (pre & post & -> & Hp & _) & _).
    exfalso. apply (Hdisjoint c p Hc); [| exact Hp].
    apply in_or_app. right. now left.
Qed.

Lemma X5_compare_prices_witness :
  let previous := [record "ETH" "0x1" 2000 0 1 true; record "STRK" "0x2" 1 0 1 true;
                   record "USDC" "0x3" 0 0 1 true] in
  let current := [record "ETH" "0x1" 2100 0 1 true; record "STRK" "0x2" (1 # 2) 0 1 true;
                  record "USDC" "0x3" 1 0 1 true; record "DAI" "0x4" 1 0 1 true] in
  map Markets.cmpSymbol (Markets.comparePrices current previous) = ["STRK"; "ETH"]
  /\ map Markets.change (Markets.comparePrices current previous)
     = [Double.Finite (-50); Double.Finite 5]
  /\ StronglySorted descendingMagnitude (Markets.comparePrices current previous)
  /\ Markets.comparePrices current [record "BTC" "0x7" 9 0 1 true] = [].
Proof.
  cbv zeta. split; [vm_compute; reflexivity |]. split; [vm_compute; reflexivity |].
  split.
  - apply (X5_compare_prices
             [record "ETH" "0x1" 2100 0 1 true; record "STRK" "0x2" (1 # 2) 0 1 true;
              record "USDC" "0x3" 1 0 1 true; record "DAI" "0x4" 1 0 1 true]
             [record "ETH" "0x1" 2000 0 1 true; record "STRK" "0x2" 1 0 1 true;
              record "USDC" "0x3" 0 0 1 true]).
  - apply (X5_compare_prices
             [record "ETH" "0x1" 2100 0 1 true; record "STRK" "0x2" (1 # 2) 0 1 true;
              record "USDC" "0x3" 1 0 1 true; record "DAI" "0x4" 1 0 1 true]
             [record "BTC" "0x7" 9 0 1 true]).
    intros c p Hc [<- | []].
    destruct Hc as [<- | [<- | [<- | [<- | []]]]]; discriminate.
Defined.

Lemma find_by_address tokens c :
  distinctAddresses tokens -> In c tokens ->
  List.find (fun t => String.eqb (Markets.address t) (Markets.address c)) tokens
  = Some c.
Proof.
  unfold distinctAddresses. intros Hnd Hin.
  destruct (in_split _ _ Hin) as (pre & post & ->).
  apply find_first. exists pre, post. split; [reflexivity |].
  split; [apply String.eqb_refl |].
  intros u Hu. apply String.eqb_neq. intros Heq.
  rewrite map_app in Hnd. simpl in Hnd. apply NoDup_remove_2 in Hnd.
  apply Hnd, in_or_app. left. rewrite <- Heq. now apply in_map.
Qed.

Lemma dropNull_all_some {A B} (f : A -> option B) (g : A -> B) (l : list A) :
  (forall x, In x l -> f x = Some (g x)) -> Arr.dropNull (map f l) = map g l.
Proof.
  induction l as [| x l IH]; intros H; [reflexivity |]. simpl.
  rewrite (H x) by now left. f_equal. apply IH. intros y Hy. apply H. now right.
Qed.

(** From a price to itself the change is a zero. *)
Lemma priceChangeFrom_same p :
  ~ p == 0 -> Double.isZero (priceChangeFrom p p) = true.
Proof.
  intros Hp. unfold priceChangeFrom.
  rewrite sub_finite, round_zero by ring.
  apply mul_zero_l, div_zero_l. exact Hp.
Qed.

(** X6.  Comparing a batch with itself, when its addresses are pairwise
    distinct and no price is 0, gives one entry per record, each with equal
    prices and a change of zero. *)
Theorem X6_compare_with_itself (tokens : list Markets.TokenMarketData) :
  distinctAddresses tokens ->
  Forall (fun t => ~ Markets.priceUsd t == 0) tokens ->
  length (Markets.comparePrices tokens tokens) = length tokens
  /\ Forall (fun e => Markets.current e = Markets.previous e
                      /\ Double.isZero (Markets.change e) = true)
       (Markets.comparePrices tokens tokens).
Proof.
  intros Hnd Hpriced. unfold Markets.comparePrices.
  rewrite List.Forall_forall in Hpriced.
  rewrite (dropNull_all_some _ (fun c => comparison c c)).
  - split; [now rewrite sortBy_length, length_map |].
    rewrite List.Forall_forall. intros e He.
    apply sortBy_In, in_map_iff in He. destruct He as (c & <- & Hc). simpl.
    split; [reflexivity |]. now apply priceChangeFrom_same, Hpriced.
  - intros c Hc. unfold Markets.comparePrice.
    rewrite (find_by_address tokens c Hnd Hc).
    now rewrite (Qeq_bool_false _ (Hpriced c Hc)).
Qed.

Lemma X6_compare_with_itself_witness :
  length (Markets.comparePrices scenarioA scenarioA) = 3%nat
  /\ Forall (fun e => Markets.current e = Markets.previous e
                      /\ Double.isZero (Markets.change e) = true)
       (Markets.comparePrices scenarioA scenarioA).
Proof.
  apply (X6_compare_with_itself scenarioA).
  - unfold distinctAddresses. simpl.
    repeat constructor; simpl; intuition discriminate.
  - repeat constructor; discriminate.
Defined.

(** ** The configured watchlist *)

Lemma split_nonempty sep s : Str.split sep s <> [].
Proof.
  destruct s as [| c r]; simpl; [discriminate |].
  destruct (Ascii.eqb c sep); [discriminate |].
  destruct (Str.split sep r); discriminate.
Qed.

Lemma split_length sep s : length (Str.split sep s) = S (occurrences sep s).
Proof.
  induction s as [| c r IH]; simpl; [reflexivity |].
  destruct (Ascii.eqb c sep); simpl; [now rewrite IH |].
  destruct (Str.split sep r) as [| w ws]; simpl in *; [discriminate | exact IH].
Qed.

Lemma join_char_cons sep x y l :
  Str.join (String sep EmptyString) (x :: y :: l)
  = x +:+ String sep (Str.join (String sep EmptyString) (y :: l)).
Proof. reflexivity. Qed.

(** Joining the pieces of a text with the separator gives the text back. *)
Lemma join_split sep s :
  Str.join (String sep EmptyString) (Str.split sep s) = s.
Proof.
  induction s as [| c r IH]; [reflexivity |]. simpl Str.split.
  pose proof (split_nonempty sep r) as Hne.
  destruct (Ascii.eqb c sep) eqn:E.
  - apply Ascii.eqb_eq in E. subst c.
    destruct (Str.split sep r) as [| w ws]; [contradiction |].
    rewrite <- IH. reflexivity.
  - destruct (Str.split sep r) as [| w ws]; [contradiction |].
    rewrite <- IH. now destruct ws.
Qed.

Lemma split_piece sep x s :
  occurrences sep x = 0%nat ->
  Str.split sep (x +:+ String sep s) = x :: Str.split sep s.
Proof.
  induction x as [| c r IH]; simpl; intros H.
  - now rewrite Ascii.eqb_refl.
  - destruct (Ascii.eqb c sep); [discriminate |].
    now rewrite (IH H).
Qed.

Lemma split_single sep x :
  occurrences sep x = 0%nat -> Str.split sep x = [x].
Proof.
  induction x as [| c r IH]; simpl; intros H; [reflexivity |].
  destruct (Ascii.eqb c sep); [discriminate |]. now rewrite (IH H).
Qed.

(** Splitting the join of pieces that do not hold the separator gives the
    pieces back. *)
Lemma split_join sep xs :
  xs <> [] -> Forall (fun x => occurrences sep x = 0%nat) xs ->
  Str.split sep (Str.join (String sep EmptyString) xs) = xs.
Proof.
  intros Hne Hfree. induction Hfree as [| x l Hx Hl IH]; [contradiction |].
  destruct l as [| y l].
  - simpl. now apply split_single.
  - rewrite join_char_cons, (split_piece sep x _ Hx).
    f_equal. apply IH. discriminate.
Qed.

Lemma trimEnd_idempotent s : Str.trimEnd (Str.trimEnd s) = Str.trimEnd s.
Proof.
  induction s as [| c r IH]; [reflexivity |]. simpl.
  destruct (Str.trimEnd r) as [| d r'] eqn:E.
  - destruct (Str.isSpace c) eqn:Ec; [reflexivity |]. simpl. now rewrite Ec.
  - simpl. simpl in IH. rewrite IH. reflexivity.
Qed.

Lemma trimEnd_head c r :
  Str.isSpace c = false -> exists r', Str.trimEnd (String c r) = String c r'.
Proof.
  intros Hc. simpl. destruct (Str.trimEnd r) as [| d r']; [rewrite Hc |]; eauto.
Qed.

Lemma trimStart_head s :
  Str.trimStart s = EmptyString
  \/ exists c r, Str.trimStart s = String c r /\ Str.isSpace c = false.
Proof.
  induction s as [| c r IH]; [now left |]. simpl.
  destruct (Str.isSpace c) eqn:E; [exact IH |]. right. eauto.
Qed.

(** A trimmed text is left alone by [trim]. *)
Lemma trim_idempotent s : Str.trim (Str.trim s) = Str.trim s.
Proof.
  unfold Str.trim.
  destruct (trimStart_head s) as [-> | (c & r & -> & Hc)]; [reflexivity |].
  destruct (trimEnd_head c r Hc) as [r' Hr]. rewrite Hr.
  simpl Str.trimStart. rewrite Hc, <- Hr. apply trimEnd_idempotent.
Qed.

(** X7.  When the variable [WATCHLIST] is set, the configured watchlist is
    never empty: it has one entry more than the text has commas, each entry
    trimmed (and possibly empty); the built-in list is used only when the
    variable is not set.  A non-empty list of trimmed, comma-free entries
    is read back from its comma-separated text unchanged. *)
Theorem X7_watchlist_from_env (env : string) :
  Config.watchlistFromEnv (Some env) <> []
  /\ length (Config.watchlistFromEnv (Some env)) = S (occurrences ","%char env)
  /\ Forall (fun w => Str.trim w = w) (Config.watchlistFromEnv (Some env))
  /\ (forall entries,
        entries <> [] ->
        Forall (fun w => occurrences ","%char w = 0%nat /\ Str.trim w = w) entries ->
        Config.watchlistFromEnv (Some (Str.join "," entries)) = entries).
Proof.
  unfold Config.watchlistFromEnv. split; [| split; [| split]].
  - intros H. apply map_eq_nil in H. now apply split_nonempty in H.
  - now rewrite length_map, split_length.
  - rewrite List.Forall_forall. intros w Hw. apply in_map_iff in Hw.
    destruct Hw as (x & <- & _). apply trim_idempotent.
  - intros entries Hne Hclean. rewrite split_join.
    + rewrite <- (map_id entries) at 2. apply map_ext_in. intros w Hw.
      rewrite List.Forall_forall in Hclean. now apply Hclean.
    + exact Hne.
    + eapply List.Forall_impl; [| exact Hclean]. now intros w [H _].
Qed.

Lemma X7_watchlist_from_env_witness :
  Config.watchlistFromEnv (Some " eth, STRK ,,USDC") = ["eth"; "STRK"; ""; "USDC"]
  /\ Config.watchlistFromEnv (Some "") = [""]
  /\ Config.watchlistFromEnv (Some (Str.join "," ["ETH"; "STRK"])) = ["ETH"; "STRK"].
Proof.
  split; [reflexivity |]. split; [reflexivity |].
  apply (X7_watchlist_from_env "").
  - discriminate.
  - repeat constructor.
Defined.

Lemma checkLoop_all_skipped cfg now tokens acc :
  Forall (fun t => Alerts.skipped cfg t = true) tokens ->
  Alerts.checkLoop cfg now tokens acc = acc.
Proof.
  intros H. revert acc. induction H as [| t l Ht _ IH]; intros acc; [reflexivity |].
  rewrite checkLoop_cons. unfold Alerts.checkToken. rewrite Ht. apply IH.
Qed.

Lemma toUpperCase_empty s : Str.toUpperCase s = "" <-> s = "".
Proof. destruct s; simpl; split; congruence. Qed.

(** X8.  When the watchlist gate excludes every record of the batch, a
    detection call returns no alert and changes nothing but [lastCheck].
    This is what happens to every batch of records with a non-empty symbol
    when [WATCHLIST] is set to the empty text: the configured watchlist is
    then the one-entry list of the empty text, which is not the empty
    list. *)
Theorem X8_gate_excludes_all (defaultConfig : Config.SmairaConfig)
    (config : option Alerts.PartialAlertConfig)
    (tokens : list Markets.TokenMarketData) (now : Date)
    (state : Alerts.AlertState) :
  (Forall (fun t => Alerts.skipped (Alerts.resolveConfig defaultConfig config) t = true)
     tokens ->
   Alerts.checkAlerts defaultConfig config tokens now state
   = ([], Alerts.setLastCheck now state))
  /\ (Forall (fun t => Markets.symbol t <> "") tokens ->
      Alerts.checkAlerts (Config.getConfig (Some "")) None tokens now state
      = ([], Alerts.setLastCheck now state)).
Proof.
  assert (Hall : forall dc cf,
    Forall (fun t => Alerts.skipped (Alerts.resolveConfig dc cf) t = true) tokens ->
    Alerts.checkAlerts dc cf tokens now state = ([], Alerts.setLastCheck now state)).
  { intros dc cf H. unfold Alerts.checkAlerts.
    now rewrite (checkLoop_all_skipped _ now tokens ([], state) H). }
  split; [apply Hall |].
  intros Hsym. apply Hall.
  eapply List.Forall_impl; [| exact Hsym]. intros t Ht.
  unfold Alerts.skipped. simpl.
  destruct (Str.toUpperCase (Markets.symbol t)) as [| c r] eqn:E; [| reflexivity].
  apply (proj1 (toUpperCase_empty _)) in E. simpl in Ht. contradiction.
Qed.

Lemma X8_gate_excludes_all_witness :
  Alerts.checkAlerts (Config.getConfig (Some "")) None scenarioA 7%Z
    (Alerts.resetAlertState 0%Z)
  = ([], Alerts.setLastCheck 7%Z (Alerts.resetAlertState 0%Z)).
Proof.
  apply (X8_gate_excludes_all Config.defaultConfig None scenarioA 7%Z
           (Alerts.resetAlertState 0%Z)).
  repeat constructor; simpl; discriminate.
Defined.

Lemma upperAscii_idempotent c : Str.upperAscii (Str.upperAscii c) = Str.upperAscii c.
Proof. destruct c as [[] [] [] [] [] [] [] []]; reflexivity. Qed.

Lemma toUpperCase_idempotent s :
  Str.toUpperCase (Str.toUpperCase s) = Str.toUpperCase s.
Proof.
  induction s as [| c r IH]; [reflexivity |]. simpl.
  now rewrite upperAscii_idempotent, IH.
Qed.

(** X9.  Only a configured entry that is its own upper-case form can match
    a record.  When no entry of the configured watchlist is, the watchlist
    view of the snapshot is empty for every batch and, the watchlist not
    being empty, a detection call without a watchlist of its own returns no
    alert. *)
Theorem X9_only_upper_case_entries_match (config : Config.SmairaConfig)
    (tokens : list Markets.TokenMarketData) (now : Date)
    (state : Alerts.AlertState) :
  Forall (fun w => Str.toUpperCase w <> w) (Config.watchlist config) ->
  Markets.watchlist (Markets.getMarketSnapshot config tokens now) = []
  /\ (Config.watchlist config <> [] ->
      fst (Alerts.checkAlerts config None tokens now state) = []).
Proof.
  intros Hlower.
  assert (Hmiss : forall t,
    Str.includes (Config.watchlist config) (Str.toUpperCase (Markets.symbol t)) = false).
  { intros t. apply not_true_is_false. intros H. apply includes_In in H.
    rewrite List.Forall_forall in Hlower. apply (Hlower _ H).
    apply toUpperCase_idempotent. }
  split.
  - simpl. induction tokens as [| t l IH]; [reflexivity |]. simpl.
    now rewrite Hmiss.
  - intros Hne. unfold Alerts.checkAlerts. simpl.
    rewrite checkLoop_all_skipped; [reflexivity |].
    rewrite List.Forall_forall. intros t _. unfold Alerts.skipped. simpl.
    rewrite Hmiss. destruct (Config.watchlist config); [contradiction | reflexivity].
Qed.

Lemma X9_only_upper_case_entries_match_witness :
  let config := Config.getConfig (Some "eth,strk") in
  Markets.watchlist (Markets.getMarketSnapshot config scenarioA 0%Z) = []
  /\ fst (Alerts.checkAlerts config None scenarioA 0%Z (Alerts.resetAlertState 0%Z)) = [].
Proof.
  cbv zeta.
  pose proof (X9_only_upper_case_entries_match (Config.getConfig (Some "eth,strk"))
                scenarioA 0%Z (Alerts.resetAlertState 0%Z)) as H.
  destruct H as [Hview Hcall].
  - repeat constructor; discriminate.
  - split; [exact Hview |]. apply Hcall. discriminate.
Defined.



(** ** More on the detector *)

Lemma filter_flat_map {A B} (p : B -> bool) (f : A -> list B) (l : list A) :
  List.filter p (flat_map f l) = flat_map (fun x => List.filter p (f x)) l.
Proof.
  induction l as [| x l IH]; [reflexivity |]. simpl.
  now rewrite List.filter_app, IH.
Qed.

Lemma flat_map_ext_in {A B} (f g : A -> list B) (l : list A) :
  (forall x, In x l -> f x = g x) -> flat_map f l = flat_map g l.
Proof.
  induction l as [| x l IH]; intros H; [reflexivity |]. simpl.
  rewrite (H x) by now left. f_equal. apply IH. intros y Hy. apply H. now right.
Qed.

Lemma filter_none {A} (p : A -> bool) (l : list A) :
  (forall x, In x l -> p x = false) -> List.filter p l = [].
Proof.
  induction l as [| x l IH]; intros H; [reflexivity |]. simpl.
  rewrite (H x) by now left. apply IH. intros y Hy. apply H. now right.
Qed.

Lemma filter_all {A} (p : A -> bool) (l : list A) :
  (forall x, In x l -> p x = true) -> List.filter p l = l.
Proof.
  induction l as [| x l IH]; intros H; [reflexivity |]. simpl.
  rewrite (H x) by now left. f_equal. apply IH. intros y Hy. apply H. now right.
Qed.

Lemma isPriceAlertb_true a : isPriceAlertb a = true <-> isPriceAlert a.
Proof.
  unfold isPriceAlertb, isPriceAlert.
  now rewrite orb_true_iff, !bool_decide_eq_true.
Qed.

(** The price alerts of an iteration are what its first [if] pushes. *)
Lemma price_alerts_of_iteration cfg now st t :
  List.filter isPriceAlertb (Alerts.tokenAlerts cfg now st t)
  = Alerts.priceAlert cfg now t.
Proof.
  unfold Alerts.tokenAlerts. rewrite !List.filter_app.
  rewrite (filter_all _ (Alerts.priceAlert cfg now t)).
  - rewrite (filter_none _ (Alerts.volumeAlert cfg now st t)).
    + rewrite (filter_none _ (Alerts.newTokenAlert now st t)).
      * now rewrite !app_nil_r.
      * intros a Ha. apply newTokenAlert_type in Ha.
        unfold isPriceAlertb. now rewrite Ha.
    + intros a Ha. apply volumeAlert_type in Ha.
      unfold isPriceAlertb. now rewrite Ha.
  - intros a Ha. apply isPriceAlertb_true. now apply priceAlert_isPrice in Ha.
Qed.

Lemma price_alerts_of_loop cfg now l alerts st :
  List.filter isPriceAlertb (fst (Alerts.checkLoop cfg now l (alerts, st)))
  = List.filter isPriceAlertb alerts
    ++ flat_map (Alerts.priceAlert cfg now) (processed cfg l).
Proof.
  revert alerts st. induction l as [| t l IH]; intros alerts st.
  - simpl. now rewrite app_nil_r.
  - rewrite checkLoop_cons. unfold Alerts.checkToken, processed. simpl.
    destruct (Alerts.skipped cfg t); simpl.
    + apply IH.
    + rewrite IH, List.filter_app, price_alerts_of_iteration.
      now rewrite <- app_assoc.
Qed.

(** X11.  The price alerts are a level detector: the [price_surge] and
    [price_drop] alerts a detection call returns are those of the processed
    records, in order, whatever state the detector is in.  Polling again
    repeats them. *)
Theorem X11_price_alerts_ignore_state (defaultConfig : Config.SmairaConfig)
    (config : option Alerts.PartialAlertConfig)
    (tokens : list Markets.TokenMarketData) (now : Date)
    (state state' : Alerts.AlertState) :
  let alertConfig := Alerts.resolveConfig defaultConfig config in
  List.filter isPriceAlertb
    (fst (Alerts.checkAlerts defaultConfig config tokens now state))
  = flat_map (Alerts.priceAlert alertConfig now) (processed alertConfig tokens)
  /\ List.filter isPriceAlertb
       (fst (Alerts.checkAlerts defaultConfig config tokens now state))
     = List.filter isPriceAlertb
         (fst (Alerts.checkAlerts defaultConfig config tokens now state')).
Proof.
  cbv zeta. unfold Alerts.checkAlerts. simpl.
  now rewrite !price_alerts_of_loop.
Qed.

Lemma tokenAlerts_same_history cfg now s1 s2 t :
  Alerts.lastVolumes s1 = Alerts.lastVolumes s2 ->
  Alerts.knownTokens s1 = Alerts.knownTokens s2 ->
  Alerts.tokenAlerts cfg now s1 t = Alerts.tokenAlerts cfg now s2 t.
Proof.
  intros Hv Hk.
  unfold Alerts.tokenAlerts, Alerts.volumeAlert, Alerts.newTokenAlert.
  now rewrite Hv, Hk.
Qed.

Lemma checkLoop_same_history cfg now l alerts s1 s2 :
  Alerts.lastVolumes s1 = Alerts.lastVolumes s2 ->
  Alerts.knownTokens s1 = Alerts.knownTokens s2 ->
  let r1 := Alerts.checkLoop cfg now l (alerts, s1) in
  let r2 := Alerts.checkLoop cfg now l (alerts, s2) in
  fst r1 = fst r2
  /\ Alerts.lastVolumes (snd r1) = Alerts.lastVolumes (snd r2)
  /\ Alerts.knownTokens (snd r1) = Alerts.knownTokens (snd r2).
Proof.
  revert alerts s1 s2. induction l as [| t l IH]; intros alerts s1 s2 Hv Hk.
  - simpl. auto.
  - cbv zeta. rewrite !checkLoop_cons. unfold Alerts.checkToken.
    destruct (Alerts.skipped cfg t); simpl.
    + now apply IH.
    + rewrite (tokenAlerts_same_history cfg now s1 s2 t Hv Hk).
      apply IH; simpl; congruence.
Qed.

(** X12.  [lastPrices] is written and never read: two detector states with
    the same [lastVolumes] and the same [knownTokens] give the same alerts,
    whatever prices and [lastCheck] they hold, and leave the same
    [lastVolumes] and [knownTokens] behind. *)
Theorem X12_last_prices_never_read (defaultConfig : Config.SmairaConfig)
    (config : option Alerts.PartialAlertConfig)
    (tokens : list Markets.TokenMarketData) (now : Date)
    (state state' : Alerts.AlertState) :
  Alerts.lastVolumes state = Alerts.lastVolumes state' ->
  Alerts.knownTokens state = Alerts.knownTokens state' ->
  let r := Alerts.checkAlerts defaultConfig config tokens now state in
  let r' := Alerts.checkAlerts defaultConfig config tokens now state' in
  fst r = fst r'
  /\ Alerts.lastVolumes (snd r) = Alerts.lastVolumes (snd r')
  /\ Alerts.knownTokens (snd r) = Alerts.knownTokens (snd r').
Proof.
  intros Hv Hk. cbv zeta. unfold Alerts.checkAlerts. simpl.
  exact (checkLoop_same_history _ now tokens [] state state' Hv Hk).
Qed.

Lemma X12_last_prices_never_read_witness :
  let seen := Alerts.updateState (Alerts.resetAlertState 0%Z)
                (record "ETH" "0x1" 3000 0 1000000 true) in
  let repriced := {| Alerts.lastPrices := <["0x1" := 1]> ∅;
                     Alerts.lastVolumes := Alerts.lastVolumes seen;
                     Alerts.lastCheck := 99%Z;
                     Alerts.knownTokens := Alerts.knownTokens seen |} in
  fst (Alerts.checkAlerts Config.defaultConfig None scenarioA 1%Z seen)
  = fst (Alerts.checkAlerts Config.defaultConfig None scenarioA 1%Z repriced).
Proof.
  cbv zeta.
  apply (X12_last_prices_never_read Config.defaultConfig None scenarioA 1%Z
           (Alerts.updateState (Alerts.resetAlertState 0%Z)
              (record "ETH" "0x1" 3000 0 1000000 true))
           {| Alerts.lastPrices := <["0x1" := 1]> ∅;
              Alerts.lastVolumes :=
                Alerts.lastVolumes
                  (Alerts.updateState (Alerts.resetAlertState 0%Z)
                     (record "ETH" "0x1" 3000 0 1000000 true));
              Alerts.lastCheck := 99%Z;
              Alerts.knownTokens :=
                Alerts.knownTokens
                  (Alerts.updateState (Alerts.resetAlertState 0%Z)
                     (record "ETH" "0x1" 3000 0 1000000 true)) |});
    reflexivity.
Defined.

(** From a volume above 0 to itself the change is 0. *)
Lemma volumeChangeFrom_same t :
  0 < Markets.volume24h t ->
  volumeChangeFrom (Markets.volume24h t) t = Double.Finite 0.
Proof.
  intros Hpos. unfold volumeChangeFrom.
  rewrite sub_finite, round_zero by ring.
  unfold Double.div, Double.isZero, Double.isNegative.
  rewrite (Qeq_bool_false (Markets.volume24h t)) by lra.
  rewrite (proj2 (ltb_false (Markets.volume24h t) 0)) by lra.
  reflexivity.
Qed.

(** A record whose volume is the recorded one spikes only against a
    threshold of 0 or less. *)
Lemma volumeAlert_same_volume cfg now st t :
  Alerts.lastVolumes st !! Markets.address t = Some (Markets.volume24h t) ->
  0 < Alerts.volumeSpikeThreshold cfg ->
  Alerts.volumeAlert cfg now st t = [].
Proof.
  intros Hprev Hthr. pose proof (volumeAlert_cases cfg now st t) as Hcases.
  rewrite Hprev in Hcases. cbv zeta in Hcases.
  destruct Hcases as (Hnonpos & Hbelow & _).
  destruct (Qlt_le_dec 0 (Markets.volume24h t)) as [Hpos | Hle].
  - apply Hbelow; [exact Hpos |]. rewrite (volumeChangeFrom_same t Hpos).
    unfold Double.ge, Double.lt, Double.real.
    apply negb_false_iff, ltb_true, Hthr.
  - apply Hnonpos. lra.
Qed.

Lemma newTokenAlert_known now st t :
  Markets.address t ∈ Alerts.knownTokens st -> Alerts.newTokenAlert now st t = [].
Proof.
  intros Hk. unfold Alerts.newTokenAlert.
  now rewrite bool_decide_eq_true_2.
Qed.

(** X13.  Polling the same batch twice: on a batch of pairwise distinct
    addresses and with a spike threshold above 0, the call that follows a
    call on the same batch returns exactly the price alerts of the
    processed records; it emits neither [volume_spike] nor [new_token]. *)
Theorem X13_second_poll_of_a_batch (defaultConfig : Config.SmairaConfig)
    (config : option Alerts.PartialAlertConfig)
    (tokens : list Markets.TokenMarketData) (now now' : Date)
    (state : Alerts.AlertState) :
  let alertConfig := Alerts.resolveConfig defaultConfig config in
  distinctAddresses tokens ->
  0 < Alerts.volumeSpikeThreshold alertConfig ->
  let first := Alerts.checkAlerts defaultConfig config tokens now state in
  fst (Alerts.checkAlerts defaultConfig config tokens now' (snd first))
  = flat_map (Alerts.priceAlert alertConfig now') (processed alertConfig tokens).
Proof.
  cbv zeta. set (cfg := Alerts.resolveConfig defaultConfig config).
  intros Hnd Hthr. unfold Alerts.checkAlerts. simpl. fold cfg.
  set (s1 := Alerts.setLastCheck now (snd (Alerts.checkLoop cfg now tokens ([], state)))).
  rewrite (checkLoop_from_initial cfg now' s1 tokens [] s1 Hnd).
  - simpl. apply flat_map_ext_in. intros t Ht.
    apply processed_In in Ht. destruct Ht as [Hin Hw].
    destruct (in_split _ _ Hin) as (pre & post & Hsplit).
    assert (Hlast : ~ In (Markets.address t)
                      (map Markets.address (processed cfg post))).
    { intros Hdup. apply processed_addresses in Hdup.
      unfold distinctAddresses in Hnd. rewrite Hsplit, map_app in Hnd.
      simpl in Hnd. apply NoDup_remove_2 in Hnd.
      apply Hnd, in_or_app. now right. }
    pose proof (checkLoop_recorded cfg now pre t post [] state Hw Hlast)
      as (_ & Hvol & Hknown).
    rewrite <- Hsplit in Hvol, Hknown.
    unfold Alerts.tokenAlerts.
    rewrite (volumeAlert_same_volume cfg now' s1 t Hvol Hthr).
    rewrite (newTokenAlert_known now' s1 t Hknown).
    now rewrite !app_nil_r.
  - intros t _. apply agreeAt_refl.
Qed.

Lemma X13_second_poll_of_a_batch_witness :
  let verifiedA := [record "ETH" "0x1" 3000 (62 # 10) 1000000 true;
                    record "STRK" "0x2" (1 # 2) (-3) 500000 true] in
  let first := Alerts.checkAlerts Config.defaultConfig None verifiedA 0%Z
                 (Alerts.resetAlertState 0%Z) in
  map Alerts.type (fst first)
  = [Alerts.price_surge; Alerts.new_token; Alerts.new_token]
  /\ fst (Alerts.checkAlerts Config.defaultConfig None verifiedA 1%Z (snd first))
     = flat_map (Alerts.priceAlert (Alerts.resolveConfig Config.defaultConfig None) 1%Z)
         (processed (Alerts.resolveConfig Config.defaultConfig None) verifiedA).
Proof.
  cbv zeta. split; [reflexivity |].
  apply (X13_second_poll_of_a_batch Config.defaultConfig None
           [record "ETH" "0x1" 3000 (62 # 10) 1000000 true;
            record "STRK" "0x2" (1 # 2) (-3) 500000 true] 0%Z 1%Z
           (Alerts.resetAlertState 0%Z)).
  - unfold distinctAddresses. simpl.
    repeat constructor; simpl; intuition discriminate.
  - reflexivity.
Defined.

Lemma updateState_coherent st t : coherent st -> coherent (Alerts.updateState st t).
Proof.
  unfold coherent, Alerts.updateState. simpl. intros [Hp Hv].
  now rewrite !dom_insert_L, Hp, Hv.
Qed.

Lemma checkLoop_coherent cfg now l alerts st :
  coherent st -> coherent (snd (Alerts.checkLoop cfg now l (alerts, st))).
Proof.
  revert alerts st. induction l as [| t l IH]; intros alerts st Hc; [exact Hc |].
  rewrite checkLoop_cons. unfold Alerts.checkToken.
  destruct (Alerts.skipped cfg t); [now apply IH |].
  apply IH. now apply updateState_coherent.
Qed.

(** X14.  The three maps of the detector state carry the same addresses:
    this holds after [resetAlertState] and every detection call keeps it,
    so an address is known exactly when a volume, and a price, is recorded
    for it.  A call never forgets an address. *)
Theorem X14_state_maps_share_keys (defaultConfig : Config.SmairaConfig)
    (config : option Alerts.PartialAlertConfig)
    (tokens : list Markets.TokenMarketData) (now : Date)
    (state : Alerts.AlertState) :
  coherent (Alerts.resetAlertState now)
  /\ (coherent state ->
      let state' := snd (Alerts.checkAlerts defaultConfig config tokens now state) in
      coherent state'
      /\ forall a, a ∈ Alerts.knownTokens state'
                   <-> is_Some (Alerts.lastVolumes state' !! a))
  /\ Alerts.knownTokens state
     ⊆ Alerts.knownTokens
         (snd (Alerts.checkAlerts defaultConfig config tokens now state)).
Proof.
  split; [| split].
  - unfold coherent. simpl. now rewrite !dom_empty_L.
  - intros Hc. cbv zeta.
    assert (Hc' : coherent
              (snd (Alerts.checkAlerts defaultConfig config tokens now state))).
    { unfold Alerts.checkAlerts. simpl.
      pose proof (checkLoop_coherent (Alerts.resolveConfig defaultConfig config)
                    now tokens [] state Hc) as H.
      exact H. }
    split; [exact Hc' |]. intros a. destruct Hc' as [_ Hv].
    rewrite <- Hv. apply elem_of_dom.
  - intros a Ha. unfold Alerts.checkAlerts. simpl.
    now apply checkLoop_known_mono.
Qed.

Lemma X14_state_maps_share_keys_witness :
  let state' := snd (Alerts.checkAlerts Config.defaultConfig None scenarioA 0%Z
                       (Alerts.resetAlertState 0%Z)) in
  coherent state'
  /\ forall a, a ∈ Alerts.knownTokens state'
               <-> is_Some (Alerts.lastVolumes state' !! a).
Proof.
  apply (X14_state_maps_share_keys Config.defaultConfig None scenarioA 0%Z
           (Alerts.resetAlertState 0%Z)).
  apply (X14_state_maps_share_keys Config.defaultConfig None scenarioA 0%Z
           (Alerts.resetAlertState 0%Z)).
Defined.

Lemma tokenAlerts_length cfg now st t :
  (length (Alerts.tokenAlerts cfg now st t) <= 3)%nat.
Proof.
  unfold Alerts.tokenAlerts, Alerts.priceAlert, Alerts.volumeAlert, Alerts.newTokenAlert.
  rewrite !length_app.
  destruct (Num.geb _ _); destruct (Alerts.lastVolumes st !! Markets.address t) as [v |];
    try destruct (Num.truthy v && Num.gtb v 0);
    try destruct (Double.ge _ _);
    destruct (negb _ && _); simpl; lia.
Qed.

Lemma tokenAlerts_stamp cfg now st t a :
  In a (Alerts.tokenAlerts cfg now st t) ->
  Alerts.symbol a = Markets.symbol t /\ Alerts.timestamp a = now.
Proof.
  unfold Alerts.tokenAlerts, Alerts.priceAlert, Alerts.volumeAlert, Alerts.newTokenAlert.
  rewrite !in_app_iff.
  destruct (Num.geb _ _); destruct (Alerts.lastVolumes st !! Markets.address t) as [v |];
    try destruct (Num.truthy v && Num.gtb v 0);
    try destruct (Double.ge _ _);
    destruct (negb _ && _); simpl; intuition (subst; auto).
Qed.

Lemma checkLoop_length cfg now l alerts st :
  (length (fst (Alerts.checkLoop cfg now l (alerts, st)))
   <= length alerts + 3 * length (processed cfg l))%nat.
Proof.
  revert alerts st. induction l as [| t l IH]; intros alerts st.
  - simpl. lia.
  - rewrite checkLoop_cons. unfold Alerts.checkToken, processed. simpl.
    destruct (Alerts.skipped cfg t); simpl.
    + apply IH.
    + etransitivity; [apply IH |]. rewrite length_app.
      pose proof (tokenAlerts_length cfg now st t). unfold processed. lia.
Qed.

(** X15.  A detection call returns at most three alerts for each record it
    processes, so none for an empty batch; every alert carries the symbol of
    a record of the batch that passes the watchlist gate and the time of the
    call. *)
Theorem X15_alert_count_and_origin (defaultConfig : Config.SmairaConfig)
    (config : option Alerts.PartialAlertConfig)
    (tokens : list Markets.TokenMarketData) (now : Date)
    (state : Alerts.AlertState) :
  let alertConfig := Alerts.resolveConfig defaultConfig config in
  let alerts := fst (Alerts.checkAlerts defaultConfig config tokens now state) in
  (length alerts <= 3 * length (processed alertConfig tokens))%nat
  /\ (length alerts <= 3 * length tokens)%nat
  /\ Forall (fun a => Alerts.timestamp a = now
                      /\ exists t, In t tokens /\ watched alertConfig t
                                   /\ Alerts.symbol a = Markets.symbol t)
       alerts.
Proof.
  cbv zeta. set (cfg := Alerts.resolveConfig defaultConfig config).
  unfold Alerts.checkAlerts. simpl. fold cfg.
  pose proof (checkLoop_length cfg now tokens [] state) as Hlen. simpl in Hlen.
  split; [exact Hlen |]. split.
  - etransitivity; [exact Hlen |]. unfold processed.
    pose proof (List.filter_length_le
                  (fun t => negb (Alerts.skipped cfg t)) tokens). lia.
  - rewrite List.Forall_forall. intros a Ha.
    destruct (checkLoop_alert_origin cfg now tokens state a Ha)
      as (t & s & Hin & Hw & Hemit).
    apply tokenAlerts_stamp in Hemit. destruct Hemit as [Hsym Hstamp].
    split; [exact Hstamp |]. now exists t.
Qed.

Lemma ofType_flat_map {A} ty (f : A -> list Alerts.Alert) (l : list A) :
  ofType ty (flat_map f l) = flat_map (fun x => ofType ty (f x)) l.
Proof. apply filter_flat_map. Qed.

(** X16.  The first call after [resetAlertState], on a batch of pairwise
    distinct addresses, emits no [volume_spike] and exactly one [new_token]
    for each verified record that passes the watchlist gate, in batch
    order. *)
Theorem X16_first_call_after_reset (defaultConfig : Config.SmairaConfig)
    (config : option Alerts.PartialAlertConfig)
    (tokens : list Markets.TokenMarketData) (now resetAt : Date) :
  let alertConfig := Alerts.resolveConfig defaultConfig config in
  distinctAddresses tokens ->
  let alerts :=
    fst (Alerts.checkAlerts defaultConfig config tokens now
           (Alerts.resetAlertState resetAt)) in
  ofType Alerts.volume_spike alerts = []
  /\ map Alerts.symbol (ofType Alerts.new_token alerts)
     = map Markets.symbol
         (List.filter (fun t => Markets.verified t) (processed alertConfig tokens)).
Proof.
  cbv zeta. set (cfg := Alerts.resolveConfig defaultConfig config).
  intros Hnd. unfold Alerts.checkAlerts. simpl. fold cfg.
  rewrite (checkLoop_from_initial cfg now (Alerts.resetAlertState resetAt) tokens []
             (Alerts.resetAlertState resetAt) Hnd)
    by (intros t _; apply agreeAt_refl).
  simpl. rewrite !ofType_flat_map. split.
  - induction (processed cfg tokens) as [| t l IH]; [reflexivity |]. simpl.
    now rewrite ofType_volume_spike, IH.
  - induction (processed cfg tokens) as [| t l IH]; [reflexivity |]. simpl.
    rewrite ofType_new_token, map_app, IH.
    unfold Alerts.newTokenAlert. simpl.
    destruct (Markets.verified t); reflexivity.
Qed.

Lemma X16_first_call_after_reset_witness :
  let batch := [record "ETH" "0x1" 3000 0 1 true; record "DOGE" "0x9" 1 0 1 true;
                record "STRK" "0x2" 1 0 1 false; record "USDC" "0x3" 1 0 1 true] in
  map Alerts.symbol
    (ofType Alerts.new_token
       (fst (Alerts.checkAlerts Config.defaultConfig None batch 1%Z
               (Alerts.resetAlertState 0%Z))))
  = ["ETH"; "USDC"].
Proof.
  cbv zeta.
  rewrite (proj2 (X16_first_call_after_reset Config.defaultConfig None
            [record "ETH" "0x1" 3000 0 1 true; record "DOGE" "0x9" 1 0 1 true;
             record "STRK" "0x2" 1 0 1 false; record "USDC" "0x3" 1 0 1 true]
            1%Z 0%Z
            ltac:(unfold distinctAddresses; simpl;
                  repeat constructor; simpl; intuition discriminate))).
  reflexivity.
Defined.

(** ** More on the alert report *)

Lemma alertLines_reportLines alerts generated :
  Alerts.alertLines alerts generated = reportLines alerts generated.
Proof.
  unfold Alerts.alertLines, reportLines, displayOrder. simpl.
  now rewrite !pushSection_sectionOf, app_nil_r.
Qed.

Lemma sectionOf_length ty alerts :
  length (sectionOf ty alerts)
  = (length (ofType ty alerts)
     + if existsb (fun a => bool_decide (Alerts.type a = ty)) alerts then 2 else 0)%nat.
Proof.
  unfold sectionOf.
  assert (Hex : existsb (fun a => bool_decide (Alerts.type a = ty)) alerts
                = negb (Nat.eqb (length (ofType ty alerts)) 0)).
  { unfold ofType. induction alerts as [| a l IH]; [reflexivity |]. simpl.
    destruct (bool_decide (Alerts.type a = ty)); [reflexivity | exact IH]. }
  rewrite Hex. destruct (ofType ty alerts) as [| a g]; [reflexivity |].
  simpl. rewrite length_app, length_map. simpl. lia.
Qed.

Lemma ofType_partition alerts :
  (length (ofType Alerts.price_surge alerts) + length (ofType Alerts.price_drop alerts)
   + length (ofType Alerts.volume_spike alerts) + length (ofType Alerts.new_token alerts)
   = length alerts)%nat.
Proof.
  induction alerts as [| a l IH]; [reflexivity |]. simpl.
  destruct (Alerts.type a); simpl; lia.
Qed.

Lemma bullet_in_section a alerts :
  In a alerts -> In (Alerts.bullet (Alerts.type a) a) (sectionOf (Alerts.type a) alerts).
Proof.
  intros Ha. unfold sectionOf.
  assert (Hin : In a (ofType (Alerts.type a) alerts)) by now apply ofType_In.
  destruct (ofType (Alerts.type a) alerts) as [| b g] eqn:E; [destruct Hin |].
  right. apply in_or_app. left. now apply in_map.
Qed.

(** X17.  The alert report loses no alert and tells an empty list from any
    other: the text is [No active alerts.] only for the empty list; for
    every alert of the list its bullet is among the lines; and a non-empty
    list gives 4 heading lines, one line per alert and 2 more lines (header
    and blank) for each alert type that occurs. *)
Theorem X17_report_keeps_every_alert (alerts : list Alerts.Alert)
    (generated : string) :
  (Alerts.formatAlerts alerts generated = "No active alerts." <-> alerts = [])
  /\ (forall a, In a alerts ->
        In (Alerts.bullet (Alerts.type a) a) (Alerts.alertLines alerts generated))
  /\ length (Alerts.alertLines alerts generated)
     = (4 + length alerts + 2 * length (presentTypes alerts))%nat.
Proof.
  split; [| split].
  - split; [| now intros ->].
    destruct alerts as [| a l]; [reflexivity |]. intros H. exfalso.
    unfold Alerts.formatAlerts in H. rewrite alertLines_reportLines in H.
    simpl in H. discriminate H.
  - intros a Ha. rewrite alertLines_reportLines. unfold reportLines, displayOrder.
    apply in_or_app. right. simpl. rewrite app_nil_r, !in_app_iff.
    pose proof (bullet_in_section a alerts Ha) as Hb.
    destruct (Alerts.type a); tauto.
  - rewrite alertLines_reportLines. unfold reportLines, displayOrder, presentTypes.
    simpl flat_map. rewrite app_nil_r, !length_app, !sectionOf_length.
    pose proof (ofType_partition alerts) as Hpart. simpl List.filter.
    destruct (existsb (fun a => bool_decide (Alerts.type a = Alerts.price_surge)) alerts);
      destruct (existsb (fun a => bool_decide (Alerts.type a = Alerts.price_drop)) alerts);
      destruct (existsb (fun a => bool_decide (Alerts.type a = Alerts.volume_spike)) alerts);
      destruct (existsb (fun a => bool_decide (Alerts.type a = Alerts.new_token)) alerts);
      simpl length; lia.
Qed.

(** ** The scheduler *)

Lemma stopTask_lookup_running i ts j t :
  Scheduler.stopTask i ts !! j = Some t -> Scheduler.running t = true ->
  i <> j /\ ts !! j = Some t.
Proof.
  unfold Scheduler.stopTask. intros Hj Hrun.
  destruct (decide (i = j)) as [-> | Hne].
  - rewrite list_lookup_alter_eq in Hj.
    destruct (ts !! j) as [u |]; simpl in Hj; [| discriminate].
    injection Hj as <-. discriminate Hrun.
  - split; [exact Hne |]. now rewrite list_lookup_alter_ne in Hj.
Qed.

Lemma stopTask_stopped i ts t :
  Scheduler.stopTask i ts !! i = Some t -> Scheduler.running t = false.
Proof.
  unfold Scheduler.stopTask. rewrite list_lookup_alter_eq.
  destruct (ts !! i) as [u |]; simpl; [| discriminate]. now intros [= <-].
Qed.

Lemma stopTask_length i ts : length (Scheduler.stopTask i ts) = length ts.
Proof. apply length_alter. Qed.

Lemma stopAll_lookup_running (ids : list nat) ts j t :
  foldr Scheduler.stopTask ts ids !! j = Some t -> Scheduler.running t = true ->
  ~ In j ids /\ ts !! j = Some t.
Proof.
  induction ids as [| i ids IH]; simpl; intros Hj Hrun; [tauto |].
  destruct (stopTask_lookup_running _ _ _ _ Hj Hrun) as [Hne Hj'].
  destruct (IH Hj' Hrun) as [Hnot Hts]. split; [| exact Hts].
  intros [-> | Hin]; [now apply Hne | now apply Hnot].
Qed.

Lemma stopAll_length (ids : list nat) ts :
  length (foldr Scheduler.stopTask ts ids) = length ts.
Proof.
  induction ids as [| i ids IH]; simpl; [reflexivity |].
  now rewrite stopTask_length.
Qed.

Lemma stopAll_stopped (ids : list nat) ts j t :
  In j ids -> foldr Scheduler.stopTask ts ids !! j = Some t ->
  Scheduler.running t = false.
Proof.
  induction ids as [| i ids IH]; simpl; [intros [] |].
  intros [-> | Hin] Hj; [now apply stopTask_stopped in Hj |].
  destruct (Scheduler.running t) eqn:Hrun; [| reflexivity].
  destruct (stopTask_lookup_running _ _ _ _ Hj Hrun) as [_ Hj'].
  pose proof (IH Hin Hj') as Hstopped. congruence.
Qed.

(** The task objects after the first step of [scheduleJob]. *)
Lemma scheduleJob_stopped_tasks s (nm : string) j t :
  match Scheduler.scheduledTasks s !! nm with
  | Some old => Scheduler.stopTask old (Scheduler.tasks s)
  | None => Scheduler.tasks s
  end !! j = Some t ->
  Scheduler.running t = true ->
  Scheduler.tasks s !! j = Some t /\ Scheduler.scheduledTasks s !! nm <> Some j.
Proof.
  destruct (Scheduler.scheduledTasks s !! nm) as [old |]; intros Hj Hrun.
  - destruct (stopTask_lookup_running _ _ _ _ Hj Hrun) as [Hne Hj'].
    split; [exact Hj' | congruence].
  - split; [exact Hj | discriminate].
Qed.

(** X18.  No timer is left running behind the scheduler's back: in the
    initial state, and after every [scheduleJob] (whether it returns or
    throws), every [stopScheduler] and every run of a job, each task object
    that is running is the one registered under some job name, and each
    name has a task object of its own.  Scheduling a job again therefore
    never leaves two timers running for it. *)
Theorem X18_no_stray_timer (validate : string -> bool) (job : Scheduler.CronJob)
    (outcome : option string) (now : Date) (s : Scheduler.State) :
  noStrayTimer Scheduler.initial
  /\ (noStrayTimer s ->
      noStrayTimer (fst (Scheduler.scheduleJob validate job s))
      /\ noStrayTimer (Scheduler.stopScheduler s)
      /\ noStrayTimer (Scheduler.onTick job outcome now s)).
Proof.
  split.
  - unfold noStrayTimer. simpl. repeat split.
    + intros i t H. now rewrite lookup_nil in H.
    + intros n i H. now rewrite lookup_empty in H.
    + intros n m i H. now rewrite lookup_empty in H.
  - intros (Hreg & Hidx & Hinj). split; [| split].
    + unfold Scheduler.scheduleJob.
      set (stopped := match Scheduler.scheduledTasks s !! Scheduler.name job with
                      | Some old => Scheduler.stopTask old (Scheduler.tasks s)
                      | None => Scheduler.tasks s
                      end).
      assert (Hlen : length stopped = length (Scheduler.tasks s)).
      { unfold stopped. destruct (Scheduler.scheduledTasks s !! Scheduler.name job);
          [apply stopTask_length | reflexivity]. }
      destruct (negb (validate (Scheduler.schedule job))); simpl.
      * unfold noStrayTimer. simpl. split; [| split].
        -- intros i t Hi Hrun.
           destruct (scheduleJob_stopped_tasks s _ i t Hi Hrun) as [Hi' _].
           now apply (Hreg i t).
        -- intros n i Hn. rewrite Hlen. now apply (Hidx n).
        -- exact Hinj.
      * unfold noStrayTimer. simpl. split; [| split].
        -- intros i t Hi Hrun.
           destruct (decide (i < length stopped)%nat) as [Hlt | Hge].
           ++ rewrite lookup_app_l in Hi by exact Hlt.
              destruct (scheduleJob_stopped_tasks s _ i t Hi Hrun) as [Hi' Hnot].
              destruct (Hreg i t Hi' Hrun) as [n Hn]. exists n.
              rewrite lookup_insert_ne; [exact Hn |]. intros <-. contradiction.
           ++ exists (Scheduler.name job).
              apply lookup_lt_Some in Hi. rewrite length_app in Hi. simpl in Hi.
              replace i with (length stopped) by lia. apply lookup_insert_eq.
        -- intros n i Hn. rewrite length_app. simpl.
           destruct (decide (Scheduler.name job = n)) as [<- | Hne].
           ++ rewrite lookup_insert_eq in Hn. injection Hn as <-. lia.
           ++ rewrite lookup_insert_ne in Hn by exact Hne.
              apply Hidx in Hn. lia.
        -- intros n m i Hn Hm.
           destruct (decide (Scheduler.name job = n)) as [<- | Hnn];
             destruct (decide (Scheduler.name job = m)) as [<- | Hnm];
             try reflexivity.
           ++ rewrite lookup_insert_eq in Hn. injection Hn as <-.
              rewrite lookup_insert_ne in Hm by exact Hnm.
              apply Hidx in Hm. lia.
           ++ rewrite lookup_insert_eq in Hm. injection Hm as <-.
              rewrite lookup_insert_ne in Hn by exact Hnn.
              apply Hidx in Hn. lia.
           ++ rewrite lookup_insert_ne in Hn by exact Hnn.
              rewrite lookup_insert_ne in Hm by exact Hnm.
              now apply (Hinj n m i).
    + unfold noStrayTimer, Scheduler.stopScheduler. simpl. split; [| split].
      * intros i t Hi Hrun. exfalso.
        destruct (stopAll_lookup_running _ _ _ _ Hi Hrun) as [Hnot Hi'].
        destruct (Hreg i t Hi' Hrun) as [n Hn]. apply Hnot.
        apply in_map_iff. exists (n, i). split; [reflexivity |].
        apply list_elem_of_In, elem_of_map_to_list. exact Hn.
      * intros n i H. now rewrite lookup_empty in H.
      * intros n m i H. now rewrite lookup_empty in H.
    + unfold noStrayTimer, Scheduler.onTick. simpl. auto.
Qed.

Lemma X18_no_stray_timer_witness :
  let job := {| Scheduler.name := "alert-check"; Scheduler.schedule := "*/15 * * * *";
                Scheduler.enabled := true |} in
  let once := fst (Scheduler.scheduleJob (fun _ => true) job Scheduler.initial) in
  let twice := fst (Scheduler.scheduleJob (fun _ => true) job once) in
  map Scheduler.running (Scheduler.tasks twice) = [false; true]
  /\ noStrayTimer once.
Proof.
  cbv zeta. split; [reflexivity |].
  pose proof (X18_no_stray_timer (fun _ => true)
                {| Scheduler.name := "alert-check";
                   Scheduler.schedule := "*/15 * * * *";
                   Scheduler.enabled := true |} None 0%Z Scheduler.initial)
    as [Hinitial Hkept].
  exact (proj1 (Hkept Hinitial)).
Defined.

(** X19.  [scheduleJob] with an expression that [cron.validate] rejects
    throws, registers nothing and creates no task object; but it has
    already stopped the task registered under the job's name, which stays
    registered: after the failed call that job no longer runs.  Every other
    task object is untouched, and when the name was free the state is
    unchanged. *)
Theorem X19_invalid_expression (validate : string -> bool)
    (job : Scheduler.CronJob) (s : Scheduler.State) :
  validate (Scheduler.schedule job) = false ->
  let r := Scheduler.scheduleJob validate job s in
  snd r = Some ("Invalid cron expression: " +:+ Scheduler.schedule job)
  /\ Scheduler.scheduledTasks (fst r) = Scheduler.scheduledTasks s
  /\ Scheduler.jobStatus (fst r) = Scheduler.jobStatus s
  /\ length (Scheduler.tasks (fst r)) = length (Scheduler.tasks s)
  /\ (forall old t,
        Scheduler.scheduledTasks s !! Scheduler.name job = Some old ->
        Scheduler.tasks (fst r) !! old = Some t -> Scheduler.running t = false)
  /\ (forall i, Scheduler.scheduledTasks s !! Scheduler.name job <> Some i ->
        Scheduler.tasks (fst r) !! i = Scheduler.tasks s !! i)
  /\ (Scheduler.scheduledTasks s !! Scheduler.name job = None -> fst r = s).
Proof.
  intros Hbad. cbv zeta. unfold Scheduler.scheduleJob. rewrite Hbad. simpl.
  repeat split.
  - destruct (Scheduler.scheduledTasks s !! Scheduler.name job);
      [apply stopTask_length | reflexivity].
  - intros old t -> Hold. now apply stopTask_stopped in Hold.
  - intros i Hi. destruct (Scheduler.scheduledTasks s !! Scheduler.name job) as [old |];
      [| reflexivity].
    unfold Scheduler.stopTask. apply list_lookup_alter_ne. congruence.
  - intros ->. now destruct s.
Qed.

Lemma X19_invalid_expression_witness :
  let validate := fun e => String.eqb e "*/15 * * * *" in
  let good := {| Scheduler.name := "alert-check"; Scheduler.schedule := "*/15 * * * *";
                 Scheduler.enabled := true |} in
  let bad := {| Scheduler.name := "alert-check"; Scheduler.schedule := "every day";
                Scheduler.enabled := true |} in
  let before := fst (Scheduler.scheduleJob validate good Scheduler.initial) in
  let after := Scheduler.scheduleJob validate bad before in
  map Scheduler.running (Scheduler.tasks before) = [true]
  /\ map Scheduler.running (Scheduler.tasks (fst after)) = [false]
  /\ Scheduler.scheduledTasks (fst after) = Scheduler.scheduledTasks before.
Proof.
  cbv zeta. split; [reflexivity |]. split; [reflexivity |].
  apply (X19_invalid_expression (fun e => String.eqb e "*/15 * * * *")
           {| Scheduler.name := "alert-check"; Scheduler.schedule := "every day";
              Scheduler.enabled := true |}).
  reflexivity.
Defined.

(** X20.  [stopScheduler] empties the registrations, keeps the job statuses
    and stops every task that was registered; when no stray timer was
    running before, no task object is running after it. *)
Theorem X20_stop_scheduler (s : Scheduler.State) :
  let s' := Scheduler.stopScheduler s in
  Scheduler.scheduledTasks s' = ∅
  /\ Scheduler.jobStatus s' = Scheduler.jobStatus s
  /\ length (Scheduler.tasks s') = length (Scheduler.tasks s)
  /\ (forall n i t, Scheduler.scheduledTasks s !! n = Some i ->
        Scheduler.tasks s' !! i = Some t -> Scheduler.running t = false)
  /\ (noStrayTimer s ->
      Forall (fun t => Scheduler.running t = false) (Scheduler.tasks s')).
Proof.
  cbv zeta. unfold Scheduler.stopScheduler. simpl.
  split; [reflexivity |]. split; [reflexivity |]. split; [apply stopAll_length |].
  split.
  - intros n i t Hn Hi. eapply stopAll_stopped; [| exact Hi].
    apply in_map_iff. exists (n, i). split; [reflexivity |].
    now apply list_elem_of_In, elem_of_map_to_list.
  - intros (Hreg & _ & _). rewrite List.Forall_forall. intros t Ht.
    apply list_elem_of_In, list_elem_of_lookup in Ht. destruct Ht as [i Hi].
    destruct (Scheduler.running t) eqn:Hrun; [| reflexivity]. exfalso.
    destruct (stopAll_lookup_running _ _ _ _ Hi Hrun) as [Hnot Hi'].
    destruct (Hreg i t Hi' Hrun) as [n Hn]. apply Hnot.
    apply in_map_iff. exists (n, i). split; [reflexivity |].
    now apply list_elem_of_In, elem_of_map_to_list.
Qed.

Lemma X20_stop_scheduler_witness :
  let cron := {| Scheduler.snapshotInterval := "0 */6 * * *";
                 Scheduler.reportInterval := "0 7 * * *";
                 Scheduler.alertCheckInterval := "*/15 * * * *" |} in
  let started := fst (Scheduler.startScheduler (fun _ => true) cron Scheduler.initial) in
  map Scheduler.running (Scheduler.tasks started) = [true; true; true]
  /\ map Scheduler.running (Scheduler.tasks (Scheduler.stopScheduler started))
     = [false; false; false]
  /\ Scheduler.scheduledTasks (Scheduler.stopScheduler started) = ∅.
Proof.
  cbv zeta. split; [reflexivity |]. split; [reflexivity |].
  apply (X20_stop_scheduler
           (fst (Scheduler.startScheduler (fun _ => true)
                   {| Scheduler.snapshotInterval := "0 */6 * * *";
                      Scheduler.reportInterval := "0 7 * * *";
                      Scheduler.alertCheckInterval := "*/15 * * * *" |}
                   Scheduler.initial))).
Defined.

(** X21.  When [cron.validate] accepts the three configured expressions,
    [startScheduler] from the initial state registers three running tasks,
    and the jobs [runJobNow] accepts are exactly the registered names; any
    other name makes [runJobNow] throw.  When the second expression is
    rejected, [startScheduler] throws after the first job alone has been
    registered and started. *)
Theorem X21_start_and_run_now (validate : string -> bool)
    (cron : Scheduler.CronConfig) :
  let r := Scheduler.startScheduler validate cron Scheduler.initial in
  (validate (Scheduler.snapshotInterval cron) = true ->
   validate (Scheduler.reportInterval cron) = true ->
   validate (Scheduler.alertCheckInterval cron) = true ->
   snd r = None
   /\ map Scheduler.running (Scheduler.tasks (fst r)) = [true; true; true]
   /\ forall n, is_Some (Scheduler.scheduledTasks (fst r) !! n)
                <-> exists job, Scheduler.runJobNow cron n = inl job)
  /\ (validate (Scheduler.snapshotInterval cron) = true ->
      validate (Scheduler.reportInterval cron) = false ->
      snd r = Some ("Invalid cron expression: " +:+ Scheduler.reportInterval cron)
      /\ map Scheduler.running (Scheduler.tasks (fst r)) = [true]
      /\ forall n, is_Some (Scheduler.scheduledTasks (fst r) !! n)
                   <-> n = "market-snapshot")
  /\ (forall n, (exists job, Scheduler.runJobNow cron n = inl job)
                <-> n = "market-snapshot" \/ n = "daily-report" \/ n = "alert-check")
  /\ (forall n, n <> "market-snapshot" -> n <> "daily-report" -> n <> "alert-check" ->
                Scheduler.runJobNow cron n = inr ("Unknown job: " +:+ n)).
Proof.
  cbv zeta.
  assert (Hrun : forall n,
    (exists job, Scheduler.runJobNow cron n = inl job)
    <-> n = "market-snapshot" \/ n = "daily-report" \/ n = "alert-check").
  { intros n. unfold Scheduler.runJobNow. cbn -[String.eqb].
    destruct (String.eqb_spec "market-snapshot" n) as [<- | H1]; [split; eauto |].
    destruct (String.eqb_spec "daily-report" n) as [<- | H2]; [split; eauto |].
    destruct (String.eqb_spec "alert-check" n) as [<- | H3]; [split; eauto |].
    split; [intros [job Hjob]; discriminate Hjob |].
    intros [Hn | [Hn | Hn]]; congruence. }
  split; [| split; [| split; [exact Hrun |]]].
  - intros Hs Hr Ha. unfold Scheduler.startScheduler. simpl.
    unfold Scheduler.scheduleJob. simpl. rewrite Hs. simpl. rewrite Hr. simpl.
    rewrite Ha. simpl. split; [reflexivity |]. split; [reflexivity |].
    intros n. rewrite Hrun, !lookup_insert.
    repeat case_decide; subst; rewrite ?lookup_empty; split;
      intros Hgoal; eauto; try (destruct Hgoal as [x Hx]; discriminate Hx);
      destruct Hgoal as [Hn | [Hn | Hn]]; congruence.
  - intros Hs Hr. unfold Scheduler.startScheduler. simpl.
    unfold Scheduler.scheduleJob. simpl. rewrite Hs. simpl. rewrite Hr. simpl.
    split; [reflexivity |]. split; [reflexivity |].
    intros n. rewrite lookup_insert.
    case_decide; subst; rewrite ?lookup_empty; split; intros Hgoal; eauto;
      try congruence.
    exfalso. eapply is_Some_None. exact Hgoal.
  - intros n H1 H2 H3. unfold Scheduler.runJobNow. cbn -[String.eqb].
    destruct (String.eqb_spec "market-snapshot" n); [congruence |].
    destruct (String.eqb_spec "daily-report" n); [congruence |].
    destruct (String.eqb_spec "alert-check" n); [congruence |].
    reflexivity.
Qed.

Lemma X21_start_and_run_now_witness :
  let cron := {| Scheduler.snapshotInterval := "0 */6 * * *";
                 Scheduler.reportInterval := "daily";
                 Scheduler.alertCheckInterval := "*/15 * * * *" |} in
  let validate := fun e => negb (String.eqb e "daily") in
  snd (Scheduler.startScheduler validate cron Scheduler.initial)
  = Some "Invalid cron expression: daily"
  /\ map Scheduler.running
       (Scheduler.tasks (fst (Scheduler.startScheduler validate cron Scheduler.initial)))
     = [true].
Proof.
  cbv zeta.
  pose proof (X21_start_and_run_now (fun e => negb (String.eqb e "daily"))
                {| Scheduler.snapshotInterval := "0 */6 * * *";
                   Scheduler.reportInterval := "daily";
                   Scheduler.alertCheckInterval := "*/15 * * * *" |})
    as (_ & Hpartial & _).
  destruct Hpartial as (Herr & Hrun & _); [reflexivity | reflexivity |].
  split; [exact Herr | exact Hrun].
Defined.

(** ** DCA analysis *)

(** The number of cycles: the duration when it is given and not 0, three
    months of cycles otherwise. *)
Lemma cycles_cases (p : Dca.DCAParams) :
  let cycles :=
    Dca.orNumber (Dca.duration p)
      (Double.mul (Double.Finite (Dca.FREQUENCY_CYCLES_PER_MONTH (Dca.frequency p)))
         (Double.Finite 3)) in
  (exists d, Dca.duration p = Some d /\ ~ d == 0 /\ cycles = Double.Finite d)
  \/ ((Dca.duration p = None \/ exists d, Dca.duration p = Some d /\ d == 0)
      /\ cycles = Double.Finite (defaultCycles (Dca.frequency p))).
Proof.
  cbv zeta. unfold Dca.orNumber.
  assert (Hdefault :
    Double.mul (Double.Finite (Dca.FREQUENCY_CYCLES_PER_MONTH (Dca.frequency p)))
      (Double.Finite 3)
    = Double.Finite (defaultCycles (Dca.frequency p))).
  { destruct (Dca.frequency p); vm_compute; reflexivity. }
  rewrite Hdefault.
  destruct (Dca.duration p) as [d |]; [| right; split; [now left | reflexivity]].
  destruct (Num.truthy d) eqn:E.
  - apply truthy_true in E. left. now exists d.
  - apply truthy_false in E. right. split; [| reflexivity]. right. now exists d.
Qed.

Lemma cycles_finite (p : Dca.DCAParams) :
  exists n,
    Dca.orNumber (Dca.duration p)
      (Double.mul (Double.Finite (Dca.FREQUENCY_CYCLES_PER_MONTH (Dca.frequency p)))
         (Double.Finite 3))
    = Double.Finite n
    /\ ~ n == 0.
Proof.
  destruct (cycles_cases p) as [(d & _ & Hd & ->) | [_ ->]].
  - now exists d.
  - exists (defaultCycles (Dca.frequency p)). split; [reflexivity |].
    destruct (Dca.frequency p); discriminate.
Qed.

(** X22.  [analyzeDCA] fails fast on an unknown token: when the sold or the
    bought symbol, upper-cased, is not a key of [TOKEN_ADDRESSES], it throws
    [Unknown token: ...] without asking for a quote.  With both tokens
    known, an error of the quote request is passed on, an answer without
    quotes makes it throw [Could not get quote for DCA analysis], and any
    other answer gives an analysis. *)
Theorem X22_analyze_dca_errors
    (request : string -> string -> Double.number -> nat -> list Dca.Quote + string)
    (p : Dca.DCAParams) :
  let sell := Dca.tokenInfo (Str.toUpperCase (Dca.sellToken p)) in
  let buy := Dca.tokenInfo (Str.toUpperCase (Dca.buyToken p)) in
  (sell = None \/ buy = None ->
   forall request',
     Dca.analyzeDCA request' p
     = inr ("Unknown token: " +:+ Dca.sellToken p +:+ " or " +:+ Dca.buyToken p))
  /\ (forall s b, sell = Some s -> buy = Some b ->
        let amount :=
          Double.div (Double.Finite (Dca.totalAmount p))
            (Dca.orNumber (Dca.duration p)
               (Double.mul
                  (Double.Finite (Dca.FREQUENCY_CYCLES_PER_MONTH (Dca.frequency p)))
                  (Double.Finite 3))) in
        let answer := request (fst s) (fst b) amount (snd s) in
        (forall thrown, answer = inr thrown ->
           Dca.analyzeDCA request p = inr thrown)
        /\ (answer = inl [] ->
            Dca.analyzeDCA request p = inr "Could not get quote for DCA analysis")
        /\ (forall q qs, answer = inl (q :: qs) ->
            exists a, Dca.analyzeDCA request p = inl a /\ Dca.params a = p)).
Proof.
  cbv zeta. unfold Dca.analyzeDCA. split.
  - intros [H | H] request'; rewrite H; [reflexivity |].
    now destruct (Dca.tokenInfo (Str.toUpperCase (Dca.sellToken p))).
  - intros s b -> ->. split; [| split].
    + now intros thrown ->.
    + now intros ->.
    + intros q qs ->. eexists. split; reflexivity.
Qed.

Lemma X22_analyze_dca_errors_witness :
  let p := {| Dca.sellToken := "usdc"; Dca.buyToken := "DOGE"; Dca.totalAmount := 100;
              Dca.frequency := Dca.weekly; Dca.duration := None |} in
  Dca.tokenInfo (Str.toUpperCase (Dca.sellToken p)) = Some
    ("0x053c91253bc9682c04929ca02ed00b3e423f6710d2ee7e0d5ebb06f3ecf368a8", 6%nat)
  /\ Dca.analyzeDCA
       (fun _ _ _ _ => inl [ {| Dca.buyAmount := 1; Dca.gasFeesUsd := None |} ]) p
     = inr "Unknown token: usdc or DOGE".
Proof.
  cbv zeta. split; [reflexivity |].
  apply (X22_analyze_dca_errors (fun _ _ _ _ => inl [])
           {| Dca.sellToken := "usdc"; Dca.buyToken := "DOGE"; Dca.totalAmount := 100;
              Dca.frequency := Dca.weekly; Dca.duration := None |}).
  right. reflexivity.
Defined.

(** Dividing by [+0]: [NaN] from a zero, otherwise the infinity of the sign
    of the dividend. *)
Lemma div_by_zero x :
  x <> Double.NaN ->
  Double.div x (Double.Finite 0)
  = if Double.isZero x then Double.NaN else Double.Infinity (Double.isNegative x).
Proof.
  intros Hx. unfold Double.div.
  destruct x as [q | | s |]; try (now contradiction Hx); simpl;
    try reflexivity; now rewrite xorb_false_r.
Qed.

(** X23.  In every analysis [analyzeDCA] returns, the number of cycles is
    the duration when one is given and is not 0, and otherwise three months
    of cycles: 2160 for an hourly plan, 90 for a daily, 12 for a weekly and
    3 for a monthly one; it is never 0.  The amount per cycle is the total
    amount divided by the number of cycles, rounded, and is not [NaN].  A
    quote that buys nothing is not refused: the estimated buy amount is then
    a zero, and the current price is an infinity, or [NaN] when the amount
    per cycle is a zero.  The estimated average price is the current price.
    An hourly plan always gets the high-frequency warning, whatever the
    amount; any other plan gets the low-amount warning exactly when the
    amount per cycle is below 10. *)
Theorem X23_analyze_dca_amounts
    (request : string -> string -> Double.number -> nat -> list Dca.Quote + string)
    (p : Dca.DCAParams) (a : Dca.DCAAnalysis) :
  Dca.analyzeDCA request p = inl a ->
  (exists n, Dca.numberOfCycles a = Double.Finite n /\ ~ n == 0)
  /\ (forall d, Dca.duration p = Some d -> ~ d == 0 ->
        Dca.numberOfCycles a = Double.Finite d)
  /\ (Dca.duration p = None \/ (exists d, Dca.duration p = Some d /\ d == 0) ->
      Dca.numberOfCycles a = Double.Finite (defaultCycles (Dca.frequency p)))
  /\ Dca.amountPerCycle a
     = Double.div (Double.Finite (Dca.totalAmount p)) (Dca.numberOfCycles a)
  /\ Dca.amountPerCycle a <> Double.NaN
  /\ (forall s b q qs,
        Dca.tokenInfo (Str.toUpperCase (Dca.sellToken p)) = Some s ->
        Dca.tokenInfo (Str.toUpperCase (Dca.buyToken p)) = Some b ->
        request (fst s) (fst b) (Dca.amountPerCycle a) (snd s) = inl (q :: qs) ->
        Dca.buyAmount q = 0%Z ->
        Double.isZero (Dca.estimatedBuyAmount a) = true
        /\ Dca.currentPrice a
           = if Double.isZero (Dca.amountPerCycle a) then Double.NaN
             else Double.Infinity (Double.isNegative (Dca.amountPerCycle a)))
  /\ Dca.estimatedAvgPrice a = Dca.currentPrice a
  /\ (Dca.frequency p = Dca.hourly -> Dca.recommendation a = Dca.HighFrequency)
  /\ (Dca.frequency p <> Dca.hourly ->
      (Dca.recommendation a = Dca.LowAmount
       <-> Double.lt (Dca.amountPerCycle a) (Double.Finite 10) = true)).
Proof.
  unfold Dca.analyzeDCA.
  destruct (Dca.tokenInfo (Str.toUpperCase (Dca.sellToken p))) as [s |]; [| discriminate].
  destruct (Dca.tokenInfo (Str.toUpperCase (Dca.buyToken p))) as [b |]; [| discriminate].
  pose proof (cycles_cases p) as Hcases. pose proof (cycles_finite p) as Hfinite.
  cbv zeta in Hcases.
  set (cycles := Dca.orNumber (Dca.duration p) _) in *.
  set (amount := Double.div (Double.Finite (Dca.totalAmount p)) cycles).
  destruct (request _ _ amount _) as [[| q qs] | thrown] eqn:Erequest;
    [discriminate | | discriminate].
  intros [= <-]. cbn [Dca.numberOfCycles Dca.amountPerCycle Dca.estimatedBuyAmount
                      Dca.currentPrice Dca.estimatedAvgPrice Dca.recommendation].
  fold amount.
  assert (Hamount : amount <> Double.NaN).
  { destruct Hfinite as (n & Hn & Hnz). unfold amount. rewrite Hn.
    now apply div_not_NaN. }
  split; [exact Hfinite |]. split; [| split; [| split; [| split; [| split]]]].
  - intros d Hd Hnz. destruct Hcases as [(d' & Hd' & _ & ->) | [[Hnone | (d' & Hd' & Hz)] _]].
    + congruence.
    + congruence.
    + rewrite Hd in Hd'. injection Hd' as <-. contradiction.
  - intros Hmissing. destruct Hcases as [(d & Hd & Hnz & _) | [_ Hc]]; [| exact Hc].
    destruct Hmissing as [Hnone | (d' & Hd' & Hz)]; [congruence |].
    rewrite Hd in Hd'. injection Hd' as <-. contradiction.
  - reflexivity.
  - exact Hamount.
  - intros s' b' q' qs' [= <-] [= <-] Hanswer Hbuy.
    rewrite Erequest in Hanswer. injection Hanswer as <- <-.
    assert (Hunits : Dca.fromUnits (Dca.buyAmount q) (snd b) = Double.Finite 0).
    { unfold Dca.fromUnits. rewrite Hbuy. apply round_zero. unfold Qdiv. ring. }
    rewrite Hunits. split.
    + destruct Hfinite as (n & -> & _). now apply mul_zero_l.
    + now apply div_by_zero.
  - split; [reflexivity |]. split.
    + intros ->. reflexivity.
    + intros Hfreq.
      destruct (Dca.frequency p); [contradiction | | |];
        destruct (Double.lt amount (Double.Finite 10)); split; congruence.
Qed.

Lemma X23_analyze_dca_amounts_witness :
  let p := {| Dca.sellToken := "usdc"; Dca.buyToken := "strk"; Dca.totalAmount := 120;
              Dca.frequency := Dca.weekly; Dca.duration := Some 0 |} in
  let quote := {| Dca.buyAmount := 0; Dca.gasFeesUsd := None |} in
  exists a,
    Dca.analyzeDCA (fun _ _ _ _ => inl [quote]) p = inl a
    /\ Dca.numberOfCycles a = Double.Finite 12
    /\ Dca.amountPerCycle a = Double.Finite 10
    /\ Dca.currentPrice a = Double.Infinity false
    /\ Dca.recommendation a = Dca.Reasonable Dca.weekly 120 "usdc" "strk".
Proof.
  cbv zeta. eexists. split; [reflexivity |].
  pose proof (X23_analyze_dca_amounts
                (fun _ _ _ _ => inl [ {| Dca.buyAmount := 0; Dca.gasFeesUsd := None |} ])
                {| Dca.sellToken := "usdc"; Dca.buyToken := "strk";
                   Dca.totalAmount := 120; Dca.frequency := Dca.weekly;
                   Dca.duration := Some 0 |} _ eq_refl)
    as (_ & _ & Hcycles & _).
  split.
  - apply Hcycles. right. exists 0. split; reflexivity.
  - split; [vm_compute; reflexivity |]. split; vm_compute; reflexivity.
Defined.









(** ** A batch that repeats an address *)

(** X25.  When a batch carries an address twice, the later record is
    compared with the earlier record of the same batch, not with the state
    before the call: if [u] is the last processed record before [t] with the
    address of [t], the iteration of [t] finds the volume of [u] recorded
    and the address known.  It emits no [new_token], and, the volume of [u]
    being above 0, a [volume_spike] iff the change from the volume of [u],
    with every operation rounded, reaches the threshold; the alert carries
    that change. *)
Theorem X25_repeated_address (defaultConfig : Config.SmairaConfig)
    (config : option Alerts.PartialAlertConfig)
    (before : list Markets.TokenMarketData) (u : Markets.TokenMarketData)
    (between : list Markets.TokenMarketData) (t : Markets.TokenMarketData)
    (now : Date) (state : Alerts.AlertState) :
  let alertConfig := Alerts.resolveConfig defaultConfig config in
  let pre := before ++ u :: between in
  watched alertConfig u ->
  watched alertConfig t ->
  Markets.address u = Markets.address t ->
  ~ In (Markets.address t) (map Markets.address (processed alertConfig between)) ->
  let found := stateBefore alertConfig now state pre in
  let emitted := emittedFor alertConfig now state pre t in
  Alerts.lastVolumes found !! Markets.address t = Some (Markets.volume24h u)
  /\ Markets.address t ∈ Alerts.knownTokens found
  /\ ofType Alerts.new_token emitted = []
  /\ (0 < Markets.volume24h u ->
      (ofType Alerts.volume_spike emitted <> []
       <-> Double.ge (volumeChangeFrom (Markets.volume24h u) t)
             (Double.Finite (Alerts.volumeSpikeThreshold alertConfig)) = true)
      /\ Forall (fun a => Alerts.value a = volumeChangeFrom (Markets.volume24h u) t)
           (ofType Alerts.volume_spike emitted)).
Proof.
  cbv zeta. set (cfg := Alerts.resolveConfig defaultConfig config).
  intros Hu Ht Haddr Hlast.
  assert (Hrec : Alerts.lastVolumes (stateBefore cfg now state (before ++ u :: between))
                   !! Markets.address t = Some (Markets.volume24h u)
                 /\ Markets.address t
                    ∈ Alerts.knownTokens
                        (stateBefore cfg now state (before ++ u :: between))).
  { unfold stateBefore. rewrite <- Haddr in Hlast |- *.
    pose proof (checkLoop_recorded cfg now before u between [] state Hu Hlast)
      as (_ & Hv & Hk).
    split; assumption. }
  destruct Hrec as [Hvol Hknown].
  split; [exact Hvol |]. split; [exact Hknown |].
  rewrite (emittedFor_watched _ _ _ _ _ Ht), ofType_new_token, ofType_volume_spike.
  split; [now apply newTokenAlert_known |].
  intros Hpos.
  pose proof (volumeAlert_cases cfg now
                (stateBefore cfg now state (before ++ u :: between)) t) as Hcases.
  rewrite Hvol in Hcases. cbv zeta in Hcases.
  destruct Hcases as (_ & Hbelow & Hreach).
  destruct (Double.ge (volumeChangeFrom (Markets.volume24h u) t)
              (Double.Finite (Alerts.volumeSpikeThreshold cfg))) eqn:Ethr.
  - destruct (Hreach Hpos eq_refl) as (a & -> & Hval & _).
    split; [split; [reflexivity | discriminate] |].
    repeat constructor. exact Hval.
  - rewrite (Hbelow Hpos eq_refl).
    split; [split; [intros H; now contradiction H | discriminate] |].
    constructor.
Qed.

Lemma X25_repeated_address_witness :
  let batch := [record "ETH" "0x1" 3000 0 1000000 true;
                record "ETH" "0x1" 3000 0 4000000 true] in
  map Alerts.type
    (fst (Alerts.checkAlerts Config.defaultConfig None batch 0%Z
            (Alerts.resetAlertState 0%Z)))
  = [Alerts.new_token; Alerts.volume_spike]
  /\ ofType Alerts.new_token
       (emittedFor (Alerts.resolveConfig Config.defaultConfig None) 0%Z
          (Alerts.resetAlertState 0%Z) [record "ETH" "0x1" 3000 0 1000000 true]
          (record "ETH" "0x1" 3000 0 4000000 true)) = [].
Proof.
  cbv zeta. split; [reflexivity |].
  apply (X25_repeated_address Config.defaultConfig None []
           (record "ETH" "0x1" 3000 0 1000000 true) []
           (record "ETH" "0x1" 3000 0 4000000 true) 0%Z (Alerts.resetAlertState 0%Z)).
  - reflexivity.
  - reflexivity.
  - reflexivity.
  - intros [].
Defined.

(** ** The watchlist of the dashboard *)

Lemma includes_false_notin (xs : list string) (s : string) :
  Str.includes xs s = false <-> ~ In s xs.
Proof.
  rewrite <- includes_In. destruct (Str.includes xs s); split; congruence.
Qed.

(** X26.  The dashboard stores watchlist entries upper-cased.  Adding a
    symbol makes its upper-case form an entry, once: adding keeps a
    duplicate-free list duplicate-free and adding twice changes nothing
    more.  After adding, every entry of the market data whose symbol is the
    added one up to case is in the watchlist view.  Removing a symbol
    removes its upper-case form and no other entry.  Removing a symbol after
    adding it gives what removing it from the original list gives, which is
    the original list exactly when the symbol was not listed before: for a
    symbol that was listed, adding changes nothing and removing drops the
    entry. *)
Theorem X26_dashboard_watchlist (symbol : string) (watchlist : list string) :
  let added := Frontend.addToWatchlist symbol watchlist in
  let removed := Frontend.removeFromWatchlist symbol watchlist in
  In (Str.toUpperCase symbol) added
  /\ (forall w, In w watchlist -> In w added)
  /\ (List.NoDup watchlist -> List.NoDup added)
  /\ Frontend.addToWatchlist symbol added = added
  /\ (forall (A : Type) (symbolOf : A -> string) (marketData : list A) t,
        In t marketData ->
        Str.toUpperCase (symbolOf t) = Str.toUpperCase symbol ->
        In t (Frontend.watchlistTokens symbolOf marketData added))
  /\ ~ In (Str.toUpperCase symbol) removed
  /\ (forall w, w <> Str.toUpperCase symbol -> (In w removed <-> In w watchlist))
  /\ Frontend.removeFromWatchlist symbol added = removed
  /\ (Frontend.removeFromWatchlist symbol added = watchlist
      <-> ~ In (Str.toUpperCase symbol) watchlist).
Proof.
  cbv zeta. unfold Frontend.addToWatchlist, Frontend.removeFromWatchlist.
  set (s := Str.toUpperCase symbol).
  assert (Hin : In s (if negb (Str.includes watchlist s)
                      then watchlist ++ [s] else watchlist)).
  { destruct (Str.includes watchlist s) eqn:E; simpl.
    - now apply includes_In.
    - apply in_or_app. right. now left. }
  assert (Hround : List.filter (fun w => negb (String.eqb w s))
                     (if negb (Str.includes watchlist s)
                      then watchlist ++ [s] else watchlist)
                   = List.filter (fun w => negb (String.eqb w s)) watchlist).
  { destruct (negb (Str.includes watchlist s)); [| reflexivity].
    rewrite List.filter_app. simpl. rewrite String.eqb_refl. simpl.
    now rewrite app_nil_r. }
  split; [exact Hin |].
  split; [| split; [| split; [| split; [| split; [| split; [| split]]]]]].
  - intros w Hw. destruct (negb (Str.includes watchlist s)); [| exact Hw].
    apply in_or_app. now left.
  - intros Hnd. destruct (Str.includes watchlist s) eqn:E; simpl; [exact Hnd |].
    apply includes_false_notin in E.
    apply (Permutation_NoDup (Permutation_cons_append watchlist s)).
    now constructor.
  - apply includes_In in Hin. now rewrite Hin.
  - intros A symbolOf marketData t Ht Hsym. unfold Frontend.watchlistTokens.
    apply filter_In. split; [exact Ht |]. rewrite Hsym. now apply includes_In.
  - intros H. apply filter_In in H. destruct H as [_ H].
    now rewrite String.eqb_refl in H.
  - intros w Hw. rewrite filter_In, negb_true_iff, String.eqb_neq. tauto.
  - exact Hround.
  - rewrite Hround. split.
    + intros Heq Hlisted. rewrite <- Heq in Hlisted.
      apply filter_In in Hlisted. destruct Hlisted as [_ H].
      now rewrite String.eqb_refl in H.
    + intros Hnew. clear Hin Hround.
      induction watchlist as [| w l IH]; [reflexivity |]. simpl.
      destruct (String.eqb_spec w s) as [-> | Hne].
      * contradiction Hnew. now left.
      * simpl. f_equal. apply IH. intros H. apply Hnew. now right.
Qed.

Lemma X26_dashboard_watchlist_witness :
  Frontend.addToWatchlist "eth" ["STRK"] = ["STRK"; "ETH"]
  /\ List.NoDup (Frontend.addToWatchlist "eth" ["STRK"])
  /\ In (record "Eth" "0x1" 1 0 0 true)
       (Frontend.watchlistTokens Markets.symbol [record "Eth" "0x1" 1 0 0 true]
          (Frontend.addToWatchlist "eth" ["STRK"]))
  /\ Frontend.removeFromWatchlist "eth" (Frontend.addToWatchlist "eth" ["STRK"])
     = ["STRK"]
  /\ Frontend.removeFromWatchlist "eth"
       (Frontend.addToWatchlist "eth" ["ETH"; "STRK"]) = ["STRK"].
Proof.
  split; [reflexivity |].
  pose proof (X26_dashboard_watchlist "eth" ["STRK"])
    as (_ & _ & Hnd & _ & Hview & _ & _ & _ & Hround).
  split; [| split; [| split]].
  - apply Hnd. repeat constructor. intros [].
  - apply Hview; [now left | reflexivity].
  - apply Hround. simpl. intuition discriminate.
  - reflexivity.
Defined.
